(** * Run-length / bit-packed hybrid codec for booleans (util/rle-encoding.h)

    A shallow embedding of [RleEncoder] and [RleDecoder] and of the bit
    stream primitives they are written against, followed by the properties
    of the codec.

    Conventions.
    - C++ integers are [Z]; every operation that can leave the range of its
      C++ type has the wrap-around written out ([wrap_int32], [wrap_uint32],
      [wrap_size_t], [wrap_uint8]).
    - The encoder is modelled as it runs with assertions compiled out
      ([DCHECK] is a no-op there): all its assertions speak about its own
      fields, and the bound of the one on the literal indicator is proved
      below.  [Asserted] is the encoder once more with every assertion in
      its place, to show that none of them fails.
    - The decoder's assertions guard its input (a truncated or zero-length
      run).  They are modelled as an abort: decoder operations return
      [option], and [None] is an aborted call.
    - Out parameters ([bool* val], [size_t* run_length]) are threaded: the
      operation takes the value the caller's variable holds and returns the
      value it holds afterwards. *)

From Stdlib Require Import ZArith List Bool Lia.
From stdpp Require Import base list.
Import ListNotations.
Local Open Scope Z_scope.

(** ** Machine integers *)

Definition wrap_int32 (x : Z) : Z := (x + 2 ^ 31) mod 2 ^ 32 - 2 ^ 31.
Definition wrap_uint32 (x : Z) : Z := x mod 2 ^ 32.
Definition wrap_uint8 (x : Z) : Z := x mod 2 ^ 8.
Definition wrap_size_t (x : Z) : Z := x mod 2 ^ 64.

Definition bool_to_Z (b : bool) : Z := if b then 1 else 0.
Definition Z_to_bool (x : Z) : bool := negb (x =? 0).

(** Modelled from the spec: [BitmapSize] of util/bitmap.h, whose source is not
    available.  The spec gives the group count as
    [ceil(literal_count / 8)]. *)
Definition BitmapSize (num_bits : Z) : Z := (num_bits + 7) / 8.

(** Modelled from the spec: [vlq_len], the number of bytes of the VLQ form of
    a non-negative integer (7 payload bits per byte). *)
Definition vlq_len (v : Z) : Z := Z.log2 v / 7 + 1.

(** Error monad of the decoder: [None] is a failed [DCHECK]. *)
Notation "x <- m ;; k" :=
  (match m with Some x => k | None => None end)
  (at level 60, m at next level, right associativity, only parsing).

Definition DCHECK (c : bool) : option unit := if c then Some tt else None.

(** ** BitWriter *)

Module BitWriter.

(** Modelled from the spec: the [BitWriter] of util/bit-stream-utils, whose
    source is not available.  [buffer] is the growable byte buffer; a
    byte that is being filled bit by bit is its last element, and
    [bit_offset] counts the bits of it already written (0 on a byte
    boundary). *)
Record t := mk { buffer : list Z; bit_offset : nat }.

(** Modelled from the spec: [clear()]. *)
Definition Clear (w : t) : t := mk [] 0.

(** Modelled from the spec: [bytes_written()]. *)
Definition bytes_written (w : t) : nat := length (buffer w).

(** Modelled from the spec: [put_bool(b)] appends one bit, LSB-first within
    each byte. *)
Definition PutBool (b : bool) (w : t) : t :=
  match bit_offset w with
  | O => mk (buffer w ++ [bool_to_Z b]) 1
  | S _ =>
      let i := (length (buffer w) - 1)%nat in
      let old := default 0 (buffer w !! i) in
      mk (<[i := Z.lor old (Z.shiftl (bool_to_Z b) (Z.of_nat (bit_offset w)))]>
            (buffer w))
         (if (bit_offset w =? 7)%nat then 0%nat else S (bit_offset w))
  end.

(** Modelled from the spec: [put_aligned<u8>(v)] flushes to the next byte
    boundary, then appends one full byte. *)
Definition PutAligned (v : Z) (w : t) : t :=
  mk (buffer w ++ [wrap_uint8 v]) 0.

(** Modelled from the spec: [put_vlq_int(v)] appends a non-negative 32-bit
    integer in groups of 7 bits, little-endian, the high bit of each byte set
    on all but the last.  Such an integer has at most five groups. *)
Fixpoint PutVlqInt_loop (more : nat) (v : Z) (w : t) : t :=
  match more with
  | O => PutAligned (Z.land v 0x7F) w
  | S more' =>
      if Z.land v 0xFFFFFF80 =? 0 then PutAligned (Z.land v 0x7F) w
      else PutVlqInt_loop more' (Z.shiftr v 7)
             (PutAligned (Z.lor (Z.land v 0x7F) 0x80) w)
  end.

Definition PutVlqInt (v : Z) (w : t) : t := PutVlqInt_loop 4 v w.

(** Modelled from the spec: [get_byte_index_and_advance()] flushes to the next
    byte boundary, allocates the next byte as a placeholder, returns its
    index and leaves the write cursor past it. *)
Definition GetByteIndexAndAdvance (w : t) : nat * t :=
  (length (buffer w), mk (buffer w ++ [0]) 0).

(** Modelled from the spec: [finish()] flushes any partial byte and returns
    the total number of bytes written. *)
Definition Finish (w : t) : nat * t :=
  (length (buffer w), mk (buffer w) 0).

End BitWriter.

(** ** BitReader *)

Module BitReader.

(** Modelled from the spec: the [BitReader] of util/bit-stream-utils, whose
    source is not available.  The cursor is a byte index and a bit
    index inside that byte. *)
Record t := mk { buffer : list Z; byte_offset : nat; bit_offset : nat }.

(** Modelled from the spec: the constructor [BitReader(buffer, len)], a
    reader at the first bit of [bytes]. *)
Definition new (bytes : list Z) : t := mk bytes 0 0.

(** Modelled from the spec: the byte index of the next byte boundary, where
    the aligned reads start. *)
Definition aligned_offset (r : t) : nat :=
  match bit_offset r with
  | O => byte_offset r
  | S _ => S (byte_offset r)
  end.

(** Modelled from the spec: [get_bool(out)], bits LSB-first within each byte;
    on failure the cursor does not advance. *)
Definition GetBool (r : t) : option (bool * t) :=
  match buffer r !! byte_offset r with
  | None => None
  | Some byte =>
      Some (Z.testbit byte (Z.of_nat (bit_offset r)),
            if (bit_offset r =? 7)%nat
            then mk (buffer r) (S (byte_offset r)) 0
            else mk (buffer r) (byte_offset r) (S (bit_offset r)))
  end.

(** Modelled from the spec: [rewind_bool()] undoes the most recent
    [get_bool]. *)
Definition RewindBool (r : t) : t :=
  match bit_offset r with
  | O => mk (buffer r) (byte_offset r - 1) 7
  | S b => mk (buffer r) (byte_offset r) b
  end.

(** Modelled from the spec: [get_aligned<u8>(out)] advances to the next byte
    boundary, then reads; on failure the cursor does not advance. *)
Definition GetAligned (r : t) : option (Z * t) :=
  match buffer r !! aligned_offset r with
  | None => None
  | Some byte => Some (byte, mk (buffer r) (S (aligned_offset r)) 0)
  end.

(** Modelled from the spec: the VLQ form at the head of [bytes] (7 payload
    bits per byte, low group first, high bit set on all but the last byte):
    the value and the number of bytes it takes, [None] when the bytes end before the terminator. *)
Fixpoint vlq_decode (bytes : list Z) (shift v : Z) : option (Z * nat) :=
  match bytes with
  | [] => None
  | byte :: rest =>
      let v' := Z.lor v (Z.shiftl (Z.land byte 0x7F) shift) in
      if Z.land byte 0x80 =? 0 then Some (v', 1%nat)
      else match vlq_decode rest (shift + 7) v' with
           | Some (x, n) => Some (x, S n)
           | None => None
           end
  end.

(** Modelled from the spec: [get_vlq_int(out)].  A run starts on a byte
    boundary with its indicator, so the bytes are read aligned; the value is
    a 32-bit integer; on failure the cursor does not advance. *)
Definition GetVlqInt (r : t) : option (Z * t) :=
  match vlq_decode (drop (aligned_offset r) (buffer r)) 0 0 with
  | None => None
  | Some (v, n) =>
      Some (wrap_int32 v, mk (buffer r) (aligned_offset r + n) 0)
  end.

End BitReader.

(** ** RleDecoder *)

Module RleDecoder.

Record t := mk {
  bit_reader_ : BitReader.t;
  current_value_ : bool;
  repeat_count_ : Z;     (* uint32_t *)
  literal_count_ : Z     (* uint32_t *)
}.

(** [RleDecoder(buffer, buffer_len)]. *)
Definition new (buffer : list Z) : t := mk (BitReader.new buffer) false 0 0.

Definition set_reader (r : BitReader.t) (d : t) : t :=
  mk r (current_value_ d) (repeat_count_ d) (literal_count_ d).
Definition set_current_value (b : bool) (d : t) : t :=
  mk (bit_reader_ d) b (repeat_count_ d) (literal_count_ d).
Definition set_repeat_count (n : Z) (d : t) : t :=
  mk (bit_reader_ d) (current_value_ d) n (literal_count_ d).
Definition set_literal_count (n : Z) (d : t) : t :=
  mk (bit_reader_ d) (current_value_ d) (repeat_count_ d) n.

(** [ReadHeader]: the result and the decoder afterwards. *)
Definition ReadHeader (d : t) : option (bool * t) :=
  if (literal_count_ d =? 0) && (repeat_count_ d =? 0) then
    match BitReader.GetVlqInt (bit_reader_ d) with
    | None => Some (false, d)
    | Some (indicator_value, r) =>
        let d := set_reader r d in
        let is_literal := Z_to_bool (Z.land indicator_value 1) in
        if is_literal then
          let d :=
            set_literal_count
              (wrap_uint32 (wrap_int32 (Z.shiftr indicator_value 1 * 8))) d in
          _ <- DCHECK (literal_count_ d >? 0) ;;
          Some (true, d)
        else
          let d := set_repeat_count (wrap_uint32 (Z.shiftr indicator_value 1)) d in
          _ <- DCHECK (repeat_count_ d >? 0) ;;
          match BitReader.GetBool (bit_reader_ d) with
          | None => None
          | Some (b, r) => Some (true, set_reader r (set_current_value b d))
          end
    end
  else Some (true, d).

(** [Get]: the result, [*val] afterwards, the decoder afterwards. *)
Definition Get (val : bool) (d : t) : option (bool * bool * t) :=
  match ReadHeader d with
  | None => None
  | Some (false, d) => Some (false, val, d)
  | Some (true, d) =>
      if repeat_count_ d >? 0 then
        Some (true, current_value_ d,
              set_repeat_count (wrap_uint32 (repeat_count_ d - 1)) d)
      else
        _ <- DCHECK (literal_count_ d >? 0) ;;
        match BitReader.GetBool (bit_reader_ d) with
        | None => None
        | Some (b, r) =>
            Some (true, b,
                  set_literal_count (wrap_uint32 (literal_count_ d - 1))
                    (set_reader r d))
        end
  end.

(** The loop [while (literal_count_ > 0)] of [GetNextRun].  Every turn
    decrements [literal_count_], so [Z.to_nat literal_count_] turns are all
    it can take; [n] counts them down.  The result says whether the loop left
    through [return true], and gives [*run_length] and the decoder. *)
Fixpoint GetNextRun_literals (n : nat) (val : bool) (run_length : Z) (d : t)
  : option (bool * Z * t) :=
  if literal_count_ d >? 0 then
    match n with
    | O => None
    | S n' =>
        match BitReader.GetBool (bit_reader_ d) with
        | None => None
        | Some (b, r) =>
            let d := set_reader r (set_current_value b d) in
            if negb (Bool.eqb (current_value_ d) val) then
              Some (true, run_length,
                    set_reader (BitReader.RewindBool (bit_reader_ d)) d)
            else
              GetNextRun_literals n' val (wrap_size_t (run_length + 1))
                (set_literal_count (wrap_uint32 (literal_count_ d - 1)) d)
        end
    end
  else Some (false, run_length, d).

(** The loop [while (ReadHeader())] of [GetNextRun] and the [return] after
    it.  [fuel] bounds the number of turns. *)
Fixpoint GetNextRun_loop (fuel : nat) (val : bool) (run_length : Z) (d : t)
  : option (bool * bool * Z * t) :=
  match fuel with
  | O => None
  | S fuel' =>
      match ReadHeader d with
      | None => None
      | Some (false, d) => Some (run_length >? 0, val, run_length, d)
      | Some (true, d) =>
          if repeat_count_ d >? 0 then
            if (run_length >? 0) && negb (Bool.eqb val (current_value_ d)) then
              Some (true, val, run_length, d)
            else
              GetNextRun_loop fuel' (current_value_ d)
                (wrap_size_t (run_length + repeat_count_ d))
                (set_repeat_count 0 d)
          else
            _ <- DCHECK (literal_count_ d >? 0) ;;
            first <-
              (if run_length =? 0 then
                 match BitReader.GetBool (bit_reader_ d) with
                 | None => None
                 | Some (b, r) =>
                     Some (b, wrap_size_t (run_length + 1),
                           set_literal_count
                             (wrap_uint32 (literal_count_ d - 1))
                             (set_reader r d))
                 end
               else Some (val, run_length, d)) ;;
            let '(val, run_length, d) := first in
            match
              GetNextRun_literals (Z.to_nat (literal_count_ d)) val run_length d
            with
            | None => None
            | Some (true, run_length, d) => Some (true, val, run_length, d)
            | Some (false, run_length, d) =>
                GetNextRun_loop fuel' val run_length d
            end
      end
  end.

(** [GetNextRun]: the result, [*val] and [*run_length] afterwards, the
    decoder afterwards.  Every turn of the outer loop but the first starts by
    reading an indicator, which takes at least one byte, so two turns more
    than the buffer has bytes are enough. *)
Definition GetNextRun (val : bool) (d : t) : option (bool * bool * Z * t) :=
  GetNextRun_loop (S (S (length (BitReader.buffer (bit_reader_ d))))) val 0 d.

(** The loop [while (nskip--)] of [Skip]. *)
Fixpoint Skip_bits (nskip : nat) (set_count : Z) (d : t) : option (Z * t) :=
  match nskip with
  | O => Some (set_count, d)
  | S nskip' =>
      match BitReader.GetBool (bit_reader_ d) with
      | None => None
      | Some (value, r) =>
          Skip_bits nskip' (wrap_size_t (set_count + bool_to_Z value))
            (set_reader r d)
      end
  end.

(** The loop [while (to_skip > 0)] of [Skip].  A turn that does not abort
    skips at least one value, so [to_skip] turns are enough. *)
Fixpoint Skip_loop (fuel : nat) (to_skip set_count : Z) (d : t)
  : option (Z * t) :=
  if to_skip >? 0 then
    match fuel with
    | O => None
    | S fuel' =>
        match ReadHeader d with
        | None => None
        | Some (result, d) =>
            _ <- DCHECK result ;;
            if repeat_count_ d >? 0 then
              let nskip :=
                if repeat_count_ d <? to_skip then repeat_count_ d
                else to_skip in
              let d' :=
                set_repeat_count (wrap_uint32 (repeat_count_ d - nskip)) d in
              Skip_loop fuel' (wrap_size_t (to_skip - nskip))
                (wrap_size_t (bool_to_Z (current_value_ d') * nskip)) d'
            else
              _ <- DCHECK (literal_count_ d >? 0) ;;
              let nskip :=
                if literal_count_ d <? to_skip then literal_count_ d
                else to_skip in
              let d :=
                set_literal_count (wrap_uint32 (literal_count_ d - nskip)) d in
              match Skip_bits (Z.to_nat nskip) set_count d with
              | None => None
              | Some (set_count, d) =>
                  Skip_loop fuel' (wrap_size_t (to_skip - nskip)) set_count d
              end
        end
    end
  else Some (set_count, d).

(** [Skip]: the number of set bits it reports, the decoder afterwards. *)
Definition Skip (to_skip : Z) (d : t) : option (Z * t) :=
  Skip_loop (Z.to_nat to_skip) to_skip 0 d.

End RleDecoder.

(** ** RleEncoder *)

Module RleEncoder.

Record t := mk {
  bit_writer_ : BitWriter.t;
  buffered_values_ : list Z;        (* int64_t[8] *)
  num_buffered_values_ : Z;         (* int *)
  current_value_ : bool;
  repeat_count_ : Z;                (* int *)
  literal_count_ : Z;               (* int *)
  literal_indicator_byte_ : Z;      (* int *)
  (* Ghost field, read by no operation: the [num_groups] of every literal
     indicator written since the last [Clear], the latest first. *)
  indicator_groups_ : list Z
}.

Definition set_bit_writer (w : BitWriter.t) (e : t) : t :=
  mk w (buffered_values_ e) (num_buffered_values_ e) (current_value_ e)
     (repeat_count_ e) (literal_count_ e) (literal_indicator_byte_ e)
     (indicator_groups_ e).
Definition set_buffered_values (l : list Z) (e : t) : t :=
  mk (bit_writer_ e) l (num_buffered_values_ e) (current_value_ e)
     (repeat_count_ e) (literal_count_ e) (literal_indicator_byte_ e)
     (indicator_groups_ e).
Definition set_num_buffered_values (n : Z) (e : t) : t :=
  mk (bit_writer_ e) (buffered_values_ e) n (current_value_ e)
     (repeat_count_ e) (literal_count_ e) (literal_indicator_byte_ e)
     (indicator_groups_ e).
Definition set_current_value (b : bool) (e : t) : t :=
  mk (bit_writer_ e) (buffered_values_ e) (num_buffered_values_ e) b
     (repeat_count_ e) (literal_count_ e) (literal_indicator_byte_ e)
     (indicator_groups_ e).
Definition set_repeat_count (n : Z) (e : t) : t :=
  mk (bit_writer_ e) (buffered_values_ e) (num_buffered_values_ e)
     (current_value_ e) n (literal_count_ e) (literal_indicator_byte_ e)
     (indicator_groups_ e).
Definition set_literal_count (n : Z) (e : t) : t :=
  mk (bit_writer_ e) (buffered_values_ e) (num_buffered_values_ e)
     (current_value_ e) (repeat_count_ e) n (literal_indicator_byte_ e)
     (indicator_groups_ e).
Definition set_literal_indicator_byte (n : Z) (e : t) : t :=
  mk (bit_writer_ e) (buffered_values_ e) (num_buffered_values_ e)
     (current_value_ e) (repeat_count_ e) (literal_count_ e) n
     (indicator_groups_ e).
Definition log_indicator_groups (g : Z) (e : t) : t :=
  mk (bit_writer_ e) (buffered_values_ e) (num_buffered_values_ e)
     (current_value_ e) (repeat_count_ e) (literal_count_ e)
     (literal_indicator_byte_ e) (g :: indicator_groups_ e).

(** [buffer()]: the bytes of the underlying buffer. *)
Definition buffer (e : t) : list Z := BitWriter.buffer (bit_writer_ e).

(** [len()]. *)
Definition len (e : t) : Z :=
  wrap_int32 (Z.of_nat (BitWriter.bytes_written (bit_writer_ e))).

(** [buffer()->data()[i] = v], a store of one [uint8_t].  A store outside the
    buffer is undefined in C++; the model leaves the buffer as it is. *)
Definition store_byte (i v : Z) (w : BitWriter.t) : BitWriter.t :=
  if (0 <=? i) && (i <? Z.of_nat (length (BitWriter.buffer w))) then
    BitWriter.mk (<[Z.to_nat i := wrap_uint8 v]> (BitWriter.buffer w))
                 (BitWriter.bit_offset w)
  else w.

Definition Clear (e : t) : t :=
  mk (BitWriter.Clear (bit_writer_ e)) (buffered_values_ e) 0 false 0 0 (-1) [].

(** [RleEncoder(buffer)].  The constructor leaves [buffered_values_]
    uninitialised; a cell is always written by [Put] before [FlushLiteralRun]
    reads it, and the model starts the cells at 0. *)
Definition new (buffer : list Z) : t :=
  Clear (mk (BitWriter.mk buffer 0) (replicate 8 0) 0 false 0 0 0 []).

Definition FlushLiteralRun (update_indicator_byte : bool) (e : t) : t :=
  let e :=
    if literal_indicator_byte_ e <? 0 then
      let '(index, w) := BitWriter.GetByteIndexAndAdvance (bit_writer_ e) in
      set_literal_indicator_byte (wrap_int32 (Z.of_nat index))
        (set_bit_writer w e)
    else e in
  let e :=
    set_bit_writer
      (fold_left
         (fun w i =>
            BitWriter.PutBool
              (Z_to_bool (default 0 (buffered_values_ e !! i))) w)
         (seq 0 (Z.to_nat (num_buffered_values_ e)))
         (bit_writer_ e))
      e in
  let e := set_num_buffered_values 0 e in
  if update_indicator_byte then
    let num_groups := wrap_int32 (BitmapSize (literal_count_ e)) in
    let indicator_value := wrap_uint32 (Z.lor (Z.shiftl num_groups 1) 1) in
    let e :=
      set_bit_writer
        (store_byte (literal_indicator_byte_ e) indicator_value
           (bit_writer_ e))
        e in
    set_literal_count 0
      (set_literal_indicator_byte (-1) (log_indicator_groups num_groups e))
  else e.

Definition FlushRepeatedRun (e : t) : t :=
  let indicator_value := wrap_int32 (Z.lor (Z.shiftl (repeat_count_ e) 1) 0) in
  let w := BitWriter.PutVlqInt indicator_value (bit_writer_ e) in
  let w := BitWriter.PutAligned (bool_to_Z (current_value_ e)) w in
  set_repeat_count 0 (set_num_buffered_values 0 (set_bit_writer w e)).

Definition FlushBufferedValues (done : bool) (e : t) : t :=
  if repeat_count_ e >=? 8 then
    let e := set_num_buffered_values 0 e in
    if negb (literal_count_ e =? 0) then FlushLiteralRun true e else e
  else
    let e :=
      set_literal_count
        (wrap_int32 (literal_count_ e + num_buffered_values_ e)) e in
    let num_groups := wrap_int32 (BitmapSize (literal_count_ e)) in
    let e :=
      if num_groups + 1 >=? 64 then FlushLiteralRun true e
      else FlushLiteralRun done e in
    set_repeat_count 0 e.

(** Lines 310-314 of [Put]: the value goes to the lookahead, which is
    flushed when it is full. *)
Definition Put_buffer (value : bool) (e : t) : t :=
  let e :=
    set_buffered_values
      (<[Z.to_nat (num_buffered_values_ e) := bool_to_Z value]>
         (buffered_values_ e))
      e in
  let e :=
    set_num_buffered_values (wrap_int32 (num_buffered_values_ e + 1)) e in
  if num_buffered_values_ e =? 8 then FlushBufferedValues false e else e.

(** One turn of the loop [while (run_length--)] of [Put]. *)
Definition Put_value (value : bool) (e : t) : t :=
  if Bool.eqb (current_value_ e) value then
    let e := set_repeat_count (wrap_int32 (repeat_count_ e + 1)) e in
    if repeat_count_ e >? 8 then e
    else Put_buffer value e
  else
    let e := if repeat_count_ e >=? 8 then FlushRepeatedRun e else e in
    let e := set_current_value value (set_repeat_count 1 e) in
    Put_buffer value e.

Fixpoint Put_loop (run_length : nat) (value : bool) (e : t) : t :=
  match run_length with
  | O => e
  | S n => Put_loop n value (Put_value value e)
  end.

(** [Put(value, run_length)]; [run_length] is a [size_t]. *)
Definition Put (value : bool) (run_length : Z) (e : t) : t :=
  Put_loop (Z.to_nat run_length) value e.

(** [Flush]: the number of bytes written, the encoder afterwards. *)
Definition Flush (e : t) : Z * t :=
  let e :=
    if (literal_count_ e >? 0) || (repeat_count_ e >? 0)
       || (num_buffered_values_ e >? 0)
    then
      let all_repeat :=
        (literal_count_ e =? 0)
        && ((repeat_count_ e =? num_buffered_values_ e)
            || (num_buffered_values_ e =? 0)) in
      if (repeat_count_ e >? 0) && all_repeat then FlushRepeatedRun e
      else
        let e :=
          set_literal_count
            (wrap_int32 (literal_count_ e + num_buffered_values_ e)) e in
        let e := FlushLiteralRun true e in
        set_repeat_count 0 e
    else e in
  let '(n, w) := BitWriter.Finish (bit_writer_ e) in
  (wrap_int32 (Z.of_nat n), set_bit_writer w e).

End RleEncoder.

(** ** Drivers: sequences of calls *)

(** A schedule of [Put] calls, and the values it presents. *)
Definition schedule := list (bool * Z).

Definition flatten (s : schedule) : list bool :=
  concat (map (fun '(v, n) => repeat v (Z.to_nat n)) s).

Definition PutAll (s : schedule) (e : RleEncoder.t) : RleEncoder.t :=
  fold_left (fun e '(v, n) => RleEncoder.Put v n e) s e.

(** The bytes a fresh encoder holds after the [Put] calls of [s] and a
    [Flush]. *)
Definition encode (s : schedule) : list Z :=
  RleEncoder.buffer (snd (RleEncoder.Flush (PutAll s (RleEncoder.new [])))).

(** The values one at a time, each with its own [Put(value)] call. *)
Definition Put_values (vs : list bool) (e : RleEncoder.t) : RleEncoder.t :=
  fold_left (fun e v => RleEncoder.Put v 1 e) vs e.

Definition encode_values (vs : list bool) : list Z :=
  encode (map (fun v => (v, 1)) vs).

(** Calls on the encoder, and a sequence of them run in order. *)
Inductive encoder_call :=
| CallPut (value : bool) (run_length : Z)
| CallFlush.

Definition run_call (e : RleEncoder.t) (c : encoder_call) : RleEncoder.t :=
  match c with
  | CallPut value run_length => RleEncoder.Put value run_length e
  | CallFlush => snd (RleEncoder.Flush e)
  end.

Definition run_calls (cs : list encoder_call) (e : RleEncoder.t)
  : RleEncoder.t :=
  fold_left run_call cs e.

(** Successive [Get] calls until one returns false: the decoded value
    sequence.  [None] when a call aborts or [fuel] calls did not reach the
    end. *)
Fixpoint GetAll (fuel : nat) (val : bool) (d : RleDecoder.t)
  : option (list bool) :=
  match fuel with
  | O => None
  | S fuel' =>
      match RleDecoder.Get val d with
      | None => None
      | Some (false, _, _) => Some []
      | Some (true, v, d') =>
          match GetAll fuel' v d' with
          | None => None
          | Some vs => Some (v :: vs)
          end
      end
  end.

(** Successive [GetNextRun] calls until one returns false. *)
Fixpoint GetRuns (fuel : nat) (val : bool) (d : RleDecoder.t)
  : option (list (bool * Z)) :=
  match fuel with
  | O => None
  | S fuel' =>
      match RleDecoder.GetNextRun val d with
      | None => None
      | Some (false, _, _, _) => Some []
      | Some (true, v, n, d') =>
          match GetRuns fuel' v d' with
          | None => None
          | Some runs => Some ((v, n) :: runs)
          end
      end
  end.

(** The values a list of runs stands for. *)
Definition expand (runs : list (bool * Z)) : list bool :=
  concat (map (fun '(v, n) => repeat v (Z.to_nat n)) runs).

(** No two neighbours in a list of runs have the same value. *)
Fixpoint alternating (runs : list (bool * Z)) : Prop :=
  match runs with
  | (v1, _) :: (((v2, _) :: _) as rest) => v1 <> v2 /\ alternating rest
  | _ => True
  end.

(** The number of true values. *)
Definition true_bits (vs : list bool) : Z :=
  fold_right (fun b n => bool_to_Z b + n) 0 vs.

(** Calls on the decoder, and what a call reports to its caller: the value
    it returns and, for [Get] and [GetNextRun], what it leaves in [*val] and
    [*run_length].  The count [Skip] returns is left out. *)
Inductive decoder_call :=
| CallGet
| CallGetNextRun
| CallSkip (to_skip : Z).

Inductive decoder_result :=
| GetReturned (result val : bool)
| GetNextRunReturned (result val : bool) (run_length : Z)
| SkipReturned.

(** A sequence of calls run in order on one decoder, every call with the
    same variable [val]. *)
Fixpoint run_decoder_calls
    (cs : list decoder_call) (val : bool) (d : RleDecoder.t)
  : option (list decoder_result * RleDecoder.t) :=
  match cs with
  | [] => Some ([], d)
  | CallGet :: cs' =>
      match RleDecoder.Get val d with
      | None => None
      | Some (result, val', d') =>
          r <- run_decoder_calls cs' val' d' ;;
          Some (GetReturned result val' :: fst r, snd r)
      end
  | CallGetNextRun :: cs' =>
      match RleDecoder.GetNextRun val d with
      | None => None
      | Some (result, val', run_length, d') =>
          r <- run_decoder_calls cs' val' d' ;;
          Some (GetNextRunReturned result val' run_length :: fst r, snd r)
      end
  | CallSkip to_skip :: cs' =>
      match RleDecoder.Skip to_skip d with
      | None => None
      | Some (_, d') =>
          r <- run_decoder_calls cs' val d' ;;
          Some (SkipReturned :: fst r, snd r)
      end
  end.

(** The number of values equal to [v] at the head of [vs]. *)
Fixpoint run_at_head (v : bool) (vs : list bool) : nat :=
  match vs with
  | x :: vs' => if Bool.eqb x v then S (run_at_head v vs') else 0
  | [] => 0
  end.

(** The same calls read as moves of a cursor over the list of the values
    still to come: what each call reports, and the values left.  [None] when
    a [Skip] asks for more values than are left. *)
Fixpoint cursor_calls (cs : list decoder_call) (val : bool) (vs : list bool)
  : option (list decoder_result * list bool) :=
  match cs with
  | [] => Some ([], vs)
  | CallGet :: cs' =>
      match vs with
      | [] =>
          r <- cursor_calls cs' val [] ;;
          Some (GetReturned false val :: fst r, snd r)
      | v :: vs' =>
          r <- cursor_calls cs' v vs' ;;
          Some (GetReturned true v :: fst r, snd r)
      end
  | CallGetNextRun :: cs' =>
      match vs with
      | [] =>
          r <- cursor_calls cs' val [] ;;
          Some (GetNextRunReturned false val 0 :: fst r, snd r)
      | v :: _ =>
          let n := run_at_head v vs in
          r <- cursor_calls cs' v (drop n vs) ;;
          Some (GetNextRunReturned true v (Z.of_nat n) :: fst r, snd r)
      end
  | CallSkip to_skip :: cs' =>
      if (0 <=? to_skip) && (to_skip <=? Z.of_nat (length vs)) then
        r <- cursor_calls cs' val (drop (Z.to_nat to_skip) vs) ;;
        Some (SkipReturned :: fst r, snd r)
      else None
  end.

(** ** RleEncoder with its assertions *)

(** The encoder once more, with every [DCHECK] of the source in its place:
    an operation returns [None] when one of them fails. *)
Module Asserted.

Definition FlushLiteralRun (update_indicator_byte : bool) (e : RleEncoder.t)
  : option RleEncoder.t :=
  e <-
    (if RleEncoder.literal_indicator_byte_ e <? 0 then
       let '(index, w) :=
         BitWriter.GetByteIndexAndAdvance (RleEncoder.bit_writer_ e) in
       let e :=
         RleEncoder.set_literal_indicator_byte (wrap_int32 (Z.of_nat index))
           (RleEncoder.set_bit_writer w e) in
       _ <- DCHECK (RleEncoder.literal_indicator_byte_ e >=? 0) ;;
       Some e
     else Some e) ;;
  let e :=
    RleEncoder.set_bit_writer
      (fold_left
         (fun w i =>
            BitWriter.PutBool
              (Z_to_bool (default 0 (RleEncoder.buffered_values_ e !! i))) w)
         (seq 0 (Z.to_nat (RleEncoder.num_buffered_values_ e)))
         (RleEncoder.bit_writer_ e))
      e in
  let e := RleEncoder.set_num_buffered_values 0 e in
  if update_indicator_byte then
    let num_groups := wrap_int32 (BitmapSize (RleEncoder.literal_count_ e)) in
    _ <- DCHECK (num_groups <? 128) ;;
    let indicator_value := wrap_uint32 (Z.lor (Z.shiftl num_groups 1) 1) in
    _ <- DCHECK (Z.land indicator_value 0xFFFFFF80 =? 0) ;;
    let e :=
      RleEncoder.set_bit_writer
        (RleEncoder.store_byte (RleEncoder.literal_indicator_byte_ e)
           indicator_value (RleEncoder.bit_writer_ e))
        e in
    Some (RleEncoder.set_literal_count 0
            (RleEncoder.set_literal_indicator_byte (-1)
               (RleEncoder.log_indicator_groups num_groups e)))
  else Some e.

Definition FlushRepeatedRun (e : RleEncoder.t) : option RleEncoder.t :=
  _ <- DCHECK (RleEncoder.repeat_count_ e >? 0) ;;
  let indicator_value :=
    wrap_int32 (Z.lor (Z.shiftl (RleEncoder.repeat_count_ e) 1) 0) in
  let w := BitWriter.PutVlqInt indicator_value (RleEncoder.bit_writer_ e) in
  let w := BitWriter.PutAligned (bool_to_Z (RleEncoder.current_value_ e)) w in
  Some (RleEncoder.set_repeat_count 0
          (RleEncoder.set_num_buffered_values 0
             (RleEncoder.set_bit_writer w e))).

Definition FlushBufferedValues (done : bool) (e : RleEncoder.t)
  : option RleEncoder.t :=
  if RleEncoder.repeat_count_ e >=? 8 then
    let e := RleEncoder.set_num_buffered_values 0 e in
    e <-
      (if negb (RleEncoder.literal_count_ e =? 0) then
         _ <- DCHECK (Z.rem (RleEncoder.literal_count_ e) 8 =? 0) ;;
         _ <- DCHECK (RleEncoder.repeat_count_ e =? 8) ;;
         FlushLiteralRun true e
       else Some e) ;;
    _ <- DCHECK (RleEncoder.literal_count_ e =? 0) ;;
    Some e
  else
    let e :=
      RleEncoder.set_literal_count
        (wrap_int32
           (RleEncoder.literal_count_ e + RleEncoder.num_buffered_values_ e))
        e in
    let num_groups := wrap_int32 (BitmapSize (RleEncoder.literal_count_ e)) in
    e <-
      (if num_groups + 1 >=? 64 then
         _ <- DCHECK (RleEncoder.literal_indicator_byte_ e >=? 0) ;;
         FlushLiteralRun true e
       else FlushLiteralRun done e) ;;
    Some (RleEncoder.set_repeat_count 0 e).

(** Lines 310-314 of [Put]. *)
Definition Put_buffer (value : bool) (e : RleEncoder.t)
  : option RleEncoder.t :=
  let e :=
    RleEncoder.set_buffered_values
      (<[Z.to_nat (RleEncoder.num_buffered_values_ e) := bool_to_Z value]>
         (RleEncoder.buffered_values_ e))
      e in
  let e :=
    RleEncoder.set_num_buffered_values
      (wrap_int32 (RleEncoder.num_buffered_values_ e + 1)) e in
  if RleEncoder.num_buffered_values_ e =? 8 then
    _ <- DCHECK (Z.rem (RleEncoder.literal_count_ e) 8 =? 0) ;;
    FlushBufferedValues false e
  else Some e.

(** One turn of the loop of [Put]. *)
Definition Put_value (value : bool) (e : RleEncoder.t)
  : option RleEncoder.t :=
  if Bool.eqb (RleEncoder.current_value_ e) value then
    let e :=
      RleEncoder.set_repeat_count
        (wrap_int32 (RleEncoder.repeat_count_ e + 1)) e in
    if RleEncoder.repeat_count_ e >? 8 then Some e
    else Put_buffer value e
  else
    e <-
      (if RleEncoder.repeat_count_ e >=? 8 then
         _ <- DCHECK (RleEncoder.literal_count_ e =? 0) ;;
         FlushRepeatedRun e
       else Some e) ;;
    let e :=
      RleEncoder.set_current_value value (RleEncoder.set_repeat_count 1 e) in
    Put_buffer value e.

Fixpoint Put_loop (run_length : nat) (value : bool) (e : RleEncoder.t)
  : option RleEncoder.t :=
  match run_length with
  | O => Some e
  | S n => e <- Put_value value e ;; Put_loop n value e
  end.

(** [Put]; its own [DCHECK_LT(value, 1 << 1)] holds of every [bool]. *)
Definition Put (value : bool) (run_length : Z) (e : RleEncoder.t)
  : option RleEncoder.t :=
  _ <- DCHECK (bool_to_Z value <? Z.shiftl 1 1) ;;
  Put_loop (Z.to_nat run_length) value e.

Definition Flush (e : RleEncoder.t) : option (Z * RleEncoder.t) :=
  e <-
    (if (RleEncoder.literal_count_ e >? 0) || (RleEncoder.repeat_count_ e >? 0)
        || (RleEncoder.num_buffered_values_ e >? 0)
     then
       let all_repeat :=
         (RleEncoder.literal_count_ e =? 0)
         && ((RleEncoder.repeat_count_ e =? RleEncoder.num_buffered_values_ e)
             || (RleEncoder.num_buffered_values_ e =? 0)) in
       if (RleEncoder.repeat_count_ e >? 0) && all_repeat
       then FlushRepeatedRun e
       else
         let e :=
           RleEncoder.set_literal_count
             (wrap_int32
                (RleEncoder.literal_count_ e
                 + RleEncoder.num_buffered_values_ e)) e in
         e <- FlushLiteralRun true e ;;
         Some (RleEncoder.set_repeat_count 0 e)
     else Some e) ;;
  _ <- DCHECK (RleEncoder.num_buffered_values_ e =? 0) ;;
  _ <- DCHECK (RleEncoder.literal_count_ e =? 0) ;;
  _ <- DCHECK (RleEncoder.repeat_count_ e =? 0) ;;
  let '(n, w) := BitWriter.Finish (RleEncoder.bit_writer_ e) in
  Some (wrap_int32 (Z.of_nat n), RleEncoder.set_bit_writer w e).

(** The [Put] calls of a schedule, in order. *)
Fixpoint PutAll (s : schedule) (e : RleEncoder.t) : option RleEncoder.t :=
  match s with
  | [] => Some e
  | (v, n) :: s' => e <- Put v n e ;; PutAll s' e
  end.

End Asserted.

(** ** Decoder predicates *)

(** The decoder invariant of the spec: the two counts are never positive
    together. *)
Definition decoder_invariant (d : RleDecoder.t) : Prop :=
  (RleDecoder.repeat_count_ d > 0 /\ RleDecoder.literal_count_ d = 0)
  \/ (RleDecoder.literal_count_ d > 0 /\ RleDecoder.repeat_count_ d = 0)
  \/ (RleDecoder.repeat_count_ d = 0 /\ RleDecoder.literal_count_ d = 0).

(** The input is exhausted: no run is pending and no indicator can be read
    from what is left of the buffer. *)
Definition exhausted (d : RleDecoder.t) : Prop :=
  RleDecoder.repeat_count_ d = 0
  /\ RleDecoder.literal_count_ d = 0
  /\ BitReader.GetVlqInt (RleDecoder.bit_reader_ d) = None.

(** * Predicates and functions of the proofs *)

(** ** Encoder bounds *)

(** The range the spec gives for the group count of a literal indicator. *)
Definition groups_in_range (g : Z) : Prop := 1 <= g < 128.

(** Between calls the lookahead is not full, an open literal run has at most
    62 groups, and every indicator written so far is in range. *)
Definition encoder_bounds (e : RleEncoder.t) : Prop :=
  0 <= RleEncoder.num_buffered_values_ e < 8
  /\ 0 <= RleEncoder.literal_count_ e <= 496
  /\ Forall groups_in_range (RleEncoder.indicator_groups_ e).

(** The encoder after the first eight copies of [v]: the lookahead has been
    discarded in favour of a repeated run, and nothing is written yet. *)
Definition run_of_eight (v : bool) : RleEncoder.t :=
  RleEncoder.mk (BitWriter.mk [] 0) (replicate 8 (bool_to_Z v)) 0 v 8 0 (-1) [].

(** ** Decoder states *)

(** The bit cursor is inside its byte. *)
Definition reader_ok (r : BitReader.t) : Prop :=
  (BitReader.bit_offset r < 8)%nat.

(** Bytes from the next byte boundary to the end of the buffer. *)
Definition bytes_left (r : BitReader.t) : nat :=
  (length (BitReader.buffer r) - BitReader.aligned_offset r)%nat.

(** The fields hold what their C++ types can hold, the cursor is inside a
    byte, and the counts are not positive together. *)
Definition decoder_wf (d : RleDecoder.t) : Prop :=
  reader_ok (RleDecoder.bit_reader_ d)
  /\ 0 <= RleDecoder.repeat_count_ d < 2 ^ 32
  /\ 0 <= RleDecoder.literal_count_ d < 2 ^ 32
  /\ (RleDecoder.repeat_count_ d = 0 \/ RleDecoder.literal_count_ d = 0).

(** A run is pending: [ReadHeader] has nothing to read. *)
Definition pending (d : RleDecoder.t) : bool :=
  negb ((RleDecoder.literal_count_ d =? 0) && (RleDecoder.repeat_count_ d =? 0)).

(** The bound on the turns of the outer loop of [GetNextRun]. *)
Definition turns_left (d : RleDecoder.t) : nat :=
  (bytes_left (RleDecoder.bit_reader_ d) + (if pending d then 1 else 0))%nat.

(** [Decodes d vs]: successive [Get] calls from [d] return the values [vs]
    and then false. *)
Inductive Decodes : RleDecoder.t -> list bool -> Prop :=
| Decodes_end (d d' : RleDecoder.t) (val val' : bool) :
    RleDecoder.Get val d = Some (false, val', d') -> Decodes d []
| Decodes_value (d d' : RleDecoder.t) (val v : bool) (vs : list bool) :
    RleDecoder.Get val d = Some (true, v, d') ->
    Decodes d' vs ->
    Decodes d (v :: vs).

(** Two decoders that differ at most in a [current_value_] that no run is
    using. *)
Definition same_run (d1 d2 : RleDecoder.t) : Prop :=
  RleDecoder.bit_reader_ d1 = RleDecoder.bit_reader_ d2
  /\ RleDecoder.repeat_count_ d1 = RleDecoder.repeat_count_ d2
  /\ RleDecoder.literal_count_ d1 = RleDecoder.literal_count_ d2
  /\ (RleDecoder.repeat_count_ d1 = 0
      \/ RleDecoder.current_value_ d1 = RleDecoder.current_value_ d2).

(** Values pending in the current run, and a full 32-bit count for every
    byte not yet read. *)
Definition values_bound (d : RleDecoder.t) : Z :=
  RleDecoder.repeat_count_ d + RleDecoder.literal_count_ d
  + 2 ^ 32 * Z.of_nat (bytes_left (RleDecoder.bit_reader_ d)).

(** ** The wire format *)

(** The eight values a literal byte carries, bit 0 first. *)
Definition byte_bits (byte : Z) : list bool :=
  map (fun i => Z.testbit byte (Z.of_nat i)) (seq 0 8).

(** The values a sequence of literal bytes carries. *)
Definition bytes_bits (bytes : list Z) : list bool :=
  concat (map byte_bits bytes).

(** The VLQ form of [v], as [PutVlqInt] writes it. *)
Definition vlq_bytes (v : Z) : list Z :=
  BitWriter.buffer (BitWriter.PutVlqInt v (BitWriter.mk [] 0)).

(** [Stream bytes vs]: [bytes] is a sequence of runs of the wire format of
    the spec, section 6, and [vs] are the values the runs carry. *)
Inductive Stream : list Z -> list bool -> Prop :=
| Stream_end : Stream [] []
| Stream_repeated (n : Z) (v : bool) (bytes : list Z) (vs : list bool) :
    0 < n < 2 ^ 30 ->
    Stream bytes vs ->
    Stream (vlq_bytes (2 * n) ++ bool_to_Z v :: bytes)
           (repeat v (Z.to_nat n) ++ vs)
| Stream_literal (lits bytes : list Z) (vs : list bool) :
    (1 <= length lits <= 63)%nat ->
    Stream bytes vs ->
    Stream ((2 * Z.of_nat (length lits) + 1) :: lits ++ bytes)
           (bytes_bits lits ++ vs).

(** The reader one bit after bit [i] of byte [p]. *)
Definition next_bit (buffer : list Z) (p i : nat) : BitReader.t :=
  if (i =? 7)%nat then BitReader.mk buffer (S p) 0
  else BitReader.mk buffer p (S i).

(** What the loop of [PutVlqInt] writes with [more] turns left. *)
Definition vlq_loop_bytes (more : nat) (v : Z) : list Z :=
  BitWriter.buffer (BitWriter.PutVlqInt_loop more v (BitWriter.mk [] 0)).

(** ** Encoder states *)

(** The lookahead as the values it holds. *)
Definition lookahead (e : RleEncoder.t) : list bool :=
  map (fun i => Z_to_bool (default 0 (RleEncoder.buffered_values_ e !! i)))
      (seq 0 (Z.to_nat (RleEncoder.num_buffered_values_ e))).

(** The byte [PutBool] builds from bits written from bit [i] on. *)
Fixpoint pack_from (i : nat) (byte : Z) (bs : list bool) : Z :=
  match bs with
  | [] => byte
  | b :: bs' =>
      pack_from (S i) (Z.lor byte (Z.shiftl (bool_to_Z b) (Z.of_nat i))) bs'
  end.

(** The byte that carries the values [bs], the first one in bit 0. *)
Definition pack (bs : list bool) : Z :=
  match bs with
  | [] => 0
  | b :: bs' => pack_from 1 (bool_to_Z b) bs'
  end.

(** [PutBool] for each of [bs] in turn. *)
Definition PutBools (bs : list bool) (w : BitWriter.t) : BitWriter.t :=
  fold_left (fun w b => BitWriter.PutBool b w) bs w.

(** The bytes of an open literal run: the reserved indicator, then the
    groups written so far. *)
Definition open_run (indicator : Z) (lits : list Z) : list Z :=
  if indicator <? 0 then [] else 0 :: lits.

(** The values pending in the encoder: a repeated run being counted, or the
    lookahead. *)
Definition pending_values (e : RleEncoder.t) : list bool :=
  if 8 <=? RleEncoder.repeat_count_ e
  then repeat (RleEncoder.current_value_ e)
              (Z.to_nat (RleEncoder.repeat_count_ e))
  else lookahead e.

(** The output so far is a stream of closed runs, followed, when a literal
    run is open, by its reserved indicator and its groups. *)
Definition encoder_output
    (e : RleEncoder.t) (closed : list Z) (closed_vs : list bool)
    (lits : list Z) : Prop :=
  Stream closed closed_vs
  /\ 4 * Z.of_nat (length closed) <= Z.of_nat (length closed_vs)
  /\ RleEncoder.bit_writer_ e
     = BitWriter.mk
         (closed ++ open_run (RleEncoder.literal_indicator_byte_ e) lits) 0
  /\ length (RleEncoder.buffered_values_ e) = 8%nat
  /\ (RleEncoder.literal_indicator_byte_ e < 0 <-> lits = [])
  /\ (0 <= RleEncoder.literal_indicator_byte_ e ->
      RleEncoder.literal_indicator_byte_ e = Z.of_nat (length closed))
  /\ RleEncoder.literal_count_ e = 8 * Z.of_nat (length lits)
  /\ (length lits <= 62)%nat.

(** [encoder_inv e vs]: the encoder [e] has been given the values [vs]. *)
Definition encoder_inv (e : RleEncoder.t) (vs : list bool) : Prop :=
  exists (closed : list Z) (closed_vs : list bool) (lits : list Z),
    encoder_output e closed closed_vs lits
    /\ 0 <= RleEncoder.num_buffered_values_ e < 8
    /\ 0 <= RleEncoder.repeat_count_ e
    /\ (8 <= RleEncoder.repeat_count_ e ->
        RleEncoder.num_buffered_values_ e = 0 /\ lits = [])
    /\ (RleEncoder.repeat_count_ e < 8 ->
        exists pre,
          lookahead e
          = pre ++ repeat (RleEncoder.current_value_ e)
                          (Z.to_nat (RleEncoder.repeat_count_ e)))
    /\ vs = closed_vs ++ bytes_bits lits ++ pending_values e.

(** ** Exact outputs *)

(** The bytes of one repeated run, as the header comment gives them: the
    indicator, then the value padded to a byte. *)
Definition repeated_run_bytes (run : bool * Z) : list Z :=
  vlq_bytes (2 * snd run) ++ [bool_to_Z (fst run)].

(** Runs of alternating values, every one but the last of 8 values or more. *)
Fixpoint long_runs (runs : list (bool * Z)) : Prop :=
  match runs with
  | [] => True
  | (v, n) :: rest =>
      match rest with
      | [] => 1 <= n < 2 ^ 30
      | (v', _) :: _ => 8 <= n < 2 ^ 30 /\ v <> v' /\ long_runs rest
      end
  end.

(** An encoder with nothing pending and no literal run open, over the bytes
    [w]. *)
Definition idle_encoder
    (w : list Z) (cells : list Z) (cv : bool) (groups : list Z)
  : RleEncoder.t :=
  RleEncoder.mk (BitWriter.mk w 0) cells 0 cv 0 0 (-1) groups.

(** A group of values that holds both values. *)
Definition mixed (group : list bool) : Prop :=
  In true group /\ In false group.

(** Groups of 8 values, the last one of up to 8, each holding both values. *)
Fixpoint literal_groups (groups : list (list bool)) : Prop :=
  match groups with
  | [] => True
  | group :: rest =>
      mixed group
      /\ match rest with
         | [] => (length group <= 8)%nat
         | _ :: _ => length group = 8%nat
         end
      /\ literal_groups rest
  end.

(** The output so far is one open literal run with the groups [lits] (or
    nothing yet), and the lookahead holds the values [bs]. *)
Definition literal_open
    (e : RleEncoder.t) (lits : list Z) (bs : list bool) : Prop :=
  RleEncoder.bit_writer_ e
  = BitWriter.mk ([] ++ open_run (RleEncoder.literal_indicator_byte_ e) lits) 0
  /\ length (RleEncoder.buffered_values_ e) = 8%nat
  /\ (RleEncoder.literal_indicator_byte_ e < 0 <-> lits = [])
  /\ (0 <= RleEncoder.literal_indicator_byte_ e ->
      RleEncoder.literal_indicator_byte_ e = 0)
  /\ RleEncoder.literal_count_ e = 8 * Z.of_nat (length lits)
  /\ (length lits <= 62)%nat
  /\ RleEncoder.num_buffered_values_ e = Z.of_nat (length bs)
  /\ lookahead e = bs
  /\ (length bs <= 8)%nat.

(** The same between two calls of [Put]: the lookahead is not full and
    [repeat_count_] counts the equal values at its end. *)
Definition collecting
    (e : RleEncoder.t) (lits : list Z) (bs : list bool) : Prop :=
  literal_open e lits bs
  /\ (length bs < 8)%nat
  /\ 0 <= RleEncoder.repeat_count_ e <= Z.of_nat (length bs)
  /\ (RleEncoder.repeat_count_ e = Z.of_nat (length bs) ->
      bs = repeat (RleEncoder.current_value_ e) (length bs)).

(** ** Encoders that produce the same output *)

(** Two encoders that differ at most in the cells of the lookahead that
    hold no value; [num_buffered_values_] is an [int]. *)
Definition same_but_cells (e1 e2 : RleEncoder.t) : Prop :=
  RleEncoder.bit_writer_ e1 = RleEncoder.bit_writer_ e2
  /\ RleEncoder.num_buffered_values_ e1 = RleEncoder.num_buffered_values_ e2
  /\ RleEncoder.current_value_ e1 = RleEncoder.current_value_ e2
  /\ RleEncoder.repeat_count_ e1 = RleEncoder.repeat_count_ e2
  /\ RleEncoder.literal_count_ e1 = RleEncoder.literal_count_ e2
  /\ RleEncoder.literal_indicator_byte_ e1
     = RleEncoder.literal_indicator_byte_ e2
  /\ RleEncoder.indicator_groups_ e1 = RleEncoder.indicator_groups_ e2
  /\ length (RleEncoder.buffered_values_ e1)
     = length (RleEncoder.buffered_values_ e2)
  /\ - 2 ^ 31 <= RleEncoder.num_buffered_values_ e1 < 2 ^ 31
  /\ forall i : nat,
       (i < Z.to_nat (RleEncoder.num_buffered_values_ e1))%nat ->
       RleEncoder.buffered_values_ e1 !! i
       = RleEncoder.buffered_values_ e2 !! i.

(** The writer [w2] is the writer [w1] with the bytes [p] before its own. *)
Definition writer_after (p : list Z) (w1 w2 : BitWriter.t) : Prop :=
  BitWriter.buffer w2 = p ++ BitWriter.buffer w1
  /\ BitWriter.bit_offset w2 = BitWriter.bit_offset w1
  /\ (BitWriter.bit_offset w1 = 0%nat \/ BitWriter.buffer w1 <> []).

(** The encoder [e2] is the encoder [e1] at work after the bytes [p]: the
    same counts and lookahead, the indicator index moved by the length of
    [p], and the same [current_value_] as soon as a run is being counted. *)
Definition encoder_after (p : list Z) (e1 e2 : RleEncoder.t) : Prop :=
  writer_after p (RleEncoder.bit_writer_ e1) (RleEncoder.bit_writer_ e2)
  /\ RleEncoder.num_buffered_values_ e2 = RleEncoder.num_buffered_values_ e1
  /\ RleEncoder.repeat_count_ e2 = RleEncoder.repeat_count_ e1
  /\ RleEncoder.literal_count_ e2 = RleEncoder.literal_count_ e1
  /\ (RleEncoder.current_value_ e2 = RleEncoder.current_value_ e1
      \/ RleEncoder.repeat_count_ e1 = 0)
  /\ (if RleEncoder.literal_indicator_byte_ e1 <? 0
      then RleEncoder.literal_indicator_byte_ e2 < 0
      else RleEncoder.literal_indicator_byte_ e2
           = RleEncoder.literal_indicator_byte_ e1 + Z.of_nat (length p))
  /\ length (RleEncoder.buffered_values_ e2)
     = length (RleEncoder.buffered_values_ e1)
  /\ - 2 ^ 31 <= RleEncoder.num_buffered_values_ e1 < 2 ^ 31
  /\ forall i : nat,
       (i < Z.to_nat (RleEncoder.num_buffered_values_ e1))%nat ->
       RleEncoder.buffered_values_ e2 !! i
       = RleEncoder.buffered_values_ e1 !! i.

(** * Properties *)

(** ** The encoder: frame and schedule *)

(** C10.  [Put(v, 0)] is a no-op: the encoder, with every field and the
    underlying buffer, is what it was. *)
Theorem Put_zero_run_length (e : RleEncoder.t) (v : bool) :
  RleEncoder.Put v 0 e = e
  /\ RleEncoder.buffer (RleEncoder.Put v 0 e) = RleEncoder.buffer e
  /\ RleEncoder.len (RleEncoder.Put v 0 e) = RleEncoder.len e.
Proof.
  assert (H : RleEncoder.Put v 0 e = e).
  { unfold RleEncoder.Put. change (Z.to_nat 0) with 0%nat. reflexivity. }
  rewrite H. auto.
Qed.

Lemma Put_one (v : bool) (e : RleEncoder.t) :
  RleEncoder.Put v 1 e = RleEncoder.Put_value v e.
Proof. reflexivity. Qed.

Lemma Put_loop_app (a b : nat) (v : bool) (e : RleEncoder.t) :
  RleEncoder.Put_loop (a + b) v e
  = RleEncoder.Put_loop b v (RleEncoder.Put_loop a v e).
Proof.
  revert e. induction a as [|a IH]; intros e; simpl; [reflexivity|].
  apply IH.
Qed.

Lemma Put_values_app (vs ws : list bool) (e : RleEncoder.t) :
  Put_values (vs ++ ws) e = Put_values ws (Put_values vs e).
Proof. unfold Put_values. apply fold_left_app. Qed.

Lemma Put_values_repeat (n : nat) (v : bool) (e : RleEncoder.t) :
  Put_values (repeat v n) e = RleEncoder.Put_loop n v e.
Proof.
  revert e. induction n as [|n IH]; intros e; [reflexivity|].
  simpl. rewrite <- IH. reflexivity.
Qed.

Lemma PutAll_flatten (s : schedule) (e : RleEncoder.t) :
  PutAll s e = Put_values (flatten s) e.
Proof.
  revert e. induction s as [|[v n] s IH]; intros e; [reflexivity|].
  unfold flatten. simpl. fold (flatten s).
  rewrite Put_values_app, Put_values_repeat.
  apply IH.
Qed.

(** C6.  [n] calls [Put(v)] leave the encoder, and with it the output, as one
    call [Put(v, n)] does; and what a schedule of [Put] calls leaves depends
    on the values it presents only: it is what presenting them one call at a
    time leaves. *)
Theorem Put_schedule_invariance :
  (forall (v : bool) (n : Z) (e : RleEncoder.t),
      Nat.iter (Z.to_nat n) (RleEncoder.Put v 1) e = RleEncoder.Put v n e)
  /\ (forall (s : schedule) (e : RleEncoder.t),
        PutAll s e = Put_values (flatten s) e
        /\ RleEncoder.Flush (PutAll s e)
           = RleEncoder.Flush (Put_values (flatten s) e)).
Proof.
  split.
  - intros v n e. unfold RleEncoder.Put at 2.
    generalize (Z.to_nat n) as k. intros k. revert e.
    induction k as [|k IH]; intros e; [reflexivity|].
    rewrite Nat.iter_succ_r. rewrite IH. reflexivity.
  - intros s e. rewrite PutAll_flatten. split; reflexivity.
Qed.

(** ** Concrete scenarios *)

(** C3, as the spec words it, fails: the bytes are not [03 F0 08 01]. *)
Lemma spec_bytes_03_F0_08_01_refuted :
  encode_values (repeat false 4 ++ repeat true 12) <> [0x03; 0xF0; 0x08; 0x01].
Proof. vm_compute. discriminate. Qed.

(** C3, amended.  Four zeros and twelve ones encode to [03 F0 10 01]: one
    literal group of 8 (the zeros, then four ones) and a repeated run of the
    eight ones left; [GetNextRun] on these bytes gives (0,4), then (1,12),
    then reports the end. *)
Theorem encode_4_zeros_12_ones :
  encode_values (repeat false 4 ++ repeat true 12) = [0x03; 0xF0; 0x10; 0x01]
  /\ GetRuns 3 false
       (RleDecoder.new (encode_values (repeat false 4 ++ repeat true 12)))
     = Some [(false, 4); (true, 12)].
Proof. split; vm_compute; reflexivity. Qed.

(** C1 at a failing input.  Eight ones and eight zeros encode to
    [10 01 10 00] and [Get] decodes them back, but [Skip(16)], which consumes
    the sixteen values (the next [Get] returns false), reports 0 set bits
    where the sequence has 8: the repeated-run branch of [Skip] assigns
    [set_count] where the literal branch adds to it. *)
Theorem roundtrip_true_bits_lost :
  let S := repeat true 8 ++ repeat false 8 in
  encode [(true, 8); (false, 8)] = [0x10; 0x01; 0x10; 0x00]
  /\ flatten [(true, 8); (false, 8)] = S
  /\ GetAll 17 false (RleDecoder.new (encode [(true, 8); (false, 8)])) = Some S
  /\ match
       RleDecoder.Skip 16 (RleDecoder.new (encode [(true, 8); (false, 8)]))
     with
     | Some (set_count, d) =>
         set_count = 0 /\ RleDecoder.Get false d = Some (false, false, d)
     | None => False
     end
  /\ true_bits S = 8.
Proof.
  cbv zeta.
  split; [vm_compute; reflexivity|].
  split; [vm_compute; reflexivity|].
  split; [vm_compute; reflexivity|].
  split; [|vm_compute; reflexivity].
  vm_compute. split; reflexivity.
Qed.

(** C2 at a failing input.  On the stream of 8 ones, 8 zeros, 8 ones,
    [Skip(12)] from the start advances over 12 values (the next [Get]
    returns the 13th, a zero, and what is left decodes to the values from
    the 13th on) but reports 0 set bits where the 12 values skipped
    have 8. *)
Theorem Skip_forgets_earlier_runs :
  let bytes := [0x10; 0x01; 0x10; 0x00; 0x10; 0x01] in
  let vs := repeat true 8 ++ repeat false 8 ++ repeat true 8 in
  GetAll 25 false (RleDecoder.new bytes) = Some vs
  /\ match RleDecoder.Skip 12 (RleDecoder.new bytes) with
     | Some (set_count, d) =>
         set_count = 0
         /\ option_map (fun r => (fst (fst r), snd (fst r)))
              (RleDecoder.Get true d)
            = Some (true, false)
         /\ GetAll 25 false d = Some (drop 12 vs)
     | None => False
     end
  /\ nth 12 vs true = false
  /\ true_bits (take 12 vs) = 8.
Proof.
  cbv zeta.
  split; [vm_compute; reflexivity|].
  split; [|split; vm_compute; reflexivity].
  vm_compute. split; [reflexivity|]. split; reflexivity.
Qed.

(** ** Machine integer facts *)

Lemma wrap_uint32_range (x : Z) : 0 <= wrap_uint32 x < 2 ^ 32.
Proof. unfold wrap_uint32. apply Z.mod_pos_bound. lia. Qed.

Lemma wrap_uint32_small (x : Z) : 0 <= x < 2 ^ 32 -> wrap_uint32 x = x.
Proof. intros H. unfold wrap_uint32. apply Z.mod_small. exact H. Qed.

Lemma wrap_size_t_small (x : Z) : 0 <= x < 2 ^ 64 -> wrap_size_t x = x.
Proof. intros H. unfold wrap_size_t. apply Z.mod_small. exact H. Qed.

Lemma wrap_int32_small (x : Z) : - 2 ^ 31 <= x < 2 ^ 31 -> wrap_int32 x = x.
Proof.
  intros H. unfold wrap_int32. rewrite Z.mod_small; lia.
Qed.

(** ** The decoder at the end of its input *)

Lemma vlq_decode_nil (shift v : Z) : BitReader.vlq_decode [] shift v = None.
Proof. reflexivity. Qed.

(** A cursor at or past the end of the buffer, with no run pending, is an
    exhausted decoder. *)
Lemma at_end_exhausted (d : RleDecoder.t) :
  RleDecoder.repeat_count_ d = 0 ->
  RleDecoder.literal_count_ d = 0 ->
  (length (BitReader.buffer (RleDecoder.bit_reader_ d))
   <= BitReader.aligned_offset (RleDecoder.bit_reader_ d))%nat ->
  exhausted d.
Proof.
  intros Hr Hl Hlen. repeat split; try assumption.
  unfold BitReader.GetVlqInt. rewrite drop_ge by exact Hlen. reflexivity.
Qed.

Lemma ReadHeader_exhausted (d : RleDecoder.t) :
  exhausted d -> RleDecoder.ReadHeader d = Some (false, d).
Proof.
  intros (Hr & Hl & Hv). unfold RleDecoder.ReadHeader.
  rewrite Hr, Hl, Hv. reflexivity.
Qed.

(** C8.  On an exhausted decoder [ReadHeader] returns false and leaves the
    decoder as it is, [Get] returns false and leaves [*val] as it is, and
    [GetNextRun] returns false with [*run_length] set to zero. *)
Theorem exhausted_calls_return_false (d : RleDecoder.t) (val : bool) :
  exhausted d ->
  RleDecoder.ReadHeader d = Some (false, d)
  /\ RleDecoder.Get val d = Some (false, val, d)
  /\ RleDecoder.GetNextRun val d = Some (false, val, 0, d).
Proof.
  intros H. pose proof (ReadHeader_exhausted d H) as HR.
  split; [exact HR|]. split.
  - unfold RleDecoder.Get. rewrite HR. reflexivity.
  - unfold RleDecoder.GetNextRun. simpl. rewrite HR. reflexivity.
Qed.

Lemma exhausted_calls_return_false_witness :
  exhausted (RleDecoder.new [])
  /\ RleDecoder.Get true (RleDecoder.new [])
     = Some (false, true, RleDecoder.new []).
Proof.
  assert (H : exhausted (RleDecoder.new [])).
  { apply at_end_exhausted; simpl; [reflexivity | reflexivity | lia]. }
  split; [exact H|].
  exact (proj1 (proj2 (exhausted_calls_return_false (RleDecoder.new []) true H))).
Defined.

(** ** The decoder invariant *)

Lemma decoder_invariant_iff (d : RleDecoder.t) :
  decoder_invariant d
  <-> 0 <= RleDecoder.repeat_count_ d
      /\ 0 <= RleDecoder.literal_count_ d
      /\ (RleDecoder.repeat_count_ d = 0 \/ RleDecoder.literal_count_ d = 0).
Proof. unfold decoder_invariant. lia. Qed.

Ltac break_match_in H :=
  match type of H with
  | context [match ?x with _ => _ end] => destruct x eqn:?
  end.

Ltac break_all H :=
  repeat (break_match_in H; try discriminate H).

Ltac Z_bools :=
  repeat match goal with
  | H : (_ >? _) = true |- _ => apply Z.gtb_lt in H
  | H : (_ >? _) = false |- _ => rewrite Z.gtb_ltb in H; apply Z.ltb_ge in H
  | H : (_ <? _) = true |- _ => apply Z.ltb_lt in H
  | H : (_ <? _) = false |- _ => apply Z.ltb_ge in H
  | H : (_ =? _) = true |- _ => apply Z.eqb_eq in H
  | H : (_ =? _) = false |- _ => apply Z.eqb_neq in H
  | H : (_ >=? _) = true |- _ => rewrite Z.geb_leb in H; apply Z.leb_le in H
  | H : (_ >=? _) = false |- _ => rewrite Z.geb_leb in H; apply Z.leb_gt in H
  | H : (_ && _) = true |- _ => apply andb_prop in H; destruct H
  | H : (_ && _) = false |- _ => apply andb_false_iff in H
  | H : (_ || _) = true |- _ => apply orb_prop in H
  | H : (_ || _) = false |- _ => apply orb_false_elim in H; destruct H
  | H : DCHECK _ = Some _ |- _ => unfold DCHECK in H
  | H : DCHECK _ = None |- _ => unfold DCHECK in H
  end.

Lemma ReadHeader_invariant (d d' : RleDecoder.t) (b : bool) :
  decoder_invariant d ->
  RleDecoder.ReadHeader d = Some (b, d') ->
  decoder_invariant d'.
Proof.
  rewrite !decoder_invariant_iff. intros Hinv H.
  unfold RleDecoder.ReadHeader in H.
  break_all H; inversion H; subst; clear H; simpl in *; Z_bools;
    try assumption;
    match goal with
    | |- context [wrap_uint32 ?x] => pose proof (wrap_uint32_range x)
    end; lia.
Qed.

Lemma Get_invariant (d d' : RleDecoder.t) (val val' b : bool) :
  decoder_invariant d ->
  RleDecoder.Get val d = Some (b, val', d') ->
  decoder_invariant d'.
Proof.
  intros Hinv H. unfold RleDecoder.Get in H.
  destruct (RleDecoder.ReadHeader d) as [[[] d1]|] eqn:HR; try discriminate H.
  - apply ReadHeader_invariant in HR; [|exact Hinv].
    rewrite decoder_invariant_iff in *.
    break_all H; inversion H; subst; clear H; simpl in *; Z_bools;
      match goal with
      | |- context [wrap_uint32 ?x] => pose proof (wrap_uint32_range x)
      end; lia.
  - apply ReadHeader_invariant in HR; [|exact Hinv].
    inversion H; subst. exact HR.
Qed.

Ltac wrap_ranges :=
  repeat match goal with
  | |- context [wrap_uint32 ?x] =>
      lazymatch goal with
      | _ : 0 <= wrap_uint32 x < 2 ^ 32 |- _ => fail
      | _ => pose proof (wrap_uint32_range x)
      end
  end.

Lemma GetNextRun_literals_invariant (n : nat) :
  forall (val : bool) (rl rl' : Z) (d d' : RleDecoder.t) (b : bool),
    decoder_invariant d ->
    RleDecoder.GetNextRun_literals n val rl d = Some (b, rl', d') ->
    decoder_invariant d'.
Proof.
  induction n as [|n IH]; intros val rl rl' d d' b Hinv H; simpl in H.
  - break_all H. inversion H; subst. exact Hinv.
  - destruct (RleDecoder.literal_count_ d >? 0) eqn:Hl;
      [|inversion H; subst; exact Hinv].
    destruct (BitReader.GetBool (RleDecoder.bit_reader_ d)) as [[bit r]|];
      [|discriminate H].
    simpl in H.
    destruct (negb (Bool.eqb bit val)).
    + inversion H; subst. rewrite decoder_invariant_iff in *. simpl. exact Hinv.
    + apply IH in H; [exact H|].
      rewrite decoder_invariant_iff in *. simpl. Z_bools. wrap_ranges. lia.
Qed.

Lemma GetNextRun_loop_invariant (fuel : nat) :
  forall (val val' : bool) (rl rl' : Z) (d d' : RleDecoder.t) (b : bool),
    decoder_invariant d ->
    RleDecoder.GetNextRun_loop fuel val rl d = Some (b, val', rl', d') ->
    decoder_invariant d'.
Proof.
  induction fuel as [|fuel IH]; intros val val' rl rl' d d' b Hinv H;
    simpl in H; [discriminate H|].
  destruct (RleDecoder.ReadHeader d) as [[[] d1]|] eqn:HR; try discriminate H.
  2:{ inversion H; subst. eapply ReadHeader_invariant; eassumption. }
  apply ReadHeader_invariant in HR; [|exact Hinv].
  destruct (RleDecoder.repeat_count_ d1 >? 0) eqn:Hrc.
  - destruct ((rl >? 0) && negb (Bool.eqb val (RleDecoder.current_value_ d1))).
    + inversion H; subst. exact HR.
    + apply IH in H; [exact H|].
      rewrite decoder_invariant_iff in *. simpl. lia.
  - destruct (DCHECK (RleDecoder.literal_count_ d1 >? 0)) eqn:Hd;
      [|discriminate H].
    match type of H with
    | match ?first with _ => _ end = _ =>
        destruct first as [[[v1 rl1] d2]|] eqn:Hfirst; [|discriminate H]
    end.
    assert (Hinv2 : decoder_invariant d2).
    { destruct (rl =? 0).
      - destruct (BitReader.GetBool (RleDecoder.bit_reader_ d1)) as [[bit r]|];
          [|discriminate Hfirst].
        inversion Hfirst; subst.
        rewrite decoder_invariant_iff in *. simpl. Z_bools. wrap_ranges. lia.
      - inversion Hfirst; subst. exact HR. }
    destruct (RleDecoder.GetNextRun_literals
                (Z.to_nat (RleDecoder.literal_count_ d2)) v1 rl1 d2)
      as [[[[] rl2] d3]|] eqn:Hlit; try discriminate H.
    + inversion H; subst.
      eapply GetNextRun_literals_invariant; eassumption.
    + apply IH in H; [exact H|].
      eapply GetNextRun_literals_invariant; eassumption.
Qed.

Lemma Skip_bits_counts (n : nat) :
  forall (c c' : Z) (d d' : RleDecoder.t),
    RleDecoder.Skip_bits n c d = Some (c', d') ->
    RleDecoder.repeat_count_ d' = RleDecoder.repeat_count_ d
    /\ RleDecoder.literal_count_ d' = RleDecoder.literal_count_ d
    /\ RleDecoder.current_value_ d' = RleDecoder.current_value_ d.
Proof.
  induction n as [|n IH]; intros c c' d d' H; simpl in H.
  - inversion H; subst. auto.
  - destruct (BitReader.GetBool (RleDecoder.bit_reader_ d)) as [[bit r]|];
      [|discriminate H].
    apply IH in H. simpl in H. exact H.
Qed.

Lemma Skip_loop_invariant (fuel : nat) :
  forall (k c c' : Z) (d d' : RleDecoder.t),
    decoder_invariant d ->
    RleDecoder.Skip_loop fuel k c d = Some (c', d') ->
    decoder_invariant d'.
Proof.
  induction fuel as [|fuel IH]; intros k c c' d d' Hinv H; simpl in H.
  - destruct (k >? 0); [discriminate H|]. inversion H; subst. exact Hinv.
  - destruct (k >? 0); [|inversion H; subst; exact Hinv].
    destruct (RleDecoder.ReadHeader d) as [[res d1]|] eqn:HR;
      [|discriminate H].
    apply ReadHeader_invariant in HR; [|exact Hinv].
    destruct (DCHECK res); [|discriminate H].
    destruct (RleDecoder.repeat_count_ d1 >? 0) eqn:Hrc.
    + apply IH in H; [exact H|].
      rewrite decoder_invariant_iff in *. simpl. Z_bools. wrap_ranges. lia.
    + destruct (DCHECK (RleDecoder.literal_count_ d1 >? 0)); [|discriminate H].
      match type of H with
      | match ?sb with _ => _ end = _ =>
          destruct sb as [[c1 d2]|] eqn:Hsb; [|discriminate H]
      end.
      apply IH in H; [exact H|].
      apply Skip_bits_counts in Hsb. simpl in Hsb.
      destruct Hsb as (Hr & Hl & _).
      rewrite decoder_invariant_iff in *. rewrite Hr, Hl.
      Z_bools. wrap_ranges. lia.
Qed.

(** C9.  The two counts of the decoder are never positive together: this
    holds of a new decoder, and every call of [Get], [GetNextRun] and [Skip]
    that returns (the input did not make it abort) keeps it. *)
Theorem decoder_invariant_preserved :
  (forall bytes : list Z, decoder_invariant (RleDecoder.new bytes))
  /\ (forall d : RleDecoder.t,
        decoder_invariant d ->
        (forall (val val' b : bool) (d' : RleDecoder.t),
            RleDecoder.Get val d = Some (b, val', d') ->
            decoder_invariant d')
        /\ (forall (val val' b : bool) (n : Z) (d' : RleDecoder.t),
              RleDecoder.GetNextRun val d = Some (b, val', n, d') ->
              decoder_invariant d')
        /\ (forall (k c : Z) (d' : RleDecoder.t),
              RleDecoder.Skip k d = Some (c, d') ->
              decoder_invariant d')).
Proof.
  split.
  - intros bytes. right. right. split; reflexivity.
  - intros d Hinv. repeat split.
    + intros val val' b d'. apply Get_invariant. exact Hinv.
    + intros val val' b n d' H. unfold RleDecoder.GetNextRun in H.
      eapply GetNextRun_loop_invariant; eassumption.
    + intros k c d' H. unfold RleDecoder.Skip in H.
      eapply Skip_loop_invariant; eassumption.
Qed.

Lemma decoder_invariant_preserved_witness :
  decoder_invariant (RleDecoder.new [0x03; 0xF0; 0x10; 0x01])
  /\ decoder_invariant
       (RleDecoder.mk (BitReader.mk [0x03; 0xF0; 0x10; 0x01] 3 1) true 5 0).
Proof.
  pose proof decoder_invariant_preserved as [Hnew Hstep].
  split; [apply Hnew|].
  destruct (Hstep (RleDecoder.new [0x03; 0xF0; 0x10; 0x01]) (Hnew _))
    as (_ & _ & HSkip).
  apply (HSkip 11 3). vm_compute. reflexivity.
Defined.

(** ** The encoder: what each flush does to the fields *)

Ltac Zify.zify_post_hook ::= Z.to_euclidean_division_equations.

Lemma FlushLiteralRun_fields (u : bool) (e : RleEncoder.t) :
  let e' := RleEncoder.FlushLiteralRun u e in
  RleEncoder.num_buffered_values_ e' = 0
  /\ RleEncoder.repeat_count_ e' = RleEncoder.repeat_count_ e
  /\ RleEncoder.current_value_ e' = RleEncoder.current_value_ e
  /\ RleEncoder.literal_count_ e'
     = (if u then 0 else RleEncoder.literal_count_ e)
  /\ RleEncoder.indicator_groups_ e'
     = (if u
        then wrap_int32 (BitmapSize (RleEncoder.literal_count_ e))
             :: RleEncoder.indicator_groups_ e
        else RleEncoder.indicator_groups_ e).
Proof.
  unfold RleEncoder.FlushLiteralRun, BitWriter.GetByteIndexAndAdvance.
  destruct (RleEncoder.literal_indicator_byte_ e <? 0), u; simpl;
    repeat split; reflexivity.
Qed.

Lemma FlushRepeatedRun_fields (e : RleEncoder.t) :
  let e' := RleEncoder.FlushRepeatedRun e in
  RleEncoder.num_buffered_values_ e' = 0
  /\ RleEncoder.repeat_count_ e' = 0
  /\ RleEncoder.current_value_ e' = RleEncoder.current_value_ e
  /\ RleEncoder.literal_count_ e' = RleEncoder.literal_count_ e
  /\ RleEncoder.literal_indicator_byte_ e'
     = RleEncoder.literal_indicator_byte_ e
  /\ RleEncoder.indicator_groups_ e' = RleEncoder.indicator_groups_ e.
Proof. unfold RleEncoder.FlushRepeatedRun. simpl. repeat split; reflexivity. Qed.

(** ** The bound on the literal indicator *)

Ltac enc_fields :=
  cbn [RleEncoder.bit_writer_ RleEncoder.buffered_values_
       RleEncoder.num_buffered_values_ RleEncoder.current_value_
       RleEncoder.repeat_count_ RleEncoder.literal_count_
       RleEncoder.literal_indicator_byte_ RleEncoder.indicator_groups_
       RleEncoder.set_bit_writer RleEncoder.set_buffered_values
       RleEncoder.set_num_buffered_values RleEncoder.set_current_value
       RleEncoder.set_repeat_count RleEncoder.set_literal_count
       RleEncoder.set_literal_indicator_byte RleEncoder.log_indicator_groups
       fst snd] in *.

Lemma BitmapSize_range (n : Z) :
  0 < n <= 504 ->
  1 <= wrap_int32 (BitmapSize n) <= 63
  /\ wrap_int32 (BitmapSize n) = BitmapSize n.
Proof.
  intros H. unfold BitmapSize.
  assert (1 <= (n + 7) / 8 <= 63) by lia.
  rewrite wrap_int32_small by lia. lia.
Qed.

Lemma FlushLiteralRun_true_bounds (e : RleEncoder.t) :
  0 < RleEncoder.literal_count_ e <= 504 ->
  Forall groups_in_range (RleEncoder.indicator_groups_ e) ->
  encoder_bounds (RleEncoder.FlushLiteralRun true e).
Proof.
  intros Hlc Hlog.
  pose proof (FlushLiteralRun_fields true e) as F.
  cbv zeta in F. destruct F as (F1 & _ & _ & F4 & F5).
  unfold encoder_bounds. rewrite F1, F4, F5.
  repeat split; try lia.
  constructor; [|exact Hlog].
  pose proof (BitmapSize_range (RleEncoder.literal_count_ e) Hlc).
  unfold groups_in_range. lia.
Qed.

Lemma FlushBufferedValues_bounds (e : RleEncoder.t) :
  RleEncoder.num_buffered_values_ e = 8 ->
  0 <= RleEncoder.literal_count_ e <= 496 ->
  Forall groups_in_range (RleEncoder.indicator_groups_ e) ->
  encoder_bounds (RleEncoder.FlushBufferedValues false e).
Proof.
  intros Hnb Hlc Hlog. unfold RleEncoder.FlushBufferedValues. cbv zeta.
  destruct (RleEncoder.repeat_count_ e >=? 8).
  - enc_fields.
    destruct (Z.eqb_spec (RleEncoder.literal_count_ e) 0) as [Hz|Hz];
      cbn [negb].
    + unfold encoder_bounds. enc_fields. repeat split; try lia. exact Hlog.
    + apply FlushLiteralRun_true_bounds; enc_fields; [lia | exact Hlog].
  - enc_fields. rewrite Hnb.
    rewrite (wrap_int32_small (RleEncoder.literal_count_ e + 8)) by lia.
    set (e1 := RleEncoder.set_literal_count _ e).
    pose proof (BitmapSize_range (RleEncoder.literal_count_ e + 8)
                  ltac:(lia)) as HB.
    destruct (wrap_int32 (BitmapSize (RleEncoder.literal_count_ e + 8)) + 1
              >=? 64) eqn:Hfull.
    + assert (H1 : encoder_bounds (RleEncoder.FlushLiteralRun true e1)).
      { apply FlushLiteralRun_true_bounds; subst e1; enc_fields;
          [lia | exact Hlog]. }
      destruct H1 as (H1 & H2 & H3).
      unfold encoder_bounds. enc_fields. auto.
    + pose proof (FlushLiteralRun_fields false e1) as F.
      cbv zeta in F. destruct F as (F1 & _ & _ & F4 & F5).
      unfold encoder_bounds. enc_fields. rewrite F1, F4, F5.
      subst e1. enc_fields.
      Z_bools. unfold BitmapSize in *.
      repeat split; try lia. exact Hlog.
Qed.

Lemma Put_buffer_bounds (v : bool) (e : RleEncoder.t) :
  encoder_bounds e -> encoder_bounds (RleEncoder.Put_buffer v e).
Proof.
  intros (Hnb & Hlc & Hlog). unfold RleEncoder.Put_buffer. cbv zeta.
  enc_fields.
  rewrite (wrap_int32_small (RleEncoder.num_buffered_values_ e + 1)) by lia.
  destruct (Z.eqb_spec (RleEncoder.num_buffered_values_ e + 1) 8) as [Heq|Hne].
  - apply FlushBufferedValues_bounds; enc_fields; assumption.
  - unfold encoder_bounds. enc_fields. repeat split; try lia. exact Hlog.
Qed.

Lemma Put_value_bounds (v : bool) (e : RleEncoder.t) :
  encoder_bounds e -> encoder_bounds (RleEncoder.Put_value v e).
Proof.
  intros H. unfold RleEncoder.Put_value. cbv zeta.
  destruct (Bool.eqb (RleEncoder.current_value_ e) v).
  - destruct (RleEncoder.repeat_count_ (RleEncoder.set_repeat_count _ e) >? 8).
    + exact H.
    + apply Put_buffer_bounds. exact H.
  - apply Put_buffer_bounds.
    destruct (RleEncoder.repeat_count_ e >=? 8); [|exact H].
    destruct H as (Hnb & Hlc & Hlog).
    pose proof (FlushRepeatedRun_fields e) as F. cbv zeta in F.
    destruct F as (F1 & _ & _ & F4 & _ & F6).
    unfold encoder_bounds. enc_fields. rewrite F1, F4, F6.
    repeat split; try lia; assumption.
Qed.

Lemma Put_bounds (v : bool) (n : Z) (e : RleEncoder.t) :
  encoder_bounds e -> encoder_bounds (RleEncoder.Put v n e).
Proof.
  unfold RleEncoder.Put. generalize (Z.to_nat n) as k. intros k. revert e.
  induction k as [|k IH]; intros e H; simpl; [exact H|].
  apply IH. apply Put_value_bounds. exact H.
Qed.

Lemma Flush_bounds (e : RleEncoder.t) :
  encoder_bounds e -> encoder_bounds (snd (RleEncoder.Flush e)).
Proof.
  intros (Hnb & Hlc & Hlog). unfold RleEncoder.Flush, BitWriter.Finish.
  cbv zeta. enc_fields.
  destruct ((RleEncoder.literal_count_ e >? 0)
            || (RleEncoder.repeat_count_ e >? 0)
            || (RleEncoder.num_buffered_values_ e >? 0)) eqn:Hpending.
  2:{ unfold encoder_bounds. enc_fields. repeat split; try lia. exact Hlog. }
  destruct ((RleEncoder.repeat_count_ e >? 0)
            && ((RleEncoder.literal_count_ e =? 0)
                && ((RleEncoder.repeat_count_ e
                     =? RleEncoder.num_buffered_values_ e)
                    || (RleEncoder.num_buffered_values_ e =? 0)))) eqn:Hrep.
  - pose proof (FlushRepeatedRun_fields e) as F. cbv zeta in F.
    destruct F as (F1 & _ & _ & F4 & _ & F6).
    unfold encoder_bounds. enc_fields. rewrite F1, F4, F6.
    repeat split; try lia. exact Hlog.
  - rewrite (wrap_int32_small
               (RleEncoder.literal_count_ e
                + RleEncoder.num_buffered_values_ e)) by lia.
    set (e1 := RleEncoder.set_literal_count _ e).
    assert (H1 : encoder_bounds (RleEncoder.FlushLiteralRun true e1)).
    { apply FlushLiteralRun_true_bounds; subst e1; enc_fields;
        [|exact Hlog].
      destruct (RleEncoder.literal_count_ e >? 0) eqn:E1;
      destruct (RleEncoder.repeat_count_ e >? 0) eqn:E2;
      destruct (RleEncoder.num_buffered_values_ e >? 0) eqn:E3;
      destruct (RleEncoder.literal_count_ e =? 0) eqn:E4;
      destruct (RleEncoder.num_buffered_values_ e =? 0) eqn:E5;
      destruct (RleEncoder.repeat_count_ e
                =? RleEncoder.num_buffered_values_ e) eqn:E6;
      simpl in Hpending, Hrep; try discriminate; Z_bools; lia. }
    destruct H1 as (H1 & H2 & H3).
    unfold encoder_bounds. enc_fields. auto.
Qed.

Lemma Clear_bounds (e : RleEncoder.t) : encoder_bounds (RleEncoder.Clear e).
Proof.
  unfold encoder_bounds. simpl. repeat split; try lia. constructor.
Qed.

Lemma run_calls_bounds (cs : list encoder_call) (e : RleEncoder.t) :
  encoder_bounds e -> encoder_bounds (run_calls cs e).
Proof.
  revert e. induction cs as [|c cs IH]; intros e H; simpl; [exact H|].
  apply IH. destruct c as [v n|]; simpl.
  - apply Put_bounds. exact H.
  - apply Flush_bounds. exact H.
Qed.

(** C5.  Whatever [Put] and [Flush] calls a cleared encoder receives, every
    literal indicator it writes encodes a group count [num_groups] with
    [1 <= num_groups < 128]; this is the value that
    [DCHECK_LT(num_groups, 128)] of [FlushLiteralRun] checks. *)
Theorem literal_indicator_in_range
    (cs : list encoder_call) (e0 : RleEncoder.t) :
  Forall (fun num_groups => 1 <= num_groups < 128)
         (RleEncoder.indicator_groups_ (run_calls cs (RleEncoder.Clear e0))).
Proof.
  pose proof (run_calls_bounds cs _ (Clear_bounds e0)) as (_ & _ & H).
  exact H.
Qed.

(** ** The size of a VLQ *)

Lemma testbit_high_mask (n : Z) :
  0 <= n -> Z.testbit 0xFFFFFF80 n = (7 <=? n) && (n <? 32).
Proof.
  intros Hn. change 0xFFFFFF80 with (Z.shiftl (Z.ones 25) 7).
  destruct (Z.leb_spec 7 n) as [H7|H7].
  - rewrite Z.shiftl_spec by lia. rewrite Z.testbit_ones_nonneg by lia.
    simpl. destruct (Z.ltb_spec (n - 7) 25), (Z.ltb_spec n 32); lia.
  - rewrite Z.shiftl_spec_low by lia. reflexivity.
Qed.

Lemma testbit_above (v n k : Z) :
  0 <= v < 2 ^ k -> 0 <= k <= n -> Z.testbit v n = false.
Proof.
  intros Hv Hk. destruct (Z.eq_dec v 0) as [->|Hz].
  - apply Z.testbit_0_l.
  - apply Z.bits_above_log2; [lia|].
    assert (Z.log2 v < k) by (apply Z.log2_lt_pow2; lia). lia.
Qed.

Lemma land_high_mask (v : Z) :
  0 <= v < 2 ^ 32 -> Z.land v 0xFFFFFF80 = 128 * (v / 128).
Proof.
  intros Hv.
  replace (128 * (v / 128)) with (Z.shiftl (Z.shiftr v 7) 7).
  2:{ rewrite Z.shiftl_mul_pow2, Z.shiftr_div_pow2 by lia.
      change (2 ^ 7) with 128. lia. }
  apply Z.bits_inj'. intros n Hn.
  rewrite Z.land_spec, testbit_high_mask by exact Hn.
  destruct (Z.leb_spec 7 n) as [H7|H7].
  - rewrite Z.shiftl_spec, Z.shiftr_spec by lia.
    replace (n - 7 + 7) with n by lia.
    destruct (Z.ltb_spec n 32) as [H32|H32]; simpl.
    + apply andb_true_r.
    + rewrite (testbit_above v n 32) by lia. reflexivity.
  - rewrite Z.shiftl_spec_low by lia. simpl. apply andb_false_r.
Qed.

Lemma vlq_len_small (v : Z) : 0 <= v < 128 -> vlq_len v = 1.
Proof.
  intros Hv. unfold vlq_len.
  assert (0 <= Z.log2 v < 7).
  { split; [apply Z.log2_nonneg|].
    destruct (Z.eq_dec v 0) as [->|]; [simpl; lia|].
    apply Z.log2_lt_pow2; lia. }
  rewrite Z.div_small by lia. reflexivity.
Qed.

Lemma vlq_len_shift (v : Z) :
  128 <= v -> vlq_len v = vlq_len (Z.shiftr v 7) + 1.
Proof.
  intros Hv. unfold vlq_len.
  rewrite Z.log2_shiftr by lia.
  assert (7 <= Z.log2 v).
  { change 7 with (Z.log2 128). apply Z.log2_le_mono. lia. }
  rewrite Z.max_r by lia.
  replace (Z.log2 v) with ((Z.log2 v - 7) + 1 * 7) at 1 by lia.
  rewrite Z.div_add by lia. lia.
Qed.

Lemma PutVlqInt_loop_length (more : nat) :
  forall (v : Z) (w : BitWriter.t),
    0 <= v < 2 ^ 32 ->
    v < 2 ^ (7 * (Z.of_nat more + 1)) ->
    Z.of_nat (length (BitWriter.buffer (BitWriter.PutVlqInt_loop more v w)))
    = Z.of_nat (length (BitWriter.buffer w)) + vlq_len v.
Proof.
  induction more as [|more IH]; intros v w Hv Hfit.
  - simpl. rewrite length_app. simpl.
    rewrite vlq_len_small by (change (2 ^ (7 * (Z.of_nat 0 + 1))) with 128 in Hfit; lia).
    lia.
  - cbn [BitWriter.PutVlqInt_loop]. rewrite land_high_mask by exact Hv.
    destruct (Z.eqb_spec (128 * (v / 128)) 0) as [Hz|Hz].
    + simpl. rewrite length_app. simpl.
      rewrite vlq_len_small by lia. lia.
    + rewrite IH.
      * simpl. rewrite length_app. simpl.
        rewrite (vlq_len_shift v) by lia. lia.
      * rewrite Z.shiftr_div_pow2 by lia. change (2 ^ 7) with 128. lia.
      * rewrite Z.shiftr_div_pow2 by lia. change (2 ^ 7) with 128.
        apply Z.div_lt_upper_bound; [lia|].
        replace (7 * (Z.of_nat (S more) + 1))
          with (7 + 7 * (Z.of_nat more + 1)) in Hfit by lia.
        rewrite Z.pow_add_r in Hfit by lia.
        change (2 ^ 7) with 128 in Hfit. exact Hfit.
Qed.

Lemma PutVlqInt_length (v : Z) (w : BitWriter.t) :
  0 <= v < 2 ^ 31 ->
  Z.of_nat (length (BitWriter.buffer (BitWriter.PutVlqInt v w)))
  = Z.of_nat (length (BitWriter.buffer w)) + vlq_len v.
Proof.
  intros Hv. unfold BitWriter.PutVlqInt.
  apply PutVlqInt_loop_length; [lia|].
  change (2 ^ (7 * (Z.of_nat 4 + 1))) with (2 ^ 35). lia.
Qed.

(** ** A sequence of one value *)

Lemma Put_loop_eight (v : bool) :
  RleEncoder.Put_loop 8 v (RleEncoder.new []) = run_of_eight v.
Proof. destruct v; reflexivity. Qed.

(** The fast path of [Put]: past eight repetitions a further copy only
    counts, as long as the count fits its [int]. *)
Lemma Put_loop_fast (n : nat) :
  forall (v : bool) (e : RleEncoder.t),
    RleEncoder.current_value_ e = v ->
    8 <= RleEncoder.repeat_count_ e ->
    RleEncoder.repeat_count_ e + Z.of_nat n < 2 ^ 31 ->
    RleEncoder.Put_loop n v e
    = RleEncoder.set_repeat_count (RleEncoder.repeat_count_ e + Z.of_nat n) e.
Proof.
  induction n as [|n IH]; intros v e Hcv Hrc Hfit.
  - simpl. rewrite Z.add_0_r. destruct e; reflexivity.
  - cbn [RleEncoder.Put_loop]. unfold RleEncoder.Put_value.
    rewrite Hcv, Bool.eqb_reflx. cbv zeta.
    assert (Hw : wrap_int32 (RleEncoder.repeat_count_ e + 1)
                 = RleEncoder.repeat_count_ e + 1)
      by (apply wrap_int32_small; lia).
    cbn [RleEncoder.repeat_count_ RleEncoder.set_repeat_count].
    rewrite Hw.
    destruct (Z.gtb_spec (RleEncoder.repeat_count_ e + 1) 8) as [_|]; [|lia].
    rewrite IH; cbn [RleEncoder.repeat_count_ RleEncoder.current_value_
                     RleEncoder.set_repeat_count]; try lia; try exact Hcv.
    unfold RleEncoder.set_repeat_count. simpl. f_equal. lia.
Qed.

Lemma Put_loop_long_run (v : bool) (N : Z) :
  8 <= N < 2 ^ 31 ->
  RleEncoder.Put_loop (Z.to_nat N) v (RleEncoder.new [])
  = RleEncoder.set_repeat_count N (run_of_eight v).
Proof.
  intros HN.
  replace (Z.to_nat N) with (8 + Z.to_nat (N - 8))%nat by lia.
  rewrite Put_loop_app, Put_loop_eight.
  rewrite Put_loop_fast; simpl; try lia; [|reflexivity].
  unfold RleEncoder.set_repeat_count. simpl. f_equal. lia.
Qed.

Lemma encode_flatten (s : schedule) :
  encode s
  = RleEncoder.buffer
      (snd (RleEncoder.Flush (Put_values (flatten s) (RleEncoder.new [])))).
Proof. unfold encode. rewrite PutAll_flatten. reflexivity. Qed.

Lemma shiftl_1_double (N : Z) : Z.lor (Z.shiftl N 1) 0 = 2 * N.
Proof. rewrite Z.lor_0_r, Z.shiftl_mul_pow2 by lia. lia. Qed.

Lemma Flush_long_run (v : bool) (N : Z) :
  0 < N ->
  RleEncoder.Flush (RleEncoder.set_repeat_count N (run_of_eight v))
  = RleEncoder.Flush
      (RleEncoder.set_repeat_count 0
         (RleEncoder.set_bit_writer
            (BitWriter.PutAligned (bool_to_Z v)
               (BitWriter.PutVlqInt (wrap_int32 (Z.lor (Z.shiftl N 1) 0))
                  (BitWriter.mk [] 0)))
            (run_of_eight v))).
Proof.
  intros HN. unfold RleEncoder.Flush at 1. unfold run_of_eight. enc_fields.
  replace (N >? 0) with true by (symmetry; apply Z.gtb_lt; lia).
  change (0 >? 0) with false. change (0 =? 0) with true.
  rewrite orb_true_r. cbn [orb andb]. rewrite orb_true_r.
  reflexivity.
Qed.

(** C7, amended.  For [8 <= N < 2^30], whatever schedule of [Put] calls
    presents [N] copies of one value, the output after [Flush] has
    [vlq_len(N<<1) + 1] bytes, and that is the number [Flush] returns. *)
Theorem long_run_output_size (s : schedule) (v : bool) (N : Z) :
  flatten s = repeat v (Z.to_nat N) ->
  8 <= N < 2 ^ 30 ->
  Z.of_nat (length (encode s)) = vlq_len (Z.shiftl N 1) + 1
  /\ fst (RleEncoder.Flush (PutAll s (RleEncoder.new [])))
     = vlq_len (Z.shiftl N 1) + 1.
Proof.
  intros Hs HN. unfold encode.
  rewrite PutAll_flatten, Hs, Put_values_repeat.
  rewrite Put_loop_long_run by lia.
  rewrite Flush_long_run by lia.
  rewrite shiftl_1_double, (wrap_int32_small (2 * N)) by lia.
  rewrite Z.shiftl_mul_pow2 by lia.
  replace (N * 2 ^ 1) with (2 * N) by lia.
  pose proof (PutVlqInt_length (2 * N) (BitWriter.mk [] 0) ltac:(lia)) as HL.
  cbn [BitWriter.buffer length] in HL.
  assert (Hv : 1 <= vlq_len (2 * N) <= 5).
  { unfold vlq_len. pose proof (Z.log2_nonneg (2 * N)).
    assert (Z.log2 (2 * N) < 31) by (apply Z.log2_lt_pow2; lia).
    lia. }
  unfold RleEncoder.Flush, RleEncoder.buffer, BitWriter.Finish,
    BitWriter.PutAligned, run_of_eight.
  enc_fields. cbn [BitWriter.buffer].
  change (0 >? 0) with false. cbn [orb].
  enc_fields. cbn [BitWriter.buffer].
  rewrite length_app, Nat2Z.inj_add. cbn [length].
  rewrite HL. split; [lia|].
  rewrite wrap_int32_small; lia.
Qed.

Lemma long_run_output_size_witness :
  Z.of_nat (length (encode [(true, 100)])) = vlq_len (Z.shiftl 100 1) + 1.
Proof.
  refine (proj1 (long_run_output_size [(true, 100)] true 100 _ _)).
  - reflexivity.
  - lia.
Defined.

Lemma encode_single (v : bool) (n : Z) :
  encode [(v, n)]
  = RleEncoder.buffer
      (snd (RleEncoder.Flush
              (RleEncoder.Put_loop (Z.to_nat n) v (RleEncoder.new [])))).
Proof. reflexivity. Qed.

(** C7, as the spec words it, fails: [repeat_count_] is an [int].  With
    2^31 copies of [true] the count wraps at the last one, the value goes to
    the lookahead with the run forgotten, and [Flush] writes one literal
    group: the two bytes [03 01], not the [vlq_len(2^32) + 1 = 6] of the
    claim. *)
Lemma long_run_count_wraps :
  8 <= 2147483648
  /\ encode [(true, 2147483648)] = [0x03; 0x01]
  /\ Z.of_nat (length (encode [(true, 2147483648)]))
     <> vlq_len (Z.shiftl 2147483648 1) + 1.
Proof.
  assert (H : encode [(true, 2147483648)] = [0x03; 0x01]).
  { rewrite encode_single.
    replace (Z.to_nat 2147483648) with (Z.to_nat 2147483647 + 1)%nat by lia.
    rewrite Put_loop_app.
    rewrite (Put_loop_long_run true 2147483647) by lia.
    vm_compute. reflexivity. }
  split; [lia|]. split; [exact H|].
  rewrite H. vm_compute. discriminate.
Qed.

(** ** The bit reader's cursor *)

Lemma GetBool_cursor (r r' : BitReader.t) (b : bool) :
  reader_ok r ->
  BitReader.GetBool r = Some (b, r') ->
  reader_ok r'
  /\ BitReader.buffer r' = BitReader.buffer r
  /\ BitReader.RewindBool r' = r
  /\ (bytes_left r' <= bytes_left r)%nat.
Proof.
  unfold reader_ok, bytes_left, BitReader.GetBool, BitReader.RewindBool,
    BitReader.aligned_offset.
  intros Hok H. destruct r as [buf bo bi]. simpl in *.
  destruct (buf !! bo) as [byte|] eqn:Hb; [|discriminate H].
  apply lookup_lt_Some in Hb.
  destruct (Nat.eqb_spec bi 7) as [->|Hne]; inversion H; subst; clear H; simpl.
  - repeat split; try lia. rewrite Nat.sub_0_r. reflexivity.
  - repeat split; try lia. destruct bi; lia.
Qed.

Lemma vlq_decode_bytes (bytes : list Z) :
  forall (shift v x : Z) (n : nat),
    BitReader.vlq_decode bytes shift v = Some (x, n) ->
    (1 <= n <= length bytes)%nat.
Proof.
  induction bytes as [|byte rest IH]; intros shift v x n H; simpl in H;
    [discriminate H|].
  destruct (Z.land byte 128 =? 0).
  - inversion H; subst. simpl. lia.
  - destruct (BitReader.vlq_decode rest _ _) as [[x' n']|] eqn:Hrest;
      [|discriminate H].
    inversion H; subst. apply IH in Hrest. simpl. lia.
Qed.

Lemma GetVlqInt_cursor (r r' : BitReader.t) (v : Z) :
  BitReader.GetVlqInt r = Some (v, r') ->
  reader_ok r'
  /\ BitReader.buffer r' = BitReader.buffer r
  /\ (bytes_left r' < bytes_left r)%nat.
Proof.
  unfold BitReader.GetVlqInt, reader_ok, bytes_left. intros H.
  destruct (BitReader.vlq_decode _ 0 0) as [[x n]|] eqn:Hd; [|discriminate H].
  apply vlq_decode_bytes in Hd. rewrite length_drop in Hd.
  inversion H; subst; clear H. cbn. repeat split; lia.
Qed.

(** ** Well-formed decoders and the values they decode *)

Ltac dec_fields :=
  cbn [RleDecoder.bit_reader_ RleDecoder.current_value_
       RleDecoder.repeat_count_ RleDecoder.literal_count_
       RleDecoder.set_reader RleDecoder.set_current_value
       RleDecoder.set_repeat_count RleDecoder.set_literal_count
       fst snd] in *.

Lemma new_wf (bytes : list Z) : decoder_wf (RleDecoder.new bytes).
Proof.
  unfold decoder_wf, reader_ok. simpl. repeat split; lia.
Qed.

Lemma same_run_refl (d : RleDecoder.t) : same_run d d.
Proof. unfold same_run. auto. Qed.

Lemma ReadHeader_pending (d : RleDecoder.t) :
  pending d = true -> RleDecoder.ReadHeader d = Some (true, d).
Proof.
  unfold pending, RleDecoder.ReadHeader. intros H.
  apply negb_true_iff in H. rewrite H. reflexivity.
Qed.

Lemma ReadHeader_false (d d1 : RleDecoder.t) :
  RleDecoder.ReadHeader d = Some (false, d1) -> d1 = d.
Proof.
  unfold RleDecoder.ReadHeader. intros H.
  break_all H; inversion H; reflexivity.
Qed.

Lemma ReadHeader_true (d d1 : RleDecoder.t) :
  decoder_wf d ->
  RleDecoder.ReadHeader d = Some (true, d1) ->
  decoder_wf d1
  /\ pending d1 = true
  /\ BitReader.buffer (RleDecoder.bit_reader_ d1)
     = BitReader.buffer (RleDecoder.bit_reader_ d)
  /\ (turns_left d1 <= turns_left d)%nat
  /\ (pending d = true -> d1 = d).
Proof.
  intros (Hok & Hrc & Hlc & Hex) H.
  destruct (pending d) eqn:Hp.
  { rewrite ReadHeader_pending in H by exact Hp. inversion H; subst.
    unfold decoder_wf. auto. }
  unfold RleDecoder.ReadHeader in H. unfold pending in Hp.
  apply negb_false_iff in Hp. rewrite Hp in H.
  destruct (BitReader.GetVlqInt (RleDecoder.bit_reader_ d))
    as [[indicator r]|] eqn:Hv; [|discriminate H].
  apply GetVlqInt_cursor in Hv. destruct Hv as (Hok1 & Hbuf1 & Hleft1).
  Z_bools. cbv zeta in H.
  destruct (Z_to_bool (Z.land indicator 1)).
  - destruct (DCHECK _) eqn:Hd; [|discriminate H]. inversion H; subst; clear H.
    dec_fields. Z_bools.
    destruct (_ >? 0) eqn:Hpos; [|discriminate Hd]. Z_bools.
    unfold decoder_wf, turns_left, pending. dec_fields.
    wrap_ranges.
    replace (RleDecoder.repeat_count_ d =? 0) with true
      by (symmetry; apply Z.eqb_eq; lia).
    match goal with
    | |- context [?x =? 0] =>
        replace (x =? 0) with false by (symmetry; apply Z.eqb_neq; lia)
    end.
    cbn [andb negb]. repeat split; try lia; try assumption; try discriminate.
  - destruct (DCHECK _) eqn:Hd; [|discriminate H]. dec_fields.
    destruct (BitReader.GetBool r) as [[b r2]|] eqn:Hb; [|discriminate H].
    inversion H; subst; clear H.
    apply GetBool_cursor in Hb; [|exact Hok1].
    destruct Hb as (Hok2 & Hbuf2 & _ & Hleft2).
    Z_bools. destruct (_ >? 0) eqn:Hpos; [|discriminate Hd]. Z_bools.
    unfold decoder_wf, turns_left, pending. dec_fields.
    wrap_ranges.
    replace (RleDecoder.literal_count_ d =? 0) with true
      by (symmetry; apply Z.eqb_eq; lia).
    match goal with
    | |- context [wrap_uint32 ?x =? 0] =>
        replace (wrap_uint32 x =? 0) with false
          by (symmetry; apply Z.eqb_neq; lia)
    end.
    cbn [andb negb]. repeat split; try lia; try assumption; try discriminate;
      try congruence.
Qed.

Lemma Get_repeated (d : RleDecoder.t) (val : bool) :
  0 < RleDecoder.repeat_count_ d ->
  RleDecoder.Get val d
  = Some (true, RleDecoder.current_value_ d,
          RleDecoder.set_repeat_count
            (wrap_uint32 (RleDecoder.repeat_count_ d - 1)) d).
Proof.
  intros Hrc. unfold RleDecoder.Get.
  rewrite ReadHeader_pending.
  - replace (RleDecoder.repeat_count_ d >? 0) with true
      by (symmetry; apply Z.gtb_lt; lia).
    reflexivity.
  - unfold pending. apply negb_true_iff, andb_false_iff. right.
    apply Z.eqb_neq. lia.
Qed.

Lemma Get_literal (d : RleDecoder.t) (val : bool) :
  RleDecoder.repeat_count_ d = 0 ->
  0 < RleDecoder.literal_count_ d ->
  RleDecoder.Get val d
  = match BitReader.GetBool (RleDecoder.bit_reader_ d) with
    | None => None
    | Some (b, r) =>
        Some (true, b,
              RleDecoder.set_literal_count
                (wrap_uint32 (RleDecoder.literal_count_ d - 1))
                (RleDecoder.set_reader r d))
    end.
Proof.
  intros Hrc Hlc. unfold RleDecoder.Get.
  rewrite ReadHeader_pending.
  - rewrite Hrc. change (0 >? 0) with false.
    replace (RleDecoder.literal_count_ d >? 0) with true
      by (symmetry; apply Z.gtb_lt; lia).
    reflexivity.
  - unfold pending. apply negb_true_iff, andb_false_iff. left.
    apply Z.eqb_neq. lia.
Qed.

Lemma Get_header (d d1 : RleDecoder.t) (val : bool) :
  decoder_wf d ->
  RleDecoder.ReadHeader d = Some (true, d1) ->
  RleDecoder.Get val d = RleDecoder.Get val d1.
Proof.
  intros Hwf H. pose proof (ReadHeader_true d d1 Hwf H) as (_ & Hp & _).
  unfold RleDecoder.Get. rewrite H, (ReadHeader_pending d1 Hp). reflexivity.
Qed.

Lemma Decodes_header (d d1 : RleDecoder.t) (vs : list bool) :
  decoder_wf d ->
  RleDecoder.ReadHeader d = Some (true, d1) ->
  Decodes d vs -> Decodes d1 vs.
Proof.
  intros Hwf H HD.
  inversion HD as [d0 d' val val' HG | d0 d' val v vs' HG HD']; subst.
  - rewrite (Get_header d d1 val Hwf H) in HG. eapply Decodes_end; eassumption.
  - rewrite (Get_header d d1 val Hwf H) in HG.
    eapply Decodes_value; eassumption.
Qed.

Lemma Decodes_at_end (d d1 : RleDecoder.t) (vs : list bool) :
  RleDecoder.ReadHeader d = Some (false, d1) ->
  Decodes d vs -> vs = [].
Proof.
  intros H HD.
  inversion HD as [d0 d' val val' HG | d0 d' val v vs' HG HD']; subst;
    [reflexivity|].
  unfold RleDecoder.Get in HG. rewrite H in HG. discriminate HG.
Qed.

Lemma Decodes_no_abort (d : RleDecoder.t) (vs : list bool) :
  RleDecoder.ReadHeader d = None -> Decodes d vs -> False.
Proof.
  intros H HD.
  inversion HD as [d0 d' val val' HG | d0 d' val v vs' HG HD']; subst;
    unfold RleDecoder.Get in HG; rewrite H in HG; discriminate HG.
Qed.

Lemma Decodes_repeated (d : RleDecoder.t) (vs : list bool) :
  decoder_wf d ->
  0 < RleDecoder.repeat_count_ d ->
  Decodes d vs ->
  exists vs',
    vs = RleDecoder.current_value_ d :: vs'
    /\ Decodes (RleDecoder.set_repeat_count (RleDecoder.repeat_count_ d - 1) d)
               vs'.
Proof.
  intros (_ & Hrc & _) Hpos HD.
  inversion HD as [d0 d' val val' HG | d0 d' val v vs' HG HD']; subst;
    rewrite Get_repeated in HG by exact Hpos; inversion HG; subst.
  exists vs'. split; [reflexivity|].
  rewrite wrap_uint32_small in HD' by lia. exact HD'.
Qed.

Lemma Decodes_literal (d : RleDecoder.t) (vs : list bool) :
  decoder_wf d ->
  RleDecoder.repeat_count_ d = 0 ->
  0 < RleDecoder.literal_count_ d ->
  Decodes d vs ->
  exists (b : bool) (r : BitReader.t) (vs' : list bool),
    BitReader.GetBool (RleDecoder.bit_reader_ d) = Some (b, r)
    /\ vs = b :: vs'
    /\ Decodes (RleDecoder.set_literal_count (RleDecoder.literal_count_ d - 1)
                  (RleDecoder.set_reader r d)) vs'.
Proof.
  intros (_ & _ & Hlc & _) Hrc Hpos HD.
  inversion HD as [d0 d' val val' HG | d0 d' val v vs' HG HD']; subst;
    rewrite Get_literal in HG by assumption;
    destruct (BitReader.GetBool (RleDecoder.bit_reader_ d)) as [[b r]|];
    inversion HG; subst.
  exists v, r, vs'. repeat split.
  rewrite wrap_uint32_small in HD' by lia. exact HD'.
Qed.

Lemma set_repeat_count_same (d : RleDecoder.t) :
  RleDecoder.set_repeat_count (RleDecoder.repeat_count_ d) d = d.
Proof. destruct d; reflexivity. Qed.

(** A pending repeated run decodes to its [repeat_count_] copies of
    [current_value_]. *)
Lemma Decodes_absorb (n : nat) :
  forall (d : RleDecoder.t) (vs : list bool),
    decoder_wf d ->
    RleDecoder.repeat_count_ d = Z.of_nat n ->
    Decodes d vs ->
    exists vs',
      vs = repeat (RleDecoder.current_value_ d) n ++ vs'
      /\ Decodes (RleDecoder.set_repeat_count 0 d) vs'.
Proof.
  induction n as [|n IH]; intros d vs Hwf Hrc HD.
  - exists vs. split; [reflexivity|].
    change (Z.of_nat 0) with 0 in Hrc. rewrite <- Hrc, set_repeat_count_same.
    exact HD.
  - destruct (Decodes_repeated d vs Hwf ltac:(lia) HD) as (vs1 & -> & HD1).
    set (d1 := RleDecoder.set_repeat_count _ d) in HD1.
    assert (Hwf1 : decoder_wf d1).
    { destruct Hwf as (Hok & Hr & Hl & Hex).
      subst d1. unfold decoder_wf. dec_fields.
      repeat split; try assumption; lia. }
    assert (Hrc1 : RleDecoder.repeat_count_ d1 = Z.of_nat n)
      by (subst d1; dec_fields; lia).
    destruct (IH d1 vs1 Hwf1 Hrc1 HD1) as (vs' & -> & HD').
    exists vs'. split; [reflexivity|]. exact HD'.
Qed.

Lemma ReadHeader_same_run (d1 d2 : RleDecoder.t) :
  same_run d1 d2 ->
  match RleDecoder.ReadHeader d1 with
  | None => RleDecoder.ReadHeader d2 = None
  | Some (b, d1') =>
      exists d2', RleDecoder.ReadHeader d2 = Some (b, d2') /\ same_run d1' d2'
  end.
Proof.
  destruct d1 as [r1 cv1 rc1 lc1], d2 as [r2 cv2 rc2 lc2].
  unfold same_run. simpl. intros (-> & -> & -> & Hcv).
  unfold RleDecoder.ReadHeader. simpl.
  destruct ((lc2 =? 0) && (rc2 =? 0)) eqn:Hz.
  - Z_bools. subst.
    destruct (BitReader.GetVlqInt r2) as [[indicator r]|].
    + cbv zeta. dec_fields.
      destruct (Z_to_bool (Z.land indicator 1)); dec_fields.
      * destruct (DCHECK _); [|reflexivity].
        eexists. split; [reflexivity|]. unfold same_run. simpl. auto.
      * destruct (DCHECK _); [|reflexivity].
        destruct (BitReader.GetBool r) as [[b r']|]; [|reflexivity].
        eexists. split; [reflexivity|]. unfold same_run. simpl. auto.
    + eexists. split; [reflexivity|]. unfold same_run. simpl. auto.
  - eexists. split; [reflexivity|]. unfold same_run. simpl. auto.
Qed.

Lemma Get_same_run (d1 d2 : RleDecoder.t) (v1 v2 : bool) :
  same_run d1 d2 ->
  match RleDecoder.Get v1 d1 with
  | None => RleDecoder.Get v2 d2 = None
  | Some (false, _, _) =>
      exists d2', RleDecoder.Get v2 d2 = Some (false, v2, d2')
  | Some (true, v, d1') =>
      exists d2', RleDecoder.Get v2 d2 = Some (true, v, d2') /\ same_run d1' d2'
  end.
Proof.
  intros Hs. pose proof (ReadHeader_same_run d1 d2 Hs) as HR.
  unfold RleDecoder.Get.
  destruct (RleDecoder.ReadHeader d1) as [[[] d1']|].
  - destruct HR as (d2' & -> & (Hr & Hrc & Hlc & Hcv)).
    rewrite <- Hrc, <- Hlc, <- Hr.
    destruct (RleDecoder.repeat_count_ d1' >? 0) eqn:Hpos.
    + Z_bools. destruct Hcv as [Hcv|Hcv]; [lia|]. rewrite <- Hcv.
      eexists. split; [reflexivity|]. unfold same_run. dec_fields. auto.
    + destruct (DCHECK _); [|reflexivity].
      destruct (BitReader.GetBool _) as [[b r]|]; [|reflexivity].
      eexists. split; [reflexivity|]. unfold same_run. dec_fields.
      Z_bools. repeat split; try assumption. 
  - destruct HR as (d2' & -> & _). eexists. reflexivity.
  - rewrite HR. reflexivity.
Qed.

Lemma Decodes_same_run (d1 d2 : RleDecoder.t) (vs : list bool) :
  same_run d1 d2 -> Decodes d1 vs -> Decodes d2 vs.
Proof.
  intros Hs HD. revert d2 Hs.
  induction HD as [d d' val val' HG | d d' val v vs HG HD IH]; intros d2 Hs.
  - pose proof (Get_same_run d d2 val val Hs) as H. rewrite HG in H.
    destruct H as (d2' & H). eapply Decodes_end. exact H.
  - pose proof (Get_same_run d d2 val val Hs) as H. rewrite HG in H.
    destruct H as (d2' & H & Hs'). eapply Decodes_value; [exact H|].
    apply IH. exact Hs'.
Qed.

(** [GetAll] computes [Decodes]. *)
Lemma GetAll_Decodes (fuel : nat) :
  forall (val : bool) (d : RleDecoder.t) (vs : list bool),
    GetAll fuel val d = Some vs -> Decodes d vs.
Proof.
  induction fuel as [|fuel IH]; intros val d vs H; simpl in H;
    [discriminate H|].
  destruct (RleDecoder.Get val d) as [[[[] v] d']|] eqn:HG;
    [|inversion H; subst; eapply Decodes_end; exact HG | discriminate H].
  destruct (GetAll fuel v d') as [vs'|] eqn:HA; [|discriminate H].
  inversion H; subst. eapply Decodes_value; [exact HG|].
  eapply IH. exact HA.
Qed.

Lemma Get_val_irrelevant (d d' : RleDecoder.t) (v1 v2 v : bool) :
  RleDecoder.Get v1 d = Some (true, v, d') ->
  RleDecoder.Get v2 d = Some (true, v, d').
Proof.
  unfold RleDecoder.Get.
  destruct (RleDecoder.ReadHeader d) as [[[] d1]|]; intros H;
    [exact H | discriminate H | discriminate H].
Qed.

Lemma Get_false_val (d d' : RleDecoder.t) (v1 v2 v : bool) :
  RleDecoder.Get v1 d = Some (false, v, d') ->
  RleDecoder.Get v2 d = Some (false, v2, d').
Proof.
  unfold RleDecoder.Get.
  destruct (RleDecoder.ReadHeader d) as [[[] d1]|]; intros H.
  - break_all H; inversion H.
  - inversion H; subst. reflexivity.
  - discriminate H.
Qed.

Lemma Decodes_GetAll (d : RleDecoder.t) (vs : list bool) :
  Decodes d vs ->
  forall (fuel : nat) (val : bool),
    (length vs < fuel)%nat -> GetAll fuel val d = Some vs.
Proof.
  induction 1 as [d d' val0 val' HG | d d' val0 v vs HG HD IH];
    intros fuel val Hfuel.
  - destruct fuel as [|fuel]; [simpl in Hfuel; lia|]. simpl.
    rewrite (Get_false_val d d' val0 val val' HG). reflexivity.
  - destruct fuel as [|fuel]; [simpl in Hfuel; lia|]. simpl.
    rewrite (Get_val_irrelevant d d' val0 val v HG).
    rewrite IH by (simpl in Hfuel; lia). reflexivity.
Qed.

(** ** What [GetNextRun] returns *)

Ltac conj_split :=
  repeat match goal with |- _ /\ _ => split end; try reflexivity.

(** The inner loop of [GetNextRun] takes from a literal run the values equal
    to [val] at its head: it either meets another value, puts it back and
    leaves through [return true], or consumes the run. *)
Lemma GetNextRun_literals_spec (n : nat) :
  forall (val : bool) (rl : Z) (d : RleDecoder.t) (vs : list bool),
    decoder_wf d ->
    RleDecoder.repeat_count_ d = 0 ->
    RleDecoder.literal_count_ d <= Z.of_nat n ->
    Decodes d vs ->
    0 <= rl ->
    rl + Z.of_nat (length vs) < 2 ^ 64 ->
    exists (returned : bool) (j : nat) (vs' : list bool) (d' : RleDecoder.t),
      RleDecoder.GetNextRun_literals n val rl d
      = Some (returned, rl + Z.of_nat j, d')
      /\ vs = repeat val j ++ vs'
      /\ Decodes d' vs'
      /\ decoder_wf d'
      /\ RleDecoder.repeat_count_ d' = 0
      /\ (bytes_left (RleDecoder.bit_reader_ d')
          <= bytes_left (RleDecoder.bit_reader_ d))%nat
      /\ BitReader.buffer (RleDecoder.bit_reader_ d')
         = BitReader.buffer (RleDecoder.bit_reader_ d)
      /\ (if returned
          then exists x rest, vs' = x :: rest /\ x <> val
          else RleDecoder.literal_count_ d' = 0).
Proof.
  induction n as [|n IH]; intros val rl d vs Hwf Hrc Hn HD Hrl Hfit.
  - assert (Hlc : RleDecoder.literal_count_ d = 0)
      by (destruct Hwf as (_ & _ & ? & _); lia).
    exists false, 0%nat, vs, d. simpl. rewrite Hlc. simpl.
    rewrite Z.add_0_r. conj_split; try assumption; try lia.
  - cbn [RleDecoder.GetNextRun_literals].
    destruct (Z.gtb_spec (RleDecoder.literal_count_ d) 0) as [Hpos|Hzero].
    2:{ assert (Hlc : RleDecoder.literal_count_ d = 0)
          by (destruct Hwf as (_ & _ & ? & _); lia).
        exists false, 0%nat, vs, d.
        rewrite Z.add_0_r. conj_split; try assumption; try lia. }
    destruct (Decodes_literal d vs Hwf Hrc Hpos HD)
      as (b & r & vs1 & HGB & -> & HD1).
    rewrite HGB. cbv zeta. dec_fields.
    destruct Hwf as (Hok & Hrcr & Hlcr & Hex).
    destruct (GetBool_cursor _ _ _ Hok HGB) as (Hok' & Hbuf' & Hrew & Hleft).
    destruct (Bool.eqb b val) eqn:Heq; cbn [negb].
    + apply Bool.eqb_prop in Heq. subst b.
      simpl length in Hfit.
      rewrite wrap_uint32_small by lia.
      rewrite wrap_size_t_small by lia.
      set (d2 := RleDecoder.set_literal_count _ _).
      assert (Hwf2 : decoder_wf d2).
      { subst d2. unfold decoder_wf. dec_fields.
        conj_split; try assumption; try lia. }
      assert (HD2 : Decodes d2 vs1).
      { eapply Decodes_same_run; [|exact HD1].
        subst d2. unfold same_run. dec_fields. auto. }
      destruct (IH val (rl + 1) d2 vs1 Hwf2) as
        (returned & j & vs' & d' & HL & Hvs & HD' & Hwf' & Hrc' & Hleft'
         & Hbuf'' & Hret);
        try (subst d2; dec_fields; lia); try assumption.
      exists returned, (S j), vs', d'.
      rewrite HL. subst d2; dec_fields.
      conj_split; try assumption; try lia; try congruence.
      * do 3 f_equal. lia.
      * simpl. rewrite Hvs. reflexivity.
    + exists true, 0%nat, (b :: vs1),
        (RleDecoder.set_reader (BitReader.RewindBool r)
           (RleDecoder.set_reader r (RleDecoder.set_current_value b d))).
      rewrite Z.add_0_r. rewrite Hrew.
      conj_split; try assumption; dec_fields; try assumption; try lia.
      * eapply Decodes_same_run; [|exact HD].
        unfold same_run. dec_fields. auto.
      * unfold decoder_wf. dec_fields. conj_split; try assumption; lia.
      * exists b, vs1. split; [reflexivity|].
        intros ->. rewrite Bool.eqb_reflx in Heq. discriminate Heq.
Qed.

Lemma pending_repeat (d : RleDecoder.t) :
  decoder_wf d -> 0 < RleDecoder.repeat_count_ d ->
  pending d = true /\ RleDecoder.literal_count_ d = 0.
Proof.
  intros (_ & Hrc & Hlc & Hex) Hpos. unfold pending. split; [|lia].
  apply negb_true_iff, andb_false_iff. right. apply Z.eqb_neq. lia.
Qed.

Lemma pending_literal (d : RleDecoder.t) :
  decoder_wf d -> pending d = true -> RleDecoder.repeat_count_ d = 0 ->
  0 < RleDecoder.literal_count_ d.
Proof.
  intros (_ & Hrc & Hlc & Hex) Hp Hz. unfold pending in Hp.
  apply negb_true_iff, andb_false_iff in Hp.
  destruct Hp as [Hp|Hp]; apply Z.eqb_neq in Hp; lia.
Qed.

Lemma not_pending (d : RleDecoder.t) :
  RleDecoder.repeat_count_ d = 0 -> RleDecoder.literal_count_ d = 0 ->
  pending d = false.
Proof. intros H1 H2. unfold pending. rewrite H1, H2. reflexivity. Qed.

(** The outer loop of [GetNextRun], entered with [rl] values equal to [val]
    already counted, takes the values equal to the run's value from the head
    of what the decoder decodes, and stops at the first other value or at
    the end. *)
Lemma GetNextRun_loop_spec (fuel : nat) :
  forall (val : bool) (rl : Z) (d : RleDecoder.t) (vs : list bool),
    decoder_wf d ->
    Decodes d vs ->
    (turns_left d < fuel)%nat ->
    0 <= rl ->
    rl + Z.of_nat (length vs) < 2 ^ 64 ->
    exists (val' : bool) (k : nat) (vs' : list bool) (d' : RleDecoder.t),
      RleDecoder.GetNextRun_loop fuel val rl d
      = Some (rl + Z.of_nat k >? 0, val', rl + Z.of_nat k, d')
      /\ vs = repeat val' k ++ vs'
      /\ (0 < rl -> val' = val)
      /\ (rl = 0 -> k = 0%nat -> val' = val)
      /\ Decodes d' vs'
      /\ decoder_wf d'
      /\ (forall x rest, vs' = x :: rest -> x <> val' /\ 0 < rl + Z.of_nat k).
Proof.
  induction fuel as [|fuel IH]; intros val rl d vs Hwf HD Hfuel Hrl Hfit;
    [lia|].
  cbn [RleDecoder.GetNextRun_loop].
  destruct (RleDecoder.ReadHeader d) as [[[] d1]|] eqn:HR.
  3:{ exfalso. eapply Decodes_no_abort; eassumption. }
  2:{ pose proof (Decodes_at_end _ _ _ HR HD) as ->.
      apply ReadHeader_false in HR. subst d1.
      exists val, 0%nat, [], d. rewrite Z.add_0_r.
      conj_split; try assumption; try discriminate. }
  pose proof (ReadHeader_true d d1 Hwf HR) as (Hwf1 & Hp1 & _ & Hturns & _).
  pose proof (Decodes_header d d1 vs Hwf HR HD) as HD1.
  clear HR HD Hwf.
  destruct (Z.gtb_spec (RleDecoder.repeat_count_ d1) 0) as [Hrep|Hrep].
  - (* a repeated run is pending *)
    destruct (Decodes_absorb (Z.to_nat (RleDecoder.repeat_count_ d1)) d1 vs
                Hwf1 ltac:(lia) HD1) as (vs2 & Hvs & HD2).
    destruct ((rl >? 0) && negb (Bool.eqb val (RleDecoder.current_value_ d1)))
      eqn:Hstop.
    + exists val, 0%nat, vs, d1. rewrite Z.add_0_r.
      Z_bools. replace (rl >? 0) with true by (symmetry; apply Z.gtb_lt; lia).
      conj_split; try assumption; try lia.
      intros x rest Hx. split; [|lia].
      destruct (Z.to_nat (RleDecoder.repeat_count_ d1)) eqn:Hn; [lia|].
      rewrite Hx in Hvs. simpl in Hvs. inversion Hvs; subst.
      intros Heq. rewrite Heq, Bool.eqb_reflx in *. discriminate.
    + pose proof (pending_repeat d1 Hwf1 Hrep) as (_ & Hlc1).
      assert (Hlen : Z.of_nat (length vs)
                     = RleDecoder.repeat_count_ d1 + Z.of_nat (length vs2)).
      { rewrite Hvs, length_app, repeat_length. lia. }
      rewrite wrap_size_t_small by lia.
      set (d2 := RleDecoder.set_repeat_count 0 d1) in *.
      assert (Hwf2 : decoder_wf d2).
      { destruct Hwf1 as (? & ? & ? & ?). subst d2. unfold decoder_wf.
        dec_fields. conj_split; try assumption; lia. }
      assert (Hturns2 : (turns_left d2 < fuel)%nat).
      { unfold turns_left in *. rewrite Hp1 in Hturns.
        rewrite (not_pending d2) by (subst d2; dec_fields; lia).
        subst d2. dec_fields. lia. }
      destruct (IH (RleDecoder.current_value_ d1)
                   (rl + RleDecoder.repeat_count_ d1) d2 vs2 Hwf2 HD2 Hturns2)
        as (val' & k & vs' & d' & HL & Hvs' & Hval & _ & HD' & Hwf' & Hmax);
        try lia.
      specialize (Hval ltac:(lia)). subst val'.
      exists (RleDecoder.current_value_ d1),
        (Z.to_nat (RleDecoder.repeat_count_ d1) + k)%nat, vs', d'.
      rewrite HL.
      replace (rl + Z.of_nat (Z.to_nat (RleDecoder.repeat_count_ d1) + k))
        with (rl + RleDecoder.repeat_count_ d1 + Z.of_nat k) by lia.
      conj_split; try assumption.
      * rewrite Hvs, Hvs', repeat_app, <- app_assoc. reflexivity.
      * intros Hpos. apply andb_false_iff in Hstop.
        destruct Hstop as [Hs|Hs].
        -- Z_bools. lia.
        -- apply negb_false_iff, Bool.eqb_prop in Hs. congruence.
      * intros Hz Hk. lia.
  - (* a literal run is pending *)
    assert (Hrc1 : RleDecoder.repeat_count_ d1 = 0)
      by (destruct Hwf1 as (_ & ? & _); lia).
    pose proof (pending_literal d1 Hwf1 Hp1 Hrc1) as Hlit.
    replace (RleDecoder.literal_count_ d1 >? 0) with true
      by (symmetry; apply Z.gtb_lt; lia).
    cbn [DCHECK].
    (* the first value of a fresh run *)
    assert (Hfirst :
      exists (val1 : bool) (i : nat) (vs1 : list bool) (d2 : RleDecoder.t),
        (if rl =? 0 then
           match BitReader.GetBool (RleDecoder.bit_reader_ d1) with
           | None => None
           | Some (b, r) =>
               Some (b, wrap_size_t (rl + 1),
                     RleDecoder.set_literal_count
                       (wrap_uint32 (RleDecoder.literal_count_ d1 - 1))
                       (RleDecoder.set_reader r d1))
           end
         else Some (val, rl, d1)) = Some (val1, rl + Z.of_nat i, d2)
        /\ vs = repeat val1 i ++ vs1
        /\ 0 < rl + Z.of_nat i
        /\ (0 < rl -> val1 = val)
        /\ Decodes d2 vs1 /\ decoder_wf d2
        /\ RleDecoder.repeat_count_ d2 = 0
        /\ (bytes_left (RleDecoder.bit_reader_ d2)
            <= bytes_left (RleDecoder.bit_reader_ d1))%nat).
    { destruct (Z.eqb_spec rl 0) as [->|Hne].
      - destruct (Decodes_literal d1 vs Hwf1 Hrc1 Hlit HD1)
          as (b & r & vs1 & HGB & -> & HD2).
        rewrite HGB.
        destruct Hwf1 as (Hok & Hr & Hl & Hex).
        destruct (GetBool_cursor _ _ _ Hok HGB) as (Hok' & _ & _ & Hleft).
        rewrite wrap_uint32_small by lia.
        exists b, 1%nat, vs1, (RleDecoder.set_literal_count
                              (RleDecoder.literal_count_ d1 - 1)
                              (RleDecoder.set_reader r d1)).
        conj_split; try assumption; try lia.
        unfold decoder_wf. dec_fields. conj_split; try assumption; lia.
      - exists val, 0%nat, vs, d1. rewrite Z.add_0_r.
        conj_split; try assumption; try lia. }
    destruct Hfirst as (val1 & i & vs1 & d2 & -> & Hvs & Hpos & Hval1 & HD2
                        & Hwf2 & Hrc2 & Hleft2).
    cbv beta iota zeta.
    assert (Hlen : length vs = (i + length vs1)%nat).
    { rewrite Hvs, length_app, repeat_length. reflexivity. }
    destruct (GetNextRun_literals_spec
                (Z.to_nat (RleDecoder.literal_count_ d2)) val1
                (rl + Z.of_nat i) d2 vs1 Hwf2 Hrc2)
      as (returned & j & vs2 & d3 & HL & Hvs2 & HD3 & Hwf3 & Hrc3 & Hleft3
          & _ & Hret); try lia; try assumption.
    rewrite HL.
    destruct returned.
    + exists val1, (i + j)%nat, vs2, d3.
      replace (rl + Z.of_nat (i + j)) with (rl + Z.of_nat i + Z.of_nat j)
        by lia.
      replace (rl + Z.of_nat i + Z.of_nat j >? 0) with true
        by (symmetry; apply Z.gtb_lt; lia).
      conj_split; try assumption.
      * rewrite Hvs, Hvs2, repeat_app, <- app_assoc. reflexivity.
      * intros Hz Hk. lia.
      * intros x rest Hx. split; [|lia].
        destruct Hret as (x' & rest' & Hx' & Hne). congruence.
    + assert (Hturns3 : (turns_left d3 < fuel)%nat).
      { unfold turns_left in *. rewrite Hp1 in Hturns.
        rewrite (not_pending d3) by assumption. lia. }
      assert (Hlen2 : length vs1 = (j + length vs2)%nat).
      { rewrite Hvs2, length_app, repeat_length. reflexivity. }
      destruct (IH val1 (rl + Z.of_nat i + Z.of_nat j) d3 vs2 Hwf3 HD3 Hturns3)
        as (val' & k & vs' & d' & HL' & Hvs' & Hval & _ & HD' & Hwf' & Hmax);
        try lia.
      specialize (Hval ltac:(lia)). subst val'.
      exists val1, (i + j + k)%nat, vs', d'.
      rewrite HL'.
      replace (rl + Z.of_nat (i + j + k))
        with (rl + Z.of_nat i + Z.of_nat j + Z.of_nat k) by lia.
      conj_split; try assumption.
      * rewrite Hvs, Hvs2, Hvs', !repeat_app, <- !app_assoc. reflexivity.
      * intros Hz Hk. lia.
Qed.

(** ** How many values a buffer can hold *)

Lemma Get_values_bound (d d' : RleDecoder.t) (val v : bool) :
  decoder_wf d ->
  RleDecoder.Get val d = Some (true, v, d') ->
  decoder_wf d' /\ values_bound d' < values_bound d.
Proof.
  intros Hwf H. unfold RleDecoder.Get in H.
  destruct (RleDecoder.ReadHeader d) as [[[] d1]|] eqn:HR;
    try discriminate H.
  pose proof (ReadHeader_true d d1 Hwf HR) as (Hwf1 & Hp1 & _ & Hturns & Hsame).
  assert (Hb1 : values_bound d1 <= values_bound d).
  { destruct (pending d) eqn:Hp.
    - rewrite (Hsame eq_refl). lia.
    - unfold turns_left in Hturns. rewrite Hp, Hp1 in Hturns.
      destruct Hwf1 as (_ & ? & ? & ?), Hwf as (_ & ? & ? & ?).
      unfold values_bound. lia. }
  destruct Hwf1 as (Hok & Hr & Hl & Hex).
  destruct (Z.gtb_spec (RleDecoder.repeat_count_ d1) 0) as [Hrep|Hrep].
  - inversion H; subst; clear H.
    rewrite wrap_uint32_small by lia.
    unfold decoder_wf, values_bound in *. dec_fields.
    conj_split; try assumption; lia.
  - destruct (DCHECK _) eqn:Hd; [|discriminate H].
    destruct (BitReader.GetBool _) as [[b r]|] eqn:HGB; [|discriminate H].
    inversion H; subst; clear H.
    destruct (GetBool_cursor _ _ _ Hok HGB) as (Hok' & _ & _ & Hleft).
    unfold DCHECK in Hd.
    destruct (Z.gtb_spec (RleDecoder.literal_count_ d1) 0) as [Hlit|Hlit];
      [|discriminate Hd].
    rewrite wrap_uint32_small by lia.
    unfold decoder_wf, values_bound in *. dec_fields.
    conj_split; try assumption; lia.
Qed.

Lemma Decodes_length (d : RleDecoder.t) (vs : list bool) :
  Decodes d vs -> decoder_wf d ->
  Z.of_nat (length vs) <= values_bound d.
Proof.
  induction 1 as [d d' val val' HG | d d' val v vs HG HD IH]; intros Hwf.
  - destruct Hwf as (_ & ? & ? & _). unfold values_bound. simpl. lia.
  - destruct (Get_values_bound d d' val v Hwf HG) as (Hwf' & Hlt).
    specialize (IH Hwf'). simpl length. lia.
Qed.

Lemma new_values_bound (bytes : list Z) (vs : list bool) :
  Z.of_nat (length bytes) < 2 ^ 31 ->
  Decodes (RleDecoder.new bytes) vs ->
  Z.of_nat (length vs) < 2 ^ 64.
Proof.
  intros Hlen HD.
  pose proof (Decodes_length _ _ HD (new_wf bytes)) as H.
  unfold values_bound, bytes_left in H. simpl in H.
  rewrite Nat.sub_0_r in H. lia.
Qed.

(** ** Runs *)

(** [GetNextRun] returns the longest run of one value at the head of what
    the decoder decodes, and false when that is nothing. *)
Lemma GetNextRun_spec (d : RleDecoder.t) (val : bool) (vs : list bool) :
  decoder_wf d ->
  Decodes d vs ->
  Z.of_nat (length vs) < 2 ^ 64 ->
  exists (val' : bool) (k : nat) (vs' : list bool) (d' : RleDecoder.t),
    RleDecoder.GetNextRun val d
    = Some (Z.of_nat k >? 0, val', Z.of_nat k, d')
    /\ vs = repeat val' k ++ vs'
    /\ (k = 0%nat -> vs = [] /\ val' = val)
    /\ Decodes d' vs'
    /\ decoder_wf d'
    /\ (forall x rest, vs' = x :: rest -> x <> val').
Proof.
  intros Hwf HD Hfit. unfold RleDecoder.GetNextRun.
  destruct (GetNextRun_loop_spec
              (S (S (length (BitReader.buffer (RleDecoder.bit_reader_ d)))))
              val 0 d vs Hwf HD)
    as (val' & k & vs' & d' & HL & Hvs & _ & Hval & HD' & Hwf' & Hmax);
    try lia.
  { unfold turns_left, bytes_left. destruct (pending d); lia. }
  exists val', k, vs', d'. rewrite HL. rewrite !Z.add_0_l.
  conj_split; try assumption.
  - intros ->. split; [|apply Hval; reflexivity].
    simpl in Hvs. destruct vs' as [|x rest]; [exact Hvs|].
    destruct (Hmax x rest eq_refl) as (_ & Hpos). lia.
  - intros x rest Hx. apply (Hmax x rest Hx).
Qed.

Lemma GetRuns_spec (n : nat) :
  forall (vs : list bool) (d : RleDecoder.t) (val : bool) (fuel : nat),
    (length vs <= n)%nat ->
    (n < fuel)%nat ->
    decoder_wf d ->
    Decodes d vs ->
    Z.of_nat (length vs) < 2 ^ 64 ->
    exists runs : list (bool * Z),
      GetRuns fuel val d = Some runs
      /\ expand runs = vs
      /\ Forall (fun run => 0 < snd run) runs
      /\ alternating runs
      /\ (forall v m rest, runs = (v, m) :: rest -> exists tl, vs = v :: tl).
Proof.
  induction n as [|n IH]; intros vs d val fuel Hn Hfuel Hwf HD Hfit;
    (destruct fuel as [|fuel]; [lia|]); cbn [GetRuns];
    destruct (GetNextRun_spec d val vs Hwf HD Hfit)
      as (val' & k & vs' & d' & -> & Hvs & Hzero & HD' & Hwf' & Hmax).
  - destruct vs as [|x vs0]; [|simpl in Hn; lia].
    destruct k as [|k]; [|simpl in Hvs; discriminate Hvs].
    exists []. simpl. conj_split; try constructor. discriminate.
  - destruct k as [|k].
    + destruct (Hzero eq_refl) as (-> & _).
      exists []. simpl. conj_split; try constructor. discriminate.
    + replace (Z.of_nat (S k) >? 0) with true
        by (symmetry; apply Z.gtb_lt; lia).
      assert (Hlen : length vs = (S k + length vs')%nat).
      { rewrite Hvs, length_app, repeat_length. reflexivity. }
      destruct (IH vs' d' val' fuel) as (runs & -> & Hex & Hpos & Halt & Hhd);
        try lia; try assumption.
      exists ((val', Z.of_nat (S k)) :: runs).
      conj_split.
      * unfold expand in *. cbn [map concat].
        rewrite Nat2Z.id, Hex. symmetry. exact Hvs.
      * constructor; [simpl; lia | exact Hpos].
      * destruct runs as [|[v2 m2] rest]; [exact I|].
        cbn [alternating]. split; [|exact Halt].
        destruct (Hhd v2 m2 rest eq_refl) as (tl & Htl).
        intros Heq. apply (Hmax v2 tl Htl). congruence.
      * intros v m rest Heq. injection Heq as Hv _ _. subst v.
        rewrite Hvs. simpl. eexists. reflexivity.
Qed.

(** C4.  On a stream that decodes (successive [Get] calls return the values
    [vs] and then false), successive [GetNextRun] calls return runs and then
    false; the runs put end to end are [vs], every run has a positive
    length, and no two neighbouring runs have the same value: the runs are
    the maximal runs of [vs].  [buffer_len] is an [int], hence the bound on
    the number of bytes. *)
Theorem GetNextRun_maximal_runs
    (bytes : list Z) (val val0 : bool) (fuel : nat) (vs : list bool) :
  Z.of_nat (length bytes) < 2 ^ 31 ->
  GetAll fuel val0 (RleDecoder.new bytes) = Some vs ->
  exists runs : list (bool * Z),
    GetRuns (S (length vs)) val (RleDecoder.new bytes) = Some runs
    /\ expand runs = vs
    /\ Forall (fun run => 0 < snd run) runs
    /\ alternating runs.
Proof.
  intros Hlen HG. apply GetAll_Decodes in HG.
  pose proof (new_values_bound bytes vs Hlen HG) as Hfit.
  destruct (GetRuns_spec (length vs) vs (RleDecoder.new bytes) val
              (S (length vs)) ltac:(lia) ltac:(lia) (new_wf bytes) HG Hfit)
    as (runs & HR & Hex & Hpos & Halt & _).
  exists runs. auto.
Qed.

Lemma GetNextRun_maximal_runs_witness :
  exists runs : list (bool * Z),
    GetRuns 17 false (RleDecoder.new [0x03; 0xF0; 0x10; 0x01]) = Some runs
    /\ expand runs = repeat false 4 ++ repeat true 12
    /\ Forall (fun run => 0 < snd run) runs
    /\ alternating runs.
Proof.
  apply (GetNextRun_maximal_runs [0x03; 0xF0; 0x10; 0x01] false false 17
           (repeat false 4 ++ repeat true 12)).
  - simpl. lia.
  - vm_compute. reflexivity.
Defined.

(** ** [Skip] advances *)

Lemma Decodes_drop_repeated (m : nat) :
  forall (d : RleDecoder.t) (vs : list bool),
    decoder_wf d ->
    Z.of_nat m <= RleDecoder.repeat_count_ d ->
    Decodes d vs ->
    Decodes (RleDecoder.set_repeat_count
               (RleDecoder.repeat_count_ d - Z.of_nat m) d)
            (drop m vs)
    /\ (m <= length vs)%nat.
Proof.
  induction m as [|m IH]; intros d vs Hwf Hm HD.
  - rewrite Z.sub_0_r, set_repeat_count_same. simpl. split; [exact HD|lia].
  - destruct (Decodes_repeated d vs Hwf ltac:(lia) HD) as (vs1 & -> & HD1).
    set (d1 := RleDecoder.set_repeat_count _ d) in HD1.
    assert (Hwf1 : decoder_wf d1).
    { destruct Hwf as (Hok & Hr & Hl & Hex).
      subst d1. unfold decoder_wf. dec_fields.
      conj_split; try assumption; lia. }
    destruct (IH d1 vs1 Hwf1) as (HD2 & Hlen); [subst d1; dec_fields; lia | exact HD1 |].
    subst d1. dec_fields. simpl. split; [|lia].
    replace (RleDecoder.repeat_count_ d - Z.of_nat (S m))
      with (RleDecoder.repeat_count_ d - 1 - Z.of_nat m) by lia.
    exact HD2.
Qed.

(** The bit loop of [Skip] reads the next [m] values of a literal run whose
    count [Skip] has already lowered. *)
Lemma Skip_bits_spec (m : nat) :
  forall (d : RleDecoder.t) (vs : list bool) (c L : Z),
    decoder_wf d ->
    RleDecoder.repeat_count_ d = 0 ->
    Z.of_nat m <= RleDecoder.literal_count_ d ->
    Decodes d vs ->
    exists (c' : Z) (r' : BitReader.t),
      RleDecoder.Skip_bits m c (RleDecoder.set_literal_count L d)
      = Some (c', RleDecoder.set_reader r' (RleDecoder.set_literal_count L d))
      /\ Decodes (RleDecoder.set_literal_count
                    (RleDecoder.literal_count_ d - Z.of_nat m)
                    (RleDecoder.set_reader r' d))
                 (drop m vs)
      /\ (m <= length vs)%nat
      /\ reader_ok r'.
Proof.
  induction m as [|m IH]; intros d vs c L Hwf Hrc Hm HD.
  - exists c, (RleDecoder.bit_reader_ d). simpl.
    conj_split; try lia; try apply Hwf.
    rewrite Z.sub_0_r. destruct d; exact HD.
  - destruct (Decodes_literal d vs Hwf Hrc ltac:(lia) HD)
      as (b & r & vs1 & HGB & -> & HD1).
    set (d1 := RleDecoder.set_literal_count _ _) in HD1.
    destruct Hwf as (Hok & Hr & Hl & Hex).
    destruct (GetBool_cursor _ _ _ Hok HGB) as (Hok' & _ & _ & _).
    assert (Hwf1 : decoder_wf d1).
    { subst d1. unfold decoder_wf. dec_fields.
      conj_split; try assumption; lia. }
    destruct (IH d1 vs1 (wrap_size_t (c + bool_to_Z b)) L Hwf1)
      as (c' & r' & HS & HD' & Hlen & Hok'');
      [subst d1; dec_fields; lia | subst d1; dec_fields; lia | exact HD1 |].
    exists c', r'. cbn [RleDecoder.Skip_bits]. dec_fields. rewrite HGB.
    subst d1. dec_fields.
    conj_split; try assumption; try (simpl; lia).
    simpl.
    replace (RleDecoder.literal_count_ d - Z.of_nat (S m))
      with (RleDecoder.literal_count_ d - 1 - Z.of_nat m) by lia.
    exact HD'.
Qed.

Lemma Skip_loop_spec (fuel : nat) :
  forall (k c : Z) (d : RleDecoder.t) (vs : list bool),
    decoder_wf d ->
    Decodes d vs ->
    0 <= k <= Z.of_nat (length vs) ->
    k <= Z.of_nat fuel ->
    k < 2 ^ 64 ->
    exists (c' : Z) (d' : RleDecoder.t),
      RleDecoder.Skip_loop fuel k c d = Some (c', d')
      /\ Decodes d' (drop (Z.to_nat k) vs)
      /\ decoder_wf d'.
Proof.
  induction fuel as [|fuel IH]; intros k c d vs Hwf HD Hk Hfuel Hfit.
  - assert (k = 0) by lia. subst k. exists c, d. simpl. auto.
  - cbn [RleDecoder.Skip_loop].
    destruct (Z.gtb_spec k 0) as [Hpos|Hzero].
    2:{ assert (k = 0) by lia. subst k. exists c, d. simpl. auto. }
    destruct (RleDecoder.ReadHeader d) as [[[] d1]|] eqn:HR.
    3:{ exfalso. eapply Decodes_no_abort; eassumption. }
    2:{ pose proof (Decodes_at_end _ _ _ HR HD) as ->. simpl in Hk. lia. }
    pose proof (ReadHeader_true d d1 Hwf HR) as (Hwf1 & Hp1 & _).
    pose proof (Decodes_header d d1 vs Hwf HR HD) as HD1.
    clear HR HD Hwf. cbn [DCHECK].
    destruct (Z.gtb_spec (RleDecoder.repeat_count_ d1) 0) as [Hrep|Hrep].
    + set (nskip := if RleDecoder.repeat_count_ d1 <? k
                    then RleDecoder.repeat_count_ d1 else k).
      assert (Hn : 0 < nskip <= RleDecoder.repeat_count_ d1 /\ nskip <= k).
      { subst nskip.
        destruct (Z.ltb_spec (RleDecoder.repeat_count_ d1) k); lia. }
      destruct (Decodes_drop_repeated (Z.to_nat nskip) d1 vs Hwf1 ltac:(lia) HD1)
        as (HD2 & Hlen).
      rewrite Z2Nat.id in HD2 by lia.
      destruct Hwf1 as (Hok & Hr & Hl & Hex).
      rewrite wrap_uint32_small by lia.
      rewrite (wrap_size_t_small (k - nskip)) by lia.
      set (d2 := RleDecoder.set_repeat_count _ d1) in *.
      assert (Hwf2 : decoder_wf d2).
      { subst d2. unfold decoder_wf. dec_fields.
        conj_split; try assumption; lia. }
      destruct (IH (k - nskip)
                   (wrap_size_t (bool_to_Z (RleDecoder.current_value_ d2) * nskip))
                   d2 (drop (Z.to_nat nskip) vs) Hwf2 HD2)
        as (c' & d' & HS & HD' & Hwf'); try lia.
      { rewrite length_drop. lia. }
      exists c', d'. rewrite HS. conj_split; try assumption.
      rewrite drop_drop in HD'.
      replace (Z.to_nat k) with (Z.to_nat nskip + Z.to_nat (k - nskip))%nat
        by lia.
      exact HD'.
    + assert (Hrc1 : RleDecoder.repeat_count_ d1 = 0)
        by (destruct Hwf1 as (_ & ? & _); lia).
      pose proof (pending_literal d1 Hwf1 Hp1 Hrc1) as Hlit.
      replace (RleDecoder.literal_count_ d1 >? 0) with true
        by (symmetry; apply Z.gtb_lt; lia).
      cbn [DCHECK].
      set (nskip := if RleDecoder.literal_count_ d1 <? k
                    then RleDecoder.literal_count_ d1 else k).
      assert (Hn : 0 < nskip <= RleDecoder.literal_count_ d1 /\ nskip <= k).
      { subst nskip.
        destruct (Z.ltb_spec (RleDecoder.literal_count_ d1) k); lia. }
      destruct (Skip_bits_spec (Z.to_nat nskip) d1 vs c
                  (wrap_uint32 (RleDecoder.literal_count_ d1 - nskip))
                  Hwf1 Hrc1 ltac:(lia) HD1)
        as (c1 & r1 & HSB & HD2 & Hlen & Hok1).
      rewrite HSB. rewrite Z2Nat.id in HD2 by lia.
      destruct Hwf1 as (Hok & Hr & Hl & Hex).
      rewrite wrap_uint32_small by lia.
      rewrite (wrap_size_t_small (k - nskip)) by lia.
      set (d2 := RleDecoder.set_reader r1 _).
      assert (Hd2 : d2 = RleDecoder.set_literal_count
                           (RleDecoder.literal_count_ d1 - nskip)
                           (RleDecoder.set_reader r1 d1))
        by reflexivity.
      rewrite <- Hd2 in HD2.
      assert (Hwf2 : decoder_wf d2).
      { rewrite Hd2. unfold decoder_wf. dec_fields.
        conj_split; try assumption; lia. }
      destruct (IH (k - nskip) c1 d2 (drop (Z.to_nat nskip) vs) Hwf2 HD2)
        as (c' & d' & HS & HD' & Hwf'); try lia.
      { rewrite length_drop. lia. }
      exists c', d'. rewrite HS. conj_split; try assumption.
      rewrite drop_drop in HD'.
      replace (Z.to_nat k) with (Z.to_nat nskip + Z.to_nat (k - nskip))%nat
        by lia.
      exact HD'.
Qed.

(** X5.  [Skip(k)] on a decoder with at least [k] values left returns, and
    leaves a decoder that decodes the values after the first [k]: the call
    advances over exactly [k] values. *)
Lemma Skip_advances (d : RleDecoder.t) (k : Z) (vs : list bool) :
  decoder_wf d ->
  Decodes d vs ->
  0 <= k <= Z.of_nat (length vs) ->
  k < 2 ^ 64 ->
  exists (c : Z) (d' : RleDecoder.t),
    RleDecoder.Skip k d = Some (c, d')
    /\ Decodes d' (drop (Z.to_nat k) vs)
    /\ decoder_wf d'.
Proof.
  intros Hwf HD Hk Hfit. unfold RleDecoder.Skip.
  apply Skip_loop_spec; try assumption; lia.
Qed.

Lemma Skip_advances_witness :
  exists (c : Z) (d' : RleDecoder.t),
    RleDecoder.Skip 3 (RleDecoder.new [0x10; 0x01]) = Some (c, d')
    /\ Decodes d' (drop (Z.to_nat 3) (repeat true 8))
    /\ decoder_wf d'.
Proof.
  apply (Skip_advances (RleDecoder.new [0x10; 0x01]) 3 (repeat true 8)).
  - apply new_wf.
  - apply (GetAll_Decodes 9 false). vm_compute. reflexivity.
  - simpl. lia.
  - lia.
Defined.

(** ** Decoding the wire format *)

Lemma Decodes_literal_bit
    (B : list Z) (p i : nat) (byte : Z) (cv : bool) (L : Z) (vs : list bool) :
  B !! p = Some byte ->
  0 < L < 2 ^ 32 ->
  Decodes (RleDecoder.mk (next_bit B p i) cv 0 (L - 1)) vs ->
  Decodes (RleDecoder.mk (BitReader.mk B p i) cv 0 L)
          (Z.testbit byte (Z.of_nat i) :: vs).
Proof.
  intros Hb HL HD.
  eapply (Decodes_value _ _ false); [|exact HD].
  rewrite Get_literal by (simpl; lia).
  unfold BitReader.GetBool. cbn [RleDecoder.bit_reader_ BitReader.buffer
    BitReader.byte_offset BitReader.bit_offset]. rewrite Hb.
  cbn [RleDecoder.literal_count_]. rewrite wrap_uint32_small by lia.
  reflexivity.
Qed.

Lemma Decodes_literal_byte
    (B : list Z) (p : nat) (byte : Z) (cv : bool) (L : Z) (vs : list bool) :
  B !! p = Some byte ->
  8 <= L < 2 ^ 32 ->
  Decodes (RleDecoder.mk (BitReader.mk B (S p) 0) cv 0 (L - 8)) vs ->
  Decodes (RleDecoder.mk (BitReader.mk B p 0) cv 0 L) (byte_bits byte ++ vs).
Proof.
  intros Hb HL HD. unfold byte_bits. cbn [seq map app].
  do 8 (eapply Decodes_literal_bit; [exact Hb | lia |]; cbn [next_bit Nat.eqb]).
  replace (L - 1 - 1 - 1 - 1 - 1 - 1 - 1 - 1) with (L - 8) by lia.
  exact HD.
Qed.

Lemma drop_cons_inv {A : Type} (l : list A) (p : nat) (x : A) (t : list A) :
  drop p l = x :: t -> l !! p = Some x /\ drop (S p) l = t.
Proof.
  revert p. induction l as [|y l IH]; intros p H.
  - rewrite drop_nil in H. discriminate H.
  - destruct p as [|p]; simpl in *.
    + inversion H; subst. rewrite drop_0. auto.
    + apply IH. exact H.
Qed.

Lemma Decodes_literal_bytes (lits : list Z) :
  forall (B rest : list Z) (p : nat) (cv : bool) (L : Z) (vs : list bool),
    drop p B = lits ++ rest ->
    8 * Z.of_nat (length lits) <= L < 2 ^ 32 ->
    Decodes (RleDecoder.mk (BitReader.mk B (p + length lits) 0) cv 0
               (L - 8 * Z.of_nat (length lits))) vs ->
    Decodes (RleDecoder.mk (BitReader.mk B p 0) cv 0 L) (bytes_bits lits ++ vs).
Proof.
  induction lits as [|byte lits IH]; intros B rest p cv L vs Hdrop HL HD.
  - simpl in *. rewrite Nat.add_0_r, Z.sub_0_r in HD. exact HD.
  - simpl in Hdrop. apply drop_cons_inv in Hdrop. destruct Hdrop as (Hb & Hdrop).
    unfold bytes_bits. cbn [map concat]. rewrite <- app_assoc.
    simpl length in *.
    apply Decodes_literal_byte; [exact Hb | lia |].
    apply (IH B rest); [exact Hdrop | lia |].
    replace (S p + length lits)%nat with (p + S (length lits))%nat by lia.
    replace (L - 8 - 8 * Z.of_nat (length lits))
      with (L - 8 * Z.of_nat (S (length lits))) by lia.
    exact HD.
Qed.

(** A pending repeated run decodes to its copies, then to what follows. *)
Lemma Decodes_repeat (n : nat) :
  forall (d : RleDecoder.t) (vs : list bool),
    RleDecoder.repeat_count_ d = Z.of_nat n ->
    Z.of_nat n < 2 ^ 32 ->
    Decodes (RleDecoder.set_repeat_count 0 d) vs ->
    Decodes d (repeat (RleDecoder.current_value_ d) n ++ vs).
Proof.
  induction n as [|n IH]; intros d vs Hrc Hfit HD.
  - simpl. change (Z.of_nat 0) with 0 in Hrc.
    rewrite <- Hrc, set_repeat_count_same in HD. exact HD.
  - simpl. eapply (Decodes_value _ _ false).
    + apply Get_repeated. lia.
    + rewrite wrap_uint32_small by lia.
      apply (IH (RleDecoder.set_repeat_count _ d)); dec_fields; try lia.
      exact HD.
Qed.

(** ** VLQ: what [PutVlqInt] writes, [GetVlqInt] reads *)

Lemma PutVlqInt_loop_buffer (more : nat) :
  forall (v : Z) (w : BitWriter.t),
    BitWriter.PutVlqInt_loop more v w
    = BitWriter.mk (BitWriter.buffer w ++ vlq_loop_bytes more v) 0.
Proof.
  unfold vlq_loop_bytes.
  induction more as [|more IH]; intros v w; cbn [BitWriter.PutVlqInt_loop].
  - reflexivity.
  - destruct (Z.land v 4294967168 =? 0); [reflexivity|].
    rewrite IH. rewrite (IH _ (BitWriter.PutAligned _ (BitWriter.mk [] 0))).
    unfold BitWriter.PutAligned. cbn [BitWriter.buffer].
    rewrite <- app_assoc. reflexivity.
Qed.

Lemma PutVlqInt_buffer (v : Z) (w : BitWriter.t) :
  BitWriter.PutVlqInt v w
  = BitWriter.mk (BitWriter.buffer w ++ vlq_bytes v) 0.
Proof. unfold BitWriter.PutVlqInt. apply PutVlqInt_loop_buffer. Qed.

Lemma land_low_high (v : Z) : Z.land (Z.land v 127) 128 = 0.
Proof. rewrite <- Z.land_assoc. change (Z.land 127 128) with 0. apply Z.land_0_r. Qed.

Lemma last_group_byte (v : Z) :
  0 <= v ->
  let byte := wrap_uint8 (Z.land v 127) in
  Z.land byte 128 = 0 /\ Z.land byte 127 = Z.land v 127.
Proof.
  intros Hv. cbv zeta. unfold wrap_uint8.
  rewrite <- (Z.land_ones _ 8) by lia. change (Z.ones 8) with 255.
  rewrite <- !Z.land_assoc.
  change (Z.land 255 128) with 128. change (Z.land 255 127) with 127.
  change (Z.land 127 128) with 0. change (Z.land 127 127) with 127.
  rewrite Z.land_0_r. auto.
Qed.

Lemma more_groups_byte (v : Z) :
  let byte := wrap_uint8 (Z.lor (Z.land v 127) 128) in
  Z.land byte 128 = 128 /\ Z.land byte 127 = Z.land v 127.
Proof.
  cbv zeta. unfold wrap_uint8.
  rewrite <- (Z.land_ones _ 8) by lia. change (Z.ones 8) with 255.
  rewrite <- !Z.land_assoc.
  change (Z.land 255 128) with 128. change (Z.land 255 127) with 127.
  rewrite !Z.land_lor_distr_l, <- !Z.land_assoc.
  change (Z.land 127 128) with 0. change (Z.land 127 127) with 127.
  change (Z.land 128 128) with 128. change (Z.land 128 127) with 0.
  rewrite Z.land_0_r, Z.lor_0_r, Z.lor_0_l. auto.
Qed.

Lemma split_low_group (v : Z) :
  Z.lor (Z.land v 127) (Z.shiftl (Z.shiftr v 7) 7) = v.
Proof.
  rewrite <- Z.ldiff_ones_r by lia. change (Z.ones 7) with 127.
  rewrite Z.lor_comm. apply Z.lor_ldiff_and.
Qed.

Lemma vlq_decode_loop_bytes (more : nat) :
  forall (v shift acc : Z) (rest : list Z),
    0 <= v < 2 ^ 32 ->
    v < 2 ^ (7 * (Z.of_nat more + 1)) ->
    0 <= shift ->
    BitReader.vlq_decode (vlq_loop_bytes more v ++ rest) shift acc
    = Some (Z.lor acc (Z.shiftl v shift), length (vlq_loop_bytes more v)).
Proof.
  assert (Hlast : forall v shift acc rest,
    0 <= v < 128 ->
    BitReader.vlq_decode (wrap_uint8 (Z.land v 127) :: rest) shift acc
    = Some (Z.lor acc (Z.shiftl v shift), 1%nat)).
  { intros v shift acc rest Hv. cbn [BitReader.vlq_decode].
    destruct (last_group_byte v ltac:(lia)) as (H1 & H2).
    change 128 with 128 in H1. rewrite H1, H2. cbn [Z.eqb].
    change 127 with (Z.ones 7). rewrite Z.land_ones, Z.mod_small by lia.
    reflexivity. }
  induction more as [|more IH]; intros v shift acc rest Hv Hfit Hshift.
  - change (2 ^ (7 * (Z.of_nat 0 + 1))) with 128 in Hfit.
    unfold vlq_loop_bytes. cbn [BitWriter.PutVlqInt_loop BitWriter.PutAligned
      BitWriter.buffer app length]. rewrite (Hlast v shift acc rest) by lia.
    reflexivity.
  - unfold vlq_loop_bytes. cbn [BitWriter.PutVlqInt_loop].
    rewrite land_high_mask by exact Hv.
    destruct (Z.eqb_spec (128 * (v / 128)) 0) as [Hz|Hz].
    + cbn [BitWriter.PutAligned BitWriter.buffer app length].
      rewrite (Hlast v shift acc rest) by lia. reflexivity.
    + rewrite PutVlqInt_loop_buffer.
      cbn [BitWriter.PutAligned BitWriter.buffer app length].
      cbn [app BitReader.vlq_decode].
      destruct (more_groups_byte v) as (H1 & H2). rewrite H1, H2.
      cbn [Z.eqb].
      assert (Hv7 : 0 <= Z.shiftr v 7 < 2 ^ 32
                    /\ Z.shiftr v 7 < 2 ^ (7 * (Z.of_nat more + 1))).
      { rewrite Z.shiftr_div_pow2 by lia. change (2 ^ 7) with 128.
        split; [lia|].
        apply Z.div_lt_upper_bound; [lia|].
        replace (7 * (Z.of_nat (S more) + 1))
          with (7 + 7 * (Z.of_nat more + 1)) in Hfit by lia.
        rewrite Z.pow_add_r in Hfit by lia.
        change (2 ^ 7) with 128 in Hfit. exact Hfit. }
      rewrite IH by lia.
      f_equal. f_equal.
      rewrite <- Z.lor_assoc. f_equal.
      rewrite Z.add_comm, <- Z.shiftl_shiftl by lia.
      rewrite <- Z.shiftl_lor. rewrite split_low_group. reflexivity.
Qed.

Lemma vlq_decode_vlq_bytes (v : Z) (rest : list Z) :
  0 <= v < 2 ^ 31 ->
  BitReader.vlq_decode (vlq_bytes v ++ rest) 0 0
  = Some (v, length (vlq_bytes v)).
Proof.
  intros Hv. unfold vlq_bytes, BitWriter.PutVlqInt.
  fold (vlq_loop_bytes 4 v).
  rewrite vlq_decode_loop_bytes; try lia.
  rewrite Z.shiftl_0_r, Z.lor_0_l. reflexivity.
Qed.

Lemma vlq_bytes_length (v : Z) :
  0 <= v < 2 ^ 31 ->
  Z.of_nat (length (vlq_bytes v)) = vlq_len v
  /\ (1 <= length (vlq_bytes v) <= 5)%nat.
Proof.
  intros Hv. unfold vlq_bytes.
  pose proof (PutVlqInt_length v (BitWriter.mk [] 0) Hv) as H.
  cbn [BitWriter.buffer length] in H. split; [lia|].
  unfold vlq_len in H.
  pose proof (Z.log2_nonneg v).
  assert (Z.log2 v < 31).
  { destruct (Z.eq_dec v 0) as [->|]; [simpl; lia|].
    apply Z.log2_lt_pow2; lia. }
  lia.
Qed.

Lemma Decodes_header_inv (d d1 : RleDecoder.t) (vs : list bool) :
  decoder_wf d ->
  RleDecoder.ReadHeader d = Some (true, d1) ->
  Decodes d1 vs -> Decodes d vs.
Proof.
  intros Hwf H HD.
  inversion HD as [d0 d' val val' HG | d0 d' val v vs' HG HD']; subst.
  - rewrite <- (Get_header d d1 val Hwf H) in HG.
    eapply Decodes_end; eassumption.
  - rewrite <- (Get_header d d1 val Hwf H) in HG.
    eapply Decodes_value; eassumption.
Qed.

Lemma idle_wf (d : RleDecoder.t) :
  RleDecoder.repeat_count_ d = 0 ->
  RleDecoder.literal_count_ d = 0 ->
  reader_ok (RleDecoder.bit_reader_ d) ->
  decoder_wf d.
Proof. intros H1 H2 H3. unfold decoder_wf. rewrite H1, H2. auto with zarith. Qed.

Lemma ReadHeader_repeated_run
    (d : RleDecoder.t) (n : Z) (v : bool) (rest : list Z) :
  RleDecoder.repeat_count_ d = 0 ->
  RleDecoder.literal_count_ d = 0 ->
  drop (BitReader.aligned_offset (RleDecoder.bit_reader_ d))
       (BitReader.buffer (RleDecoder.bit_reader_ d))
  = vlq_bytes (2 * n) ++ bool_to_Z v :: rest ->
  0 < n < 2 ^ 30 ->
  RleDecoder.ReadHeader d
  = Some (true,
          RleDecoder.mk
            (BitReader.mk (BitReader.buffer (RleDecoder.bit_reader_ d))
               (BitReader.aligned_offset (RleDecoder.bit_reader_ d)
                + length (vlq_bytes (2 * n))) 1)
            v n 0).
Proof.
  intros Hrc Hlc Hdrop Hn.
  unfold RleDecoder.ReadHeader, BitReader.GetVlqInt.
  rewrite Hrc, Hlc, Hdrop. cbn [Z.eqb andb].
  rewrite vlq_decode_vlq_bytes by lia. cbv zeta.
  rewrite (wrap_int32_small (2 * n)) by lia.
  assert (Hbit : Z.land (2 * n) 1 = 0).
  { change 1 with (Z.ones 1). rewrite Z.land_ones by lia.
    change (2 ^ 1) with 2. lia. }
  rewrite Hbit. cbn [Z_to_bool Z.eqb negb].
  assert (Hsh : Z.shiftr (2 * n) 1 = n).
  { rewrite Z.shiftr_div_pow2 by lia. change (2 ^ 1) with 2. lia. }
  dec_fields. rewrite Hsh, (wrap_uint32_small n) by lia.
  replace (n >? 0) with true by (symmetry; apply Z.gtb_lt; lia).
  cbn [DCHECK].
  unfold BitReader.GetBool.
  cbn [BitReader.buffer BitReader.byte_offset BitReader.bit_offset].
  assert (Hb : BitReader.buffer (RleDecoder.bit_reader_ d)
               !! (BitReader.aligned_offset (RleDecoder.bit_reader_ d)
                   + length (vlq_bytes (2 * n)))%nat
               = Some (bool_to_Z v)).
  { rewrite <- lookup_drop, Hdrop. apply list_lookup_middle. reflexivity. }
  rewrite Hb. cbn [Nat.eqb].
  unfold RleDecoder.set_reader, RleDecoder.set_current_value,
    RleDecoder.set_repeat_count.
  dec_fields. rewrite Hlc. destruct v; reflexivity.
Qed.

Lemma ReadHeader_literal_run
    (d : RleDecoder.t) (lits rest : list Z) :
  RleDecoder.repeat_count_ d = 0 ->
  RleDecoder.literal_count_ d = 0 ->
  drop (BitReader.aligned_offset (RleDecoder.bit_reader_ d))
       (BitReader.buffer (RleDecoder.bit_reader_ d))
  = (2 * Z.of_nat (length lits) + 1) :: lits ++ rest ->
  (1 <= length lits <= 63)%nat ->
  RleDecoder.ReadHeader d
  = Some (true,
          RleDecoder.mk
            (BitReader.mk (BitReader.buffer (RleDecoder.bit_reader_ d))
               (BitReader.aligned_offset (RleDecoder.bit_reader_ d) + 1) 0)
            (RleDecoder.current_value_ d) 0
            (8 * Z.of_nat (length lits))).
Proof.
  intros Hrc Hlc Hdrop Hg.
  set (g := Z.of_nat (length lits)) in *.
  assert (Hgr : 1 <= g <= 63) by (subst g; lia).
  unfold RleDecoder.ReadHeader, BitReader.GetVlqInt.
  rewrite Hrc, Hlc, Hdrop. cbn [Z.eqb andb BitReader.vlq_decode].
  assert (Hlow : Z.land (2 * g + 1) 127 = 2 * g + 1).
  { change 127 with (Z.ones 7). rewrite Z.land_ones, Z.mod_small by lia.
    reflexivity. }
  assert (Hhigh : Z.land (2 * g + 1) 128 = 0).
  { rewrite <- Hlow. apply land_low_high. }
  rewrite Hhigh, Hlow. cbn [Z.eqb]. rewrite Z.shiftl_0_r, Z.lor_0_l.
  cbv zeta. rewrite (wrap_int32_small (2 * g + 1)) by lia.
  assert (Hbit : Z.land (2 * g + 1) 1 = 1).
  { change 1 with (Z.ones 1) at 2. rewrite Z.land_ones by lia.
    change (2 ^ 1) with 2. lia. }
  rewrite Hbit. cbn [Z_to_bool Z.eqb negb].
  assert (Hsh : Z.shiftr (2 * g + 1) 1 = g).
  { rewrite Z.shiftr_div_pow2 by lia. change (2 ^ 1) with 2. lia. }
  dec_fields. rewrite Hsh.
  rewrite (wrap_int32_small (g * 8)), (wrap_uint32_small (g * 8)) by lia.
  replace (g * 8 >? 0) with true by (symmetry; apply Z.gtb_lt; lia).
  cbn [DCHECK]. unfold RleDecoder.set_literal_count, RleDecoder.set_reader.
  dec_fields. rewrite Hrc. do 3 f_equal; lia.
Qed.

Lemma drop_past_middle {A : Type} (a : list A) (x : A) (r : list A) :
  drop (S (length a)) (a ++ x :: r) = r.
Proof. induction a as [|y a IH]; simpl; [apply drop_0 | exact IH]. Qed.

(** A decoder between runs, at a byte boundary from which the buffer holds a
    stream, decodes the values of the stream. *)
Lemma Stream_Decodes (bytes : list Z) (vs : list bool) :
  Stream bytes vs ->
  forall d : RleDecoder.t,
    RleDecoder.repeat_count_ d = 0 ->
    RleDecoder.literal_count_ d = 0 ->
    reader_ok (RleDecoder.bit_reader_ d) ->
    drop (BitReader.aligned_offset (RleDecoder.bit_reader_ d))
         (BitReader.buffer (RleDecoder.bit_reader_ d)) = bytes ->
    Decodes d vs.
Proof.
  induction 1 as [| n v bytes vs Hn HS IH | lits bytes vs Hg HS IH];
    intros d Hrc Hlc Hok Hdrop.
  - apply (Decodes_end d d false false).
    unfold RleDecoder.Get, RleDecoder.ReadHeader, BitReader.GetVlqInt.
    rewrite Hrc, Hlc, Hdrop. reflexivity.
  - pose proof (ReadHeader_repeated_run d n v bytes Hrc Hlc Hdrop Hn) as HR.
    eapply Decodes_header_inv; [apply idle_wf; assumption | exact HR |].
    apply (Decodes_repeat (Z.to_nat n)); dec_fields; try lia.
    apply IH; dec_fields; try reflexivity.
    + unfold reader_ok. simpl. lia.
    + cbn [BitReader.aligned_offset BitReader.bit_offset BitReader.byte_offset
           BitReader.buffer].
      replace (S (BitReader.aligned_offset (RleDecoder.bit_reader_ d)
                  + length (vlq_bytes (2 * n))))
        with (BitReader.aligned_offset (RleDecoder.bit_reader_ d)
              + S (length (vlq_bytes (2 * n))))%nat by lia.
      rewrite <- drop_drop, Hdrop. apply drop_past_middle.
  - pose proof (ReadHeader_literal_run d lits bytes Hrc Hlc Hdrop Hg) as HR.
    eapply Decodes_header_inv; [apply idle_wf; assumption | exact HR |].
    apply (Decodes_literal_bytes lits _ bytes); try lia.
    + rewrite <- drop_drop, Hdrop. reflexivity.
    + rewrite Z.sub_diag. apply IH; dec_fields; try reflexivity.
      * unfold reader_ok. simpl. lia.
      * cbn [BitReader.aligned_offset BitReader.bit_offset
             BitReader.byte_offset BitReader.buffer].
        rewrite <- Nat.add_assoc, <- drop_drop, Hdrop.
        change (1 + length lits)%nat with (S (length lits)).
        cbn [drop]. apply drop_app_length.
Qed.

(** The decoder reads what the wire format says. *)
Lemma Stream_new_Decodes (bytes : list Z) (vs : list bool) :
  Stream bytes vs -> Decodes (RleDecoder.new bytes) vs.
Proof.
  intros HS. apply (Stream_Decodes bytes vs HS); try reflexivity.
  unfold reader_ok. simpl. lia.
Qed.

(** ** What the encoder writes *)

Lemma insert_middle {A : Type} (a : list A) (x y : A) (r : list A) :
  <[length a := y]> (a ++ x :: r) = a ++ y :: r.
Proof. induction a as [|z a IH]; simpl; [reflexivity | rewrite IH; reflexivity]. Qed.

Lemma PutBool_partial (l : list Z) (x : Z) (i : nat) (b : bool) :
  (1 <= i)%nat ->
  BitWriter.PutBool b (BitWriter.mk (l ++ [x]) i)
  = BitWriter.mk (l ++ [Z.lor x (Z.shiftl (bool_to_Z b) (Z.of_nat i))])
                 (if (i =? 7)%nat then 0 else S i).
Proof.
  intros Hi. unfold BitWriter.PutBool.
  cbn [BitWriter.bit_offset BitWriter.buffer].
  destruct i as [|i]; [lia|].
  rewrite length_app. cbn [length].
  replace (length l + 1 - 1)%nat with (length l) by lia.
  rewrite list_lookup_middle by reflexivity. simpl default.
  rewrite insert_middle. reflexivity.
Qed.

Lemma PutBools_partial (bs : list bool) :
  forall (l : list Z) (x : Z) (i : nat),
    (1 <= i <= 7)%nat -> (i + length bs <= 8)%nat ->
    PutBools bs (BitWriter.mk (l ++ [x]) i)
    = BitWriter.mk (l ++ [pack_from i x bs]) ((i + length bs) mod 8).
Proof.
  induction bs as [|b bs IH]; intros l x i Hi Hlen; cbn [length] in *.
  - unfold PutBools. cbn [fold_left pack_from].
    rewrite Nat.add_0_r, Nat.mod_small by lia. reflexivity.
  - unfold PutBools in *. cbn [fold_left pack_from].
    rewrite PutBool_partial by lia.
    destruct (Nat.eqb_spec i 7) as [->|Hne].
    + destruct bs; [|cbn [length] in Hlen; lia]. reflexivity.
    + rewrite IH by lia. f_equal. f_equal. lia.
Qed.

Lemma PutBools_aligned (bs : list bool) (l : list Z) :
  (1 <= length bs <= 8)%nat ->
  PutBools bs (BitWriter.mk l 0)
  = BitWriter.mk (l ++ [pack bs]) (length bs mod 8).
Proof.
  intros Hlen. destruct bs as [|b bs]; [simpl in Hlen; lia|].
  unfold PutBools. cbn [fold_left]. unfold BitWriter.PutBool at 2.
  cbn [BitWriter.bit_offset BitWriter.buffer].
  fold (PutBools bs (BitWriter.mk (l ++ [bool_to_Z b]) 1)).
  simpl in Hlen. rewrite PutBools_partial by lia. reflexivity.
Qed.

Ltac each_bit_list n bs Hlen :=
  lazymatch n with
  | O => exfalso; cbn [length] in Hlen; lia
  | S ?m =>
      destruct bs as [|[] bs];
      [reflexivity | each_bit_list m bs Hlen | each_bit_list m bs Hlen]
  end.

Lemma byte_bits_pack (bs : list bool) :
  (length bs <= 8)%nat ->
  byte_bits (pack bs) = bs ++ repeat false (8 - length bs).
Proof. intros Hlen. each_bit_list 9%nat bs Hlen. Qed.

Lemma fold_left_map_arg {A B C : Type} (f : A -> C -> A) (g : B -> C)
    (l : list B) (a : A) :
  fold_left (fun a x => f a (g x)) l a = fold_left f (map g l) a.
Proof. revert a. induction l as [|x l IH]; intros a; simpl; auto. Qed.

Lemma Z_to_bool_of_bool (b : bool) : Z_to_bool (bool_to_Z b) = b.
Proof. destruct b; reflexivity. Qed.

Lemma wrap_uint8_bool (b : bool) : wrap_uint8 (bool_to_Z b) = bool_to_Z b.
Proof. destruct b; reflexivity. Qed.

(** Storing a value in the next free cell of the lookahead adds it to the
    values held. *)
Lemma lookahead_store (e : RleEncoder.t) (v : bool) :
  0 <= RleEncoder.num_buffered_values_ e ->
  (Z.to_nat (RleEncoder.num_buffered_values_ e)
   < length (RleEncoder.buffered_values_ e))%nat ->
  lookahead
    (RleEncoder.set_num_buffered_values (RleEncoder.num_buffered_values_ e + 1)
       (RleEncoder.set_buffered_values
          (<[Z.to_nat (RleEncoder.num_buffered_values_ e) := bool_to_Z v]>
             (RleEncoder.buffered_values_ e)) e))
  = lookahead e ++ [v].
Proof.
  intros Hnb Hlen. unfold lookahead. enc_fields.
  replace (Z.to_nat (RleEncoder.num_buffered_values_ e + 1))
    with (S (Z.to_nat (RleEncoder.num_buffered_values_ e))) by lia.
  rewrite seq_S, map_app. cbn [map Nat.add]. f_equal.
  - apply map_ext_in. intros i Hi. apply in_seq in Hi.
    rewrite list_lookup_insert_ne by lia. reflexivity.
  - rewrite list_lookup_insert_eq by lia. simpl.
    rewrite Z_to_bool_of_bool. reflexivity.
Qed.

Lemma lookahead_length (e : RleEncoder.t) :
  length (lookahead e) = Z.to_nat (RleEncoder.num_buffered_values_ e).
Proof. unfold lookahead. rewrite length_map, length_seq. reflexivity. Qed.

Lemma Stream_app (a : list Z) (va : list bool) :
  Stream a va ->
  forall (b : list Z) (vb : list bool),
    Stream b vb -> Stream (a ++ b) (va ++ vb).
Proof.
  induction 1 as [| n v bytes vs Hn HS IH | lits bytes vs Hg HS IH];
    intros b vb Hb.
  - exact Hb.
  - rewrite <- !app_assoc, <- app_comm_cons.
    apply Stream_repeated; [exact Hn | apply IH; exact Hb].
  - rewrite <- app_comm_cons, <- !app_assoc.
    apply Stream_literal; [exact Hg | apply IH; exact Hb].
Qed.

Lemma indicator_value_odd (g : Z) : 0 <= g -> Z.lor (Z.shiftl g 1) 1 = 2 * g + 1.
Proof.
  intros Hg. rewrite Z.shiftl_mul_pow2 by lia. change (2 ^ 1) with 2.
  assert (H : Z.land (g * 2) 1 = 0).
  { change 1 with (Z.ones 1). rewrite Z.land_ones by lia.
    change (2 ^ 1) with 2. lia. }
  rewrite <- Z.lxor_lor, <- Z.add_nocarry_lxor by exact H. lia.
Qed.

(** [FlushLiteralRun] on an encoder whose output is closed runs followed by
    an open literal run (or none). *)
Lemma FlushLiteralRun_spec
    (u : bool) (e : RleEncoder.t) (closed lits : list Z) :
  RleEncoder.bit_writer_ e
  = BitWriter.mk
      (closed ++ open_run (RleEncoder.literal_indicator_byte_ e) lits) 0 ->
  (RleEncoder.literal_indicator_byte_ e < 0 -> lits = []) ->
  (0 <= RleEncoder.literal_indicator_byte_ e ->
   RleEncoder.literal_indicator_byte_ e = Z.of_nat (length closed)) ->
  Z.of_nat (length closed) < 2 ^ 31 ->
  0 <= RleEncoder.num_buffered_values_ e <= 8 ->
  let lits' :=
    lits ++ (if RleEncoder.num_buffered_values_ e =? 0 then []
             else [pack (lookahead e)]) in
  let num_groups := wrap_int32 (BitmapSize (RleEncoder.literal_count_ e)) in
  RleEncoder.FlushLiteralRun u e
  = RleEncoder.mk
      (BitWriter.mk
         (closed
          ++ (if u
              then wrap_uint8 (wrap_uint32 (Z.lor (Z.shiftl num_groups 1) 1))
              else 0) :: lits')
         (Z.to_nat (RleEncoder.num_buffered_values_ e) mod 8))
      (RleEncoder.buffered_values_ e) 0 (RleEncoder.current_value_ e)
      (RleEncoder.repeat_count_ e)
      (if u then 0 else RleEncoder.literal_count_ e)
      (if u then -1 else Z.of_nat (length closed))
      (if u then num_groups :: RleEncoder.indicator_groups_ e
       else RleEncoder.indicator_groups_ e).
Proof.
  intros Hw Hneg Hpos Hfit Hnb. cbv zeta.
  unfold RleEncoder.FlushLiteralRun, BitWriter.GetByteIndexAndAdvance.
  (* the writer once the indicator is reserved *)
  assert (Hres :
    exists ind',
      (if RleEncoder.literal_indicator_byte_ e <? 0
       then RleEncoder.set_literal_indicator_byte
              (wrap_int32 (Z.of_nat (length (BitWriter.buffer
                                               (RleEncoder.bit_writer_ e)))))
              (RleEncoder.set_bit_writer
                 (BitWriter.mk
                    (BitWriter.buffer (RleEncoder.bit_writer_ e) ++ [0]) 0) e)
       else e)
      = RleEncoder.set_literal_indicator_byte ind'
          (RleEncoder.set_bit_writer
             (BitWriter.mk (closed ++ 0 :: lits) 0) e)
      /\ ind' = Z.of_nat (length closed)).
  { exists (Z.of_nat (length closed)). split; [|reflexivity].
    unfold open_run in Hw.
    destruct (Z.ltb_spec (RleEncoder.literal_indicator_byte_ e) 0) as [Hlt|Hge].
    - rewrite (Hneg Hlt) in *. rewrite Hw. cbn [BitWriter.buffer].
      rewrite app_nil_r, wrap_int32_small by lia. reflexivity.
    - rewrite <- (Hpos Hge). destruct e. cbn in *. rewrite Hw. reflexivity. }
  destruct Hres as (ind' & -> & ->). enc_fields.
  rewrite (fold_left_map_arg (fun w b => BitWriter.PutBool b w)
             (fun i => Z_to_bool (default 0 (RleEncoder.buffered_values_ e !! i)))).
  fold (lookahead e). fold (PutBools (lookahead e) (BitWriter.mk (closed ++ 0 :: lits) 0)).
  assert (Hput :
    PutBools (lookahead e) (BitWriter.mk (closed ++ 0 :: lits) 0)
    = BitWriter.mk
        (closed ++ 0 :: lits
         ++ (if RleEncoder.num_buffered_values_ e =? 0 then []
             else [pack (lookahead e)]))
        (Z.to_nat (RleEncoder.num_buffered_values_ e) mod 8)).
  { pose proof (lookahead_length e) as Hlen.
    destruct (Z.eqb_spec (RleEncoder.num_buffered_values_ e) 0) as [Hz|Hz].
    - rewrite Hz in *. destruct (lookahead e); [|simpl in Hlen; lia].
      rewrite app_nil_r. reflexivity.
    - rewrite PutBools_aligned by lia. rewrite Hlen.
      rewrite <- app_assoc. reflexivity. }
  rewrite Hput. clear Hput.
  destruct u.
  - unfold RleEncoder.store_byte. enc_fields. cbn [BitWriter.buffer BitWriter.bit_offset].
    replace ((0 <=? Z.of_nat (length closed))
             && (Z.of_nat (length closed)
                 <? Z.of_nat (length (closed ++ 0 :: lits
                     ++ (if RleEncoder.num_buffered_values_ e =? 0 then []
                         else [pack (lookahead e)])))))
      with true.
    2:{ symmetry. apply andb_true_iff. split.
        - apply Z.leb_le. lia.
        - apply Z.ltb_lt. rewrite length_app. cbn [length]. lia. }
    rewrite Nat2Z.id, insert_middle. reflexivity.
  - reflexivity.
Qed.

Lemma FlushRepeatedRun_spec (e : RleEncoder.t) :
  0 < RleEncoder.repeat_count_ e < 2 ^ 30 ->
  RleEncoder.FlushRepeatedRun e
  = RleEncoder.mk
      (BitWriter.mk
         (BitWriter.buffer (RleEncoder.bit_writer_ e)
          ++ vlq_bytes (2 * RleEncoder.repeat_count_ e)
          ++ [bool_to_Z (RleEncoder.current_value_ e)]) 0)
      (RleEncoder.buffered_values_ e) 0 (RleEncoder.current_value_ e) 0
      (RleEncoder.literal_count_ e) (RleEncoder.literal_indicator_byte_ e)
      (RleEncoder.indicator_groups_ e).
Proof.
  intros Hrc. unfold RleEncoder.FlushRepeatedRun. cbv zeta.
  rewrite shiftl_1_double, wrap_int32_small by lia.
  rewrite PutVlqInt_buffer. unfold BitWriter.PutAligned.
  cbn [BitWriter.buffer]. rewrite wrap_uint8_bool, <- app_assoc.
  reflexivity.
Qed.

(** ** The encoder invariant *)

Lemma new_encoder_inv : encoder_inv (RleEncoder.new []) [].
Proof.
  exists [], [], []. unfold encoder_output. cbn.
  conj_split; try lia; try constructor; try reflexivity; try (intros; lia).
  intros _. exists []. reflexivity.
Qed.

Lemma bytes_bits_app (a b : list Z) :
  bytes_bits (a ++ b) = bytes_bits a ++ bytes_bits b.
Proof. unfold bytes_bits. rewrite map_app, concat_app. reflexivity. Qed.

Lemma bytes_bits_length (a : list Z) :
  length (bytes_bits a) = (8 * length a)%nat.
Proof.
  induction a as [|x a IH]; [reflexivity|].
  unfold bytes_bits in *. cbn [map concat]. rewrite length_app, IH.
  unfold byte_bits. rewrite length_map, length_seq. simpl. lia.
Qed.

Lemma repeat_snoc {A : Type} (x : A) (n : nat) :
  repeat x n ++ [x] = repeat x (S n).
Proof. induction n as [|n IH]; simpl; [reflexivity | rewrite IH; reflexivity]. Qed.

(** Closing the open literal run turns it into one more run of the
    stream. *)
Lemma Stream_close_literal
    (closed : list Z) (closed_vs : list bool) (lits : list Z) :
  Stream closed closed_vs ->
  (1 <= length lits <= 63)%nat ->
  Stream (closed ++ (2 * Z.of_nat (length lits) + 1) :: lits)
         (closed_vs ++ bytes_bits lits).
Proof.
  intros HS Hg. apply Stream_app; [exact HS|].
  rewrite <- (app_nil_r lits) at 2. rewrite <- (app_nil_r (bytes_bits lits)).
  apply Stream_literal; [exact Hg | constructor].
Qed.

Lemma Stream_close_repeated
    (closed : list Z) (closed_vs : list bool) (n : Z) (v : bool) :
  Stream closed closed_vs ->
  0 < n < 2 ^ 30 ->
  Stream (closed ++ vlq_bytes (2 * n) ++ [bool_to_Z v])
         (closed_vs ++ repeat v (Z.to_nat n)).
Proof.
  intros HS Hn. apply Stream_app; [exact HS|].
  rewrite <- (app_nil_r (repeat v (Z.to_nat n))).
  apply Stream_repeated; [exact Hn | constructor].
Qed.

Lemma literal_indicator_byte (g : Z) :
  1 <= g <= 63 ->
  wrap_uint8 (wrap_uint32 (Z.lor (Z.shiftl (wrap_int32 g) 1) 1)) = 2 * g + 1.
Proof.
  intros Hg. rewrite wrap_int32_small by lia.
  rewrite indicator_value_odd by lia.
  rewrite wrap_uint32_small by lia. unfold wrap_uint8.
  apply Z.mod_small. lia.
Qed.

Lemma BitmapSize_groups (g : Z) : BitmapSize (8 * g) = g.
Proof. unfold BitmapSize. lia. Qed.

Lemma BitmapSize_partial_group (g n : Z) :
  0 < n < 8 -> BitmapSize (8 * g + n) = g + 1.
Proof. intros Hn. unfold BitmapSize. lia. Qed.

Lemma byte_bits_pack_full (bs : list bool) :
  length bs = 8%nat -> byte_bits (pack bs) = bs.
Proof.
  intros Hlen. rewrite byte_bits_pack by lia. rewrite Hlen. simpl.
  apply app_nil_r.
Qed.

Lemma bytes_bits_snoc (lits : list Z) (bs : list bool) :
  (length bs <= 8)%nat ->
  bytes_bits (lits ++ [pack bs])
  = bytes_bits lits ++ bs ++ repeat false (8 - length bs).
Proof.
  intros Hlen. rewrite bytes_bits_app. unfold bytes_bits at 2.
  cbn [map concat]. rewrite byte_bits_pack, app_nil_r by lia. reflexivity.
Qed.

Lemma open_run_none (lits : list Z) : open_run (-1) lits = [].
Proof. reflexivity. Qed.

Lemma open_run_some (n : nat) (lits : list Z) :
  open_run (Z.of_nat n) lits = 0 :: lits.
Proof.
  unfold open_run. destruct (Z.ltb_spec (Z.of_nat n) 0); [lia | reflexivity].
Qed.

Ltac list_lengths :=
  repeat first [rewrite length_app | rewrite bytes_bits_length
               | rewrite repeat_length | progress cbn [length]];
  lia.

Lemma lookahead_empty (e : RleEncoder.t) :
  RleEncoder.num_buffered_values_ e = 0 -> lookahead e = [].
Proof. intros H. unfold lookahead. rewrite H. reflexivity. Qed.

Ltac inv_side :=
  try assumption; try lia; try (intros; lia); try (cbn [length]; lia);
  try (split; intros; first [lia | reflexivity | discriminate]);
  try (intros _; exists []; reflexivity).

(** The lookahead is full: it either joins a repeated run or goes out as one
    more literal group. *)
Lemma FlushBufferedValues_inv
    (e : RleEncoder.t) (closed : list Z) (closed_vs : list bool)
    (lits : list Z) :
  encoder_output e closed closed_vs lits ->
  RleEncoder.num_buffered_values_ e = 8 ->
  0 <= RleEncoder.repeat_count_ e <= 8 ->
  (RleEncoder.repeat_count_ e = 8 ->
   lookahead e = repeat (RleEncoder.current_value_ e) 8) ->
  Z.of_nat (length closed_vs) < 2 ^ 30 ->
  encoder_inv (RleEncoder.FlushBufferedValues false e)
              (closed_vs ++ bytes_bits lits ++ lookahead e).
Proof.
  intros (HS & Hbytes & Hw & Hbv & Hind & Hidx & Hlc & Hlits) Hnb Hrc Hall Hfit.
  pose proof (lookahead_length e) as Hla. rewrite Hnb in Hla.
  unfold RleEncoder.FlushBufferedValues.
  destruct (Z.geb_spec (RleEncoder.repeat_count_ e) 8) as [Hge|Hlt].
  - (* the eight values join a repeated run *)
    assert (Hrc8 : RleEncoder.repeat_count_ e = 8) by lia.
    cbv zeta. enc_fields.
    destruct (Z.eqb_spec (RleEncoder.literal_count_ e) 0) as [Hz|Hnz];
      cbn [negb].
    + assert (Hnil : lits = []) by (destruct lits; [reflexivity|simpl in *; lia]).
      subst lits.
      exists closed, closed_vs, []. unfold encoder_output, pending_values.
      enc_fields. rewrite Hrc8. cbn [Z.leb Z.compare Pos.compare Pos.compare_cont].
      rewrite (Hall Hrc8).
      conj_split; inv_side.
    + assert (Hg : (1 <= length lits <= 62)%nat) by lia.
      rewrite (FlushLiteralRun_spec true _ closed lits); enc_fields;
        try assumption; try lia.
      2:{ intros Hneg. apply Hind. exact Hneg. }
      change (0 =? 0) with true. cbv zeta. rewrite app_nil_r.
      rewrite Hlc, BitmapSize_groups, literal_indicator_byte by lia.
      exists (closed ++ (2 * Z.of_nat (length lits) + 1) :: lits),
        (closed_vs ++ bytes_bits lits), [].
      unfold encoder_output, pending_values. enc_fields.
      rewrite Hrc8. cbn [Z.leb Z.compare Pos.compare Pos.compare_cont].
      rewrite open_run_none, app_nil_r, (Hall Hrc8).
      conj_split; inv_side.
      * apply Stream_close_literal; [exact HS | lia].
      * list_lengths.
      * rewrite <- app_assoc. reflexivity.
  - (* the eight values are one more literal group *)
    cbv zeta. enc_fields. rewrite Hnb.
    rewrite (wrap_int32_small (RleEncoder.literal_count_ e + 8)) by lia.
    replace (RleEncoder.literal_count_ e + 8)
      with (8 * (Z.of_nat (length lits) + 1)) by lia.
    rewrite BitmapSize_groups, wrap_int32_small by lia.
    set (e1 := RleEncoder.set_literal_count _ e).
    assert (Hspec := fun u =>
      FlushLiteralRun_spec u e1 closed lits Hw
        (fun H => proj1 Hind H) Hidx ltac:(lia) ltac:(subst e1; enc_fields; lia)).
    cbv zeta in Hspec.
    assert (Hla1 : lookahead e1 = lookahead e) by reflexivity.
    assert (Hnb1 : RleEncoder.num_buffered_values_ e1 = 8) by exact Hnb.
    assert (Hlc1 : RleEncoder.literal_count_ e1
                   = 8 * (Z.of_nat (length lits) + 1)) by reflexivity.
    rewrite Hla1, Hnb1, Hlc1 in Hspec.
    change (8 =? 0) with false in Hspec.
    change (Z.to_nat 8 mod 8)%nat with 0%nat in Hspec.
    rewrite BitmapSize_groups in Hspec.
    destruct (Z.geb_spec (Z.of_nat (length lits) + 1 + 1) 64) as [Hfull|Hroom].
    + rewrite (Hspec true). rewrite literal_indicator_byte by lia.
      exists (closed ++ (2 * Z.of_nat (length (lits ++ [pack (lookahead e)])) + 1)
                       :: lits ++ [pack (lookahead e)]),
        (closed_vs ++ bytes_bits (lits ++ [pack (lookahead e)])), [].
      unfold encoder_output, pending_values. enc_fields.
      change (8 <=? 0) with false.
      rewrite open_run_none, app_nil_r.
      rewrite length_app. cbn [length].
      replace (Z.of_nat (length lits + 1)) with (Z.of_nat (length lits) + 1)
        by lia.
      conj_split; inv_side.
      * replace (Z.of_nat (length lits) + 1)
          with (Z.of_nat (length (lits ++ [pack (lookahead e)]))).
        -- apply Stream_close_literal; [exact HS|].
           rewrite length_app. cbn [length]. lia.
        -- rewrite length_app. cbn [length]. lia.
      * list_lengths.
      * rewrite (lookahead_empty (RleEncoder.set_repeat_count 0 _))
          by reflexivity.
        rewrite bytes_bits_snoc, Hla by lia.
        change (bytes_bits []) with (@nil bool). cbn [Nat.sub Z.to_nat repeat].
        rewrite ?app_nil_r, <- ?app_assoc. reflexivity.
    + rewrite (Hspec false).
      exists closed, closed_vs, (lits ++ [pack (lookahead e)]).
      unfold encoder_output, pending_values. enc_fields.
      change (8 <=? 0) with false.
      rewrite open_run_some.
      rewrite length_app. cbn [length].
      conj_split; inv_side.
      * split; [lia|]. intros Habs. destruct lits; discriminate Habs.
      * rewrite (lookahead_empty (RleEncoder.set_repeat_count 0 _))
          by reflexivity.
        rewrite bytes_bits_snoc, Hla by lia.
        cbn [Nat.sub Z.to_nat repeat].
        rewrite ?app_nil_r, <- ?app_assoc. reflexivity.
Qed.

Lemma Put_buffer_inv
    (v : bool) (e : RleEncoder.t) (closed : list Z) (closed_vs : list bool)
    (lits : list Z) :
  encoder_output e closed closed_vs lits ->
  0 <= RleEncoder.num_buffered_values_ e < 8 ->
  1 <= RleEncoder.repeat_count_ e <= 8 ->
  RleEncoder.current_value_ e = v ->
  (exists pre,
      lookahead e ++ [v]
      = pre ++ repeat v (Z.to_nat (RleEncoder.repeat_count_ e))) ->
  Z.of_nat (length closed_vs) < 2 ^ 30 ->
  encoder_inv (RleEncoder.Put_buffer v e)
              (closed_vs ++ bytes_bits lits ++ lookahead e ++ [v]).
Proof.
  intros Hout Hnb Hrc Hcv (pre & Hpre) Hfit.
  unfold RleEncoder.Put_buffer. cbv zeta. enc_fields.
  rewrite (wrap_int32_small (RleEncoder.num_buffered_values_ e + 1)) by lia.
  set (e1 := RleEncoder.set_num_buffered_values _ _).
  destruct Hout as (HS & Hbytes & Hw & Hbv & Hind & Hidx & Hlc & Hlits).
  assert (Hla1 : lookahead e1 = lookahead e ++ [v]).
  { subst e1. apply lookahead_store; lia. }
  assert (Hout1 : encoder_output e1 closed closed_vs lits).
  { subst e1. unfold encoder_output. enc_fields.
    rewrite length_insert. conj_split; assumption. }
  pose proof (lookahead_length e) as Hlen.
  assert (Hlen1 : length (lookahead e1)
                  = S (Z.to_nat (RleEncoder.num_buffered_values_ e))).
  { rewrite Hla1, length_app, Hlen. simpl. lia. }
  assert (Hpre_len : (length pre + Z.to_nat (RleEncoder.repeat_count_ e)
                      = S (Z.to_nat (RleEncoder.num_buffered_values_ e)))%nat).
  { rewrite <- Hlen1, Hla1, Hpre, length_app, repeat_length. reflexivity. }
  destruct (Z.eqb_spec (RleEncoder.num_buffered_values_ e + 1) 8) as [H8|Hn8].
  - rewrite <- Hla1.
    apply (FlushBufferedValues_inv e1 closed closed_vs lits);
      [exact Hout1 | exact H8 | subst e1; enc_fields; lia | | exact Hfit].
    subst e1. enc_fields. intros Hrc8.
    rewrite Hla1, Hpre, Hcv, Hrc8. rewrite Hrc8 in Hpre_len.
    destruct pre as [|x pre]; [reflexivity|]. simpl in Hpre_len. lia.
  - exists closed, closed_vs, lits.
    unfold pending_values.
    assert (Hrc1 : RleEncoder.repeat_count_ e1 = RleEncoder.repeat_count_ e)
      by reflexivity.
    assert (Hcv1 : RleEncoder.current_value_ e1 = v) by exact Hcv.
    assert (Hnb1 : RleEncoder.num_buffered_values_ e1
                   = RleEncoder.num_buffered_values_ e + 1) by reflexivity.
    rewrite Hrc1, Hcv1, Hnb1, Hla1.
    destruct (Z.leb_spec 8 (RleEncoder.repeat_count_ e)) as [Hge|Hlt]; [lia|].
    conj_split; try assumption; try lia.
    intros _. exists pre. exact Hpre.
Qed.

Lemma pending_values_length (e : RleEncoder.t) :
  8 <= RleEncoder.repeat_count_ e ->
  length (pending_values e) = Z.to_nat (RleEncoder.repeat_count_ e).
Proof.
  intros H. unfold pending_values.
  destruct (Z.leb_spec 8 (RleEncoder.repeat_count_ e)); [|lia].
  apply repeat_length.
Qed.

(** One value more: [Put_value] keeps the invariant. *)
Lemma Put_value_inv (v : bool) (e : RleEncoder.t) (vs : list bool) :
  encoder_inv e vs ->
  Z.of_nat (length vs) + 1 < 2 ^ 30 ->
  encoder_inv (RleEncoder.Put_value v e) (vs ++ [v]).
Proof.
  intros (closed & closed_vs & lits & Hout & Hnb & Hrc0 & Hrun & Hla & Hvs) Hfit.
  assert (Hcl : Z.of_nat (length closed_vs) <= Z.of_nat (length vs)).
  { rewrite Hvs, length_app. lia. }
  assert (Hrcfit : RleEncoder.repeat_count_ e <= Z.of_nat (length vs) \/
                   RleEncoder.repeat_count_ e < 8).
  { destruct (Z.le_gt_cases 8 (RleEncoder.repeat_count_ e)) as [Hge|Hlt];
      [left|right; lia].
    rewrite Hvs, !length_app, pending_values_length by lia. lia. }
  unfold RleEncoder.Put_value. cbv zeta.
  destruct (Bool.eqb (RleEncoder.current_value_ e) v) eqn:Heq.
  - apply Bool.eqb_prop in Heq. enc_fields.
    rewrite (wrap_int32_small (RleEncoder.repeat_count_ e + 1)) by lia.
    destruct (Z.gtb_spec (RleEncoder.repeat_count_ e + 1) 8) as [Hfast|Hslow].
    + (* the run only grows *)
      destruct (Hrun ltac:(lia)) as (Hnb0 & Hlits0).
      exists closed, closed_vs, lits.
      unfold pending_values in *. enc_fields.
      destruct (Z.leb_spec 8 (RleEncoder.repeat_count_ e)) as [_|]; [|lia].
      destruct (Z.leb_spec 8 (RleEncoder.repeat_count_ e + 1)) as [_|]; [|lia].
      conj_split; try assumption; try lia.
      * intros _. auto.
      * rewrite Hvs, Heq.
        replace (Z.to_nat (RleEncoder.repeat_count_ e + 1))
          with (S (Z.to_nat (RleEncoder.repeat_count_ e))) by lia.
        rewrite <- repeat_snoc, <- !app_assoc. reflexivity.
    + destruct (Hla ltac:(lia)) as (pre & Hpre).
      unfold pending_values in Hvs.
      destruct (Z.leb_spec 8 (RleEncoder.repeat_count_ e)) as [|_]; [lia|].
      rewrite Hvs, <- !app_assoc.
      apply (Put_buffer_inv v (RleEncoder.set_repeat_count _ e)
               closed closed_vs lits);
        enc_fields; try assumption; try lia.
      exists pre. change (lookahead (RleEncoder.set_repeat_count
                                       (RleEncoder.repeat_count_ e + 1) e))
                    with (lookahead e).
      rewrite Hpre, Heq.
      replace (Z.to_nat (RleEncoder.repeat_count_ e + 1))
        with (S (Z.to_nat (RleEncoder.repeat_count_ e))) by lia.
      rewrite <- repeat_snoc, <- !app_assoc. reflexivity.
  - destruct (Z.geb_spec (RleEncoder.repeat_count_ e) 8) as [Hge|Hlt].
    + (* a repeated run ends *)
      destruct (Hrun Hge) as (Hnb0 & Hlits0). subst lits.
      destruct Hout as (HS & Hbytes & Hw & Hbv & Hind & Hidx & Hlc & Hlits).
      assert (Hneg : RleEncoder.literal_indicator_byte_ e < 0)
        by (apply Hind; reflexivity).
      rewrite FlushRepeatedRun_spec by lia.
      rewrite Hw. cbn [BitWriter.buffer].
      unfold open_run.
      destruct (Z.ltb_spec (RleEncoder.literal_indicator_byte_ e) 0); [|lia].
      rewrite app_nil_r.
      unfold pending_values in Hvs.
      destruct (Z.leb_spec 8 (RleEncoder.repeat_count_ e)) as [_|]; [|lia].
      change (bytes_bits []) with (@nil bool) in Hvs. cbn [app] in Hvs.
      pose proof (vlq_bytes_length (2 * RleEncoder.repeat_count_ e)
                    ltac:(lia)) as (Hvl & Hvlq).
      pose proof (vlq_len_small (2 * RleEncoder.repeat_count_ e)) as Hshort.
      rewrite <- Hvl in Hshort.
      set (closed' := closed ++ vlq_bytes (2 * RleEncoder.repeat_count_ e)
                      ++ [bool_to_Z (RleEncoder.current_value_ e)]).
      set (e2 := RleEncoder.set_current_value v _).
      assert (Hout2 : encoder_output e2 closed'
                        (closed_vs ++ repeat (RleEncoder.current_value_ e)
                                        (Z.to_nat (RleEncoder.repeat_count_ e)))
                        []).
      { subst e2 closed'. unfold encoder_output. enc_fields.
        unfold open_run.
        destruct (Z.ltb_spec (RleEncoder.literal_indicator_byte_ e) 0); [|lia].
        rewrite app_nil_r.
        conj_split; try assumption; try lia.
        - apply Stream_close_repeated; [exact HS | lia].
        - list_lengths. }
      assert (Hla2 : lookahead e2 = []) by reflexivity.
      pose proof (Put_buffer_inv v e2 closed' _ [] Hout2) as HP.
      rewrite Hla2 in HP. change (bytes_bits []) with (@nil bool) in HP.
      cbn [app] in HP. rewrite Hvs.
      apply HP; subst e2; enc_fields; try lia; try reflexivity.
      * exists []. reflexivity.
      * rewrite length_app, repeat_length.
        rewrite Hvs, length_app, repeat_length in Hfit. lia.
    + destruct (Hla ltac:(lia)) as (pre & Hpre).
      unfold pending_values in Hvs.
      destruct (Z.leb_spec 8 (RleEncoder.repeat_count_ e)) as [|_]; [lia|].
      rewrite Hvs, <- !app_assoc.
      apply (Put_buffer_inv v
               (RleEncoder.set_current_value v (RleEncoder.set_repeat_count 1 e))
               closed closed_vs lits);
        enc_fields; try assumption; try lia; try reflexivity.
      exists (lookahead e). reflexivity.
Qed.

(** [Flush] closes the pending run: the output is a stream, and it carries
    the values given, followed by fewer than 8 zeros when the last literal
    group was not full.  Every closed run but the last takes at most a byte
    for four values, the last one at most two bytes more. *)
Lemma Flush_Stream (e : RleEncoder.t) (vs : list bool) :
  encoder_inv e vs ->
  Z.of_nat (length vs) < 2 ^ 30 ->
  exists pad : nat,
    (pad < 8)%nat
    /\ Stream (RleEncoder.buffer (snd (RleEncoder.Flush e)))
              (vs ++ repeat false pad)
    /\ 4 * Z.of_nat (length (RleEncoder.buffer (snd (RleEncoder.Flush e))))
       <= Z.of_nat (length vs) + 7.
Proof.
  intros (closed & closed_vs & lits & Hout & Hnb & Hrc0 & Hrun & Hla & Hvs) Hfit.
  destruct Hout as (HS & Hbytes & Hw & Hbv & Hind & Hidx & Hlc & Hlits).
  assert (Hcl : Z.of_nat (length closed_vs) <= Z.of_nat (length vs)).
  { rewrite Hvs, length_app. lia. }
  pose proof (lookahead_length e) as Hlalen.
  unfold RleEncoder.Flush, RleEncoder.buffer, BitWriter.Finish. cbv zeta.
  destruct ((RleEncoder.literal_count_ e >? 0)
            || (RleEncoder.repeat_count_ e >? 0)
            || (RleEncoder.num_buffered_values_ e >? 0)) eqn:Hpending.
  2:{ (* nothing is pending *)
      Z_bools.
      assert (Hnil : lits = []) by (destruct lits; [reflexivity|simpl in *; lia]).
      subst lits.
      assert (Hneg : RleEncoder.literal_indicator_byte_ e < 0)
        by (apply Hind; reflexivity).
      exists 0%nat. split; [lia|]. enc_fields.
      rewrite Hw. cbn [BitWriter.buffer]. unfold open_run.
      destruct (Z.ltb_spec (RleEncoder.literal_indicator_byte_ e) 0); [|lia].
      split; [|rewrite app_nil_r; lia].
      rewrite Hvs. unfold pending_values.
      destruct (Z.leb_spec 8 (RleEncoder.repeat_count_ e)); [lia|].
      rewrite (lookahead_empty e) by lia.
      change (bytes_bits []) with (@nil bool). rewrite !app_nil_r. exact HS. }
  destruct ((RleEncoder.repeat_count_ e >? 0)
            && ((RleEncoder.literal_count_ e =? 0)
                && ((RleEncoder.repeat_count_ e
                     =? RleEncoder.num_buffered_values_ e)
                    || (RleEncoder.num_buffered_values_ e =? 0)))) eqn:Hrep.
  - (* everything pending is one repeated run *)
    Z_bools.
    assert (Hnil : lits = []) by (destruct lits; [reflexivity|simpl in *; lia]).
    subst lits.
    assert (Hneg : RleEncoder.literal_indicator_byte_ e < 0)
      by (apply Hind; reflexivity).
    assert (Hpend : pending_values e
                    = repeat (RleEncoder.current_value_ e)
                             (Z.to_nat (RleEncoder.repeat_count_ e))).
    { unfold pending_values.
      destruct (Z.leb_spec 8 (RleEncoder.repeat_count_ e)) as [|Hlt];
        [reflexivity|].
      destruct (Hla Hlt) as (pre & Hpre).
      assert (Hlen : (length pre + Z.to_nat (RleEncoder.repeat_count_ e)
                      = Z.to_nat (RleEncoder.num_buffered_values_ e))%nat).
      { rewrite <- Hlalen, Hpre, length_app, repeat_length. reflexivity. }
      destruct pre as [|x pre]; [exact Hpre|].
      simpl in Hlen. lia. }
    assert (Hrcfit : RleEncoder.repeat_count_ e < 2 ^ 30).
    { rewrite Hvs, Hpend, !length_app, repeat_length in Hfit. lia. }
    rewrite FlushRepeatedRun_spec by lia. enc_fields.
    rewrite Hw. cbn [BitWriter.buffer]. unfold open_run.
    destruct (Z.ltb_spec (RleEncoder.literal_indicator_byte_ e) 0); [|lia].
    exists 0%nat. split; [lia|].
    rewrite Hvs, Hpend. change (bytes_bits []) with (@nil bool).
    rewrite !app_nil_r. cbn [app].
    split; [apply Stream_close_repeated; [exact HS | lia]|].
    pose proof (vlq_bytes_length (2 * RleEncoder.repeat_count_ e)
                  ltac:(lia)) as (Hvl & Hvlq).
    pose proof (vlq_len_small (2 * RleEncoder.repeat_count_ e)) as Hshort.
    rewrite <- Hvl in Hshort.
    rewrite !length_app, repeat_length. cbn [length]. lia.
  - (* what is pending goes out as a literal run *)
    assert (Hlt : RleEncoder.repeat_count_ e < 8).
    { destruct (Z.lt_ge_cases (RleEncoder.repeat_count_ e) 8) as [|Hge];
        [assumption|].
      destruct (Hrun Hge) as (Hnb0 & ->). simpl in Hlc.
      rewrite Hnb0, Hlc in Hrep.
      replace (RleEncoder.repeat_count_ e >? 0) with true in Hrep
        by (symmetry; apply Z.gtb_lt; lia).
      cbn in Hrep. rewrite ?orb_true_r in Hrep. discriminate Hrep. }
    assert (Hsome : 0 < Z.of_nat (length lits)
                    \/ 0 < RleEncoder.num_buffered_values_ e).
    { destruct (Z.eq_dec (RleEncoder.num_buffered_values_ e) 0) as [Hz|];
        [|right; lia].
      left. destruct lits as [|x lits]; [|simpl; lia].
      simpl in Hlc. rewrite Hz, Hlc in Hrep, Hpending.
      destruct (RleEncoder.repeat_count_ e >? 0);
        cbn in Hrep, Hpending; rewrite ?orb_true_r in Hrep; discriminate. }
    rewrite (wrap_int32_small (RleEncoder.literal_count_ e
                               + RleEncoder.num_buffered_values_ e)) by lia.
    set (e1 := RleEncoder.set_literal_count _ e).
    pose proof (FlushLiteralRun_spec true e1 closed lits Hw
                  (fun H => proj1 Hind H) Hidx ltac:(lia)
                  ltac:(subst e1; enc_fields; lia)) as Hspec.
    cbv zeta in Hspec.
    assert (Hla1 : lookahead e1 = lookahead e) by reflexivity.
    assert (Hnb1 : RleEncoder.num_buffered_values_ e1
                   = RleEncoder.num_buffered_values_ e) by reflexivity.
    assert (Hlc1 : RleEncoder.literal_count_ e1
                   = 8 * Z.of_nat (length lits)
                     + RleEncoder.num_buffered_values_ e)
      by (subst e1; enc_fields; lia).
    rewrite Hla1, Hnb1, Hlc1 in Hspec. rewrite Hspec. enc_fields.
    cbn [BitWriter.buffer].
    rewrite Hvs. unfold pending_values.
    destruct (Z.leb_spec 8 (RleEncoder.repeat_count_ e)); [lia|].
    destruct (Z.eqb_spec (RleEncoder.num_buffered_values_ e) 0) as [Hz|Hnz].
    + exists 0%nat. split; [lia|].
      rewrite Hz, Z.add_0_r, BitmapSize_groups, literal_indicator_byte by lia.
      rewrite (lookahead_empty e) by lia. rewrite !app_nil_r.
      split; [apply Stream_close_literal; [exact HS | lia]|].
      list_lengths.
    + exists (8 - length (lookahead e))%nat. split; [lia|].
      rewrite BitmapSize_partial_group, literal_indicator_byte by lia.
      split; [|list_lengths].
      replace (Z.of_nat (length lits) + 1)
        with (Z.of_nat (length (lits ++ [pack (lookahead e)])))
        by (rewrite length_app; cbn [length]; lia).
      replace ((closed_vs ++ bytes_bits lits ++ lookahead e)
               ++ repeat false (8 - length (lookahead e)))
        with (closed_vs ++ bytes_bits (lits ++ [pack (lookahead e)])).
      2:{ rewrite bytes_bits_snoc by lia. rewrite <- !app_assoc. reflexivity. }
      apply Stream_close_literal; [exact HS|].
      rewrite length_app. cbn [length]. lia.
Qed.

Lemma Put_values_inv (ws : list bool) :
  forall (e : RleEncoder.t) (vs : list bool),
    encoder_inv e vs ->
    Z.of_nat (length vs) + Z.of_nat (length ws) < 2 ^ 30 ->
    encoder_inv (Put_values ws e) (vs ++ ws).
Proof.
  induction ws as [|w ws IH]; intros e vs Hinv Hfit.
  - rewrite app_nil_r. exact Hinv.
  - unfold Put_values in *. cbn [fold_left]. rewrite Put_one.
    replace (vs ++ w :: ws) with ((vs ++ [w]) ++ ws)
      by (rewrite <- app_assoc; reflexivity).
    apply IH.
    + apply Put_value_inv; [exact Hinv|]. cbn [length] in Hfit. lia.
    + rewrite length_app. cbn [length] in *. lia.
Qed.

(** The encoder writes the wire format: whatever the schedule of [Put]
    calls, the bytes after [Flush] are a stream of runs that carries the
    values presented, in order, followed by fewer than 8 zeros of padding.
    The counters of the encoder are [int]s, hence the bound. *)
Theorem encode_Stream (s : schedule) :
  Z.of_nat (length (flatten s)) < 2 ^ 30 ->
  exists pad : nat,
    (pad < 8)%nat /\ Stream (encode s) (flatten s ++ repeat false pad).
Proof.
  intros Hfit. unfold encode. rewrite PutAll_flatten.
  destruct (Flush_Stream (Put_values (flatten s) (RleEncoder.new []))
              (flatten s)) as (pad & Hpad & HS & _); [|exact Hfit|].
  - apply (Put_values_inv (flatten s) (RleEncoder.new []) []);
      [exact new_encoder_inv | simpl; lia].
  - exists pad. auto.
Qed.

(** X1.  Round trip through [Get]: on the output of the encoder for fewer
    than 2^30 values, successive [Get] calls return the values presented, in
    order, then the padding of the last literal group (fewer than 8 zeros),
    then false; no call aborts. *)
Theorem encode_Get_roundtrip (s : schedule) (val : bool) :
  Z.of_nat (length (flatten s)) < 2 ^ 30 ->
  exists pad : nat,
    (pad < 8)%nat
    /\ GetAll (S (length (flatten s) + pad)) val (RleDecoder.new (encode s))
       = Some (flatten s ++ repeat false pad).
Proof.
  intros Hfit. destruct (encode_Stream s Hfit) as (pad & Hpad & HS).
  exists pad. split; [exact Hpad|].
  apply Decodes_GetAll; [apply Stream_new_Decodes; exact HS|].
  rewrite length_app, repeat_length. lia.
Qed.

Lemma encode_Get_roundtrip_witness :
  exists pad : nat,
    (pad < 8)%nat
    /\ GetAll (S (length (flatten [(false, 3); (true, 2)]) + pad)) false
         (RleDecoder.new (encode [(false, 3); (true, 2)]))
       = Some (flatten [(false, 3); (true, 2)] ++ repeat false pad).
Proof.
  apply (encode_Get_roundtrip [(false, 3); (true, 2)] false).
  vm_compute. reflexivity.
Defined.

(** ** Round trips *)

(** X2.  Round trip through [GetNextRun]: on the output of the encoder,
    successive [GetNextRun] calls return runs of positive length and of
    alternating values whose expansion is the values presented followed by
    the padding of the last literal group (fewer than 8 zeros). *)
Theorem encode_GetNextRun_roundtrip (s : schedule) (val : bool) :
  Z.of_nat (length (flatten s)) < 2 ^ 30 ->
  exists (pad : nat) (runs : list (bool * Z)),
    (pad < 8)%nat
    /\ GetRuns (S (length (flatten s) + pad)) val
         (RleDecoder.new (encode s)) = Some runs
    /\ expand runs = flatten s ++ repeat false pad
    /\ Forall (fun run => 0 < snd run) runs
    /\ alternating runs.
Proof.
  intros Hfit. destruct (encode_Stream s Hfit) as (pad & Hpad & HS).
  apply Stream_new_Decodes in HS.
  destruct (GetRuns_spec (length (flatten s) + pad)
              (flatten s ++ repeat false pad) (RleDecoder.new (encode s)) val
              (S (length (flatten s) + pad)))
    as (runs & HR & Hex & Hpos & Halt & _).
  - rewrite length_app, repeat_length. lia.
  - lia.
  - apply new_wf.
  - exact HS.
  - rewrite length_app, repeat_length. lia.
  - exists pad, runs. auto.
Qed.

Lemma encode_GetNextRun_roundtrip_witness :
  exists (pad : nat) (runs : list (bool * Z)),
    (pad < 8)%nat
    /\ GetRuns (S (length (flatten [(false, 3); (true, 2)]) + pad)) false
         (RleDecoder.new (encode [(false, 3); (true, 2)])) = Some runs
    /\ expand runs = flatten [(false, 3); (true, 2)] ++ repeat false pad
    /\ Forall (fun run => 0 < snd run) runs
    /\ alternating runs.
Proof.
  apply (encode_GetNextRun_roundtrip [(false, 3); (true, 2)] false).
  vm_compute. reflexivity.
Defined.

(** X3.  The decoder reads the format of the header comment, whoever wrote
    it: on a buffer that is a sequence of runs (repeated runs of 1 to 2^30 - 1
    values, literal runs of 1 to 63 groups) no call aborts, successive [Get]
    calls return the values the runs carry and then false, and successive
    [GetNextRun] calls return them as maximal runs. *)
Theorem wire_format_decodes (bytes : list Z) (vs : list bool) (val : bool) :
  Stream bytes vs ->
  Z.of_nat (length bytes) < 2 ^ 31 ->
  GetAll (S (length vs)) val (RleDecoder.new bytes) = Some vs
  /\ exists runs : list (bool * Z),
       GetRuns (S (length vs)) val (RleDecoder.new bytes) = Some runs
       /\ expand runs = vs
       /\ Forall (fun run => 0 < snd run) runs
       /\ alternating runs.
Proof.
  intros HS Hlen. apply Stream_new_Decodes in HS. split.
  - apply Decodes_GetAll; [exact HS | lia].
  - destruct (GetRuns_spec (length vs) vs (RleDecoder.new bytes) val
                (S (length vs)))
      as (runs & HR & Hex & Hpos & Halt & _);
      [lia | lia | apply new_wf | exact HS
       | exact (new_values_bound bytes vs Hlen HS) |].
    exists runs. auto.
Qed.

Lemma wire_format_decodes_witness :
  GetAll 14 false (RleDecoder.new [0x0A; 0x01; 0x03; 0x55])
  = Some (repeat true 5 ++ bytes_bits [0x55]).
Proof.
  apply (wire_format_decodes
           (vlq_bytes (2 * 5) ++ bool_to_Z true
              :: (2 * Z.of_nat (length [0x55]) + 1) :: [0x55] ++ [])
           (repeat true (Z.to_nat 5) ++ bytes_bits [0x55] ++ []) false).
  - apply Stream_repeated; [lia|].
    apply Stream_literal; [simpl; lia|]. apply Stream_end.
  - simpl. lia.
Defined.

(** ** Mixed calls on the decoder *)

Lemma Get_false_same (d d' : RleDecoder.t) (val val' : bool) :
  RleDecoder.Get val d = Some (false, val', d') -> d' = d /\ val' = val.
Proof.
  unfold RleDecoder.Get. intros H.
  destruct (RleDecoder.ReadHeader d) as [[[] d1]|] eqn:HR; try discriminate H.
  - break_all H; discriminate H.
  - injection H as <- <-. split; [|reflexivity].
    exact (ReadHeader_false d d1 HR).
Qed.

Lemma run_at_head_repeat (v : bool) (k : nat) (vs : list bool) :
  (forall x rest, vs = x :: rest -> x <> v) ->
  run_at_head v (repeat v k ++ vs) = k.
Proof.
  intros Hnext. induction k as [|k IH]; simpl.
  - destruct vs as [|x rest]; [reflexivity|].
    specialize (Hnext x rest eq_refl).
    destruct x, v; try reflexivity; congruence.
  - rewrite eqb_reflx, IH. reflexivity.
Qed.

(** X4.  Any mix of [Get], [GetNextRun] and [Skip] calls moves one cursor
    over the decoded values: as long as no [Skip] asks for more values than
    are left, every call returns, [Get] reports the next value,
    [GetNextRun] the maximal run at the cursor, [Skip(k)] passes over [k]
    values, and at the end both [Get] and [GetNextRun] return false and
    leave [*val] alone. *)
Theorem decoder_calls_follow_values (cs : list decoder_call) :
  forall (val : bool) (d : RleDecoder.t) (vs : list bool)
         (rs : list decoder_result) (rest : list bool),
    decoder_wf d ->
    Decodes d vs ->
    Z.of_nat (length vs) < 2 ^ 64 ->
    cursor_calls cs val vs = Some (rs, rest) ->
    exists d' : RleDecoder.t,
      run_decoder_calls cs val d = Some (rs, d')
      /\ Decodes d' rest
      /\ decoder_wf d'.
Proof.
  induction cs as [|c cs IH]; intros val d vs rs rest Hwf HD Hlen Hcur.
  - simpl in Hcur. injection Hcur as <- <-. exists d. simpl. auto.
  - destruct c as [| |k]; cbn [cursor_calls run_decoder_calls] in *.
    + (* Get *)
      destruct vs as [|v vs'].
      * destruct (cursor_calls cs val []) as [[rs1 rest1]|] eqn:Hc1;
          [|discriminate Hcur].
        injection Hcur as <- <-.
        inversion HD as [d0 d1 val0 val1 HG|]; subst.
        apply (Get_false_val _ _ _ val) in HG.
        destruct (Get_false_same _ _ _ _ HG) as [-> _].
        rewrite HG.
        destruct (IH val d [] rs1 rest1 Hwf HD Hlen Hc1) as (d' & -> & H').
        exists d'. auto.
      * destruct (cursor_calls cs v vs') as [[rs1 rest1]|] eqn:Hc1;
          [|discriminate Hcur].
        injection Hcur as <- <-.
        inversion HD as [|d0 d1 val0 v0 vs0 HG HD1]; subst.
        apply (Get_val_irrelevant _ _ _ val) in HG.
        destruct (Get_values_bound _ _ _ _ Hwf HG) as [Hwf1 _].
        rewrite HG.
        destruct (IH v d1 vs' rs1 rest1 Hwf1 HD1) as (d' & -> & H');
          [cbn [length] in Hlen; lia | exact Hc1 |].
        exists d'. auto.
    + (* GetNextRun *)
      destruct (GetNextRun_spec d val vs Hwf HD Hlen)
        as (val' & n & vs1 & d1 & HG & Hvs & Hzero & HD1 & Hwf1 & Hnext).
      rewrite HG.
      destruct vs as [|v vs'].
      * destruct (cursor_calls cs val []) as [[rs1 rest1]|] eqn:Hc1;
          [|discriminate Hcur].
        injection Hcur as <- <-.
        destruct n as [|n]; [|discriminate Hvs].
        destruct (Hzero eq_refl) as [_ ->].
        simpl in Hvs. subst vs1.
        destruct (IH val d1 [] rs1 rest1 Hwf1 HD1 Hlen Hc1) as (d' & -> & H').
        exists d'. auto.
      * destruct n as [|n].
        { destruct (Hzero eq_refl) as [Hnil _]. discriminate Hnil. }
        assert (Hv : v = val') by (simpl in Hvs; congruence).
        subst val'.
        assert (Hrun : run_at_head v (v :: vs') = S n).
        { rewrite Hvs. apply run_at_head_repeat. exact Hnext. }
        cbv zeta in Hcur. rewrite Hrun in Hcur.
        assert (Hdrop : drop (S n) (v :: vs') = vs1).
        { rewrite Hvs. rewrite drop_app_length'; [reflexivity|].
          symmetry. apply repeat_length. }
        rewrite Hdrop in Hcur.
        destruct (cursor_calls cs v vs1) as [[rs1 rest1]|] eqn:Hc1;
          [|discriminate Hcur].
        injection Hcur as <- <-.
        destruct (IH v d1 vs1 rs1 rest1 Hwf1 HD1) as (d' & -> & H');
          [|exact Hc1|].
        { rewrite Hvs, length_app in Hlen. lia. }
        exists d'. replace (Z.of_nat (S n) >? 0) with true
          by (symmetry; apply Z.gtb_lt; lia).
        auto.
    + (* Skip *)
      destruct ((0 <=? k) && (k <=? Z.of_nat (length vs))) eqn:Hk;
        [|discriminate Hcur].
      apply andb_prop in Hk. destruct Hk as [Hk0 Hk1].
      apply Z.leb_le in Hk0. apply Z.leb_le in Hk1.
      destruct (cursor_calls cs val (drop (Z.to_nat k) vs))
        as [[rs1 rest1]|] eqn:Hc1; [|discriminate Hcur].
      injection Hcur as <- <-.
      destruct (Skip_loop_spec (Z.to_nat k) k 0 d vs Hwf HD)
        as (c & d1 & HS & HD1 & Hwf1); try lia.
      unfold RleDecoder.Skip. rewrite HS.
      destruct (IH val d1 _ rs1 rest1 Hwf1 HD1) as (d' & -> & H');
        [|exact Hc1|].
      { rewrite length_drop. lia. }
      exists d'. auto.
Qed.

Lemma decoder_calls_follow_values_witness :
  exists d' : RleDecoder.t,
    run_decoder_calls [CallGet; CallSkip 5; CallGetNextRun; CallGet; CallGet]
      false (RleDecoder.new [0x03; 0xF0; 0x10; 0x01])
    = Some ([GetReturned true false; SkipReturned;
             GetNextRunReturned true true 10; GetReturned false true;
             GetReturned false true], d')
    /\ Decodes d' []
    /\ decoder_wf d'.
Proof.
  apply (decoder_calls_follow_values
           [CallGet; CallSkip 5; CallGetNextRun; CallGet; CallGet] false
           (RleDecoder.new [0x03; 0xF0; 0x10; 0x01])
           (repeat false 4 ++ repeat true 12)).
  - apply new_wf.
  - apply (GetAll_Decodes 17 false). vm_compute. reflexivity.
  - simpl. lia.
  - vm_compute. reflexivity.
Defined.

(** ** What [Skip] counts *)


Lemma true_bits_repeat (v : bool) (n : nat) :
  true_bits (repeat v n) = bool_to_Z v * Z.of_nat n.
Proof.
  induction n as [|n IH]; [simpl; lia|].
  change (true_bits (repeat v (S n)))
    with (bool_to_Z v + true_bits (repeat v n)).
  rewrite IH. lia.
Qed.



(** The values a pending repeated run still holds are its value. *)
Lemma Decodes_take_repeated (m : nat) :
  forall (d : RleDecoder.t) (vs : list bool),
    decoder_wf d ->
    Z.of_nat m <= RleDecoder.repeat_count_ d ->
    Decodes d vs ->
    take m vs = repeat (RleDecoder.current_value_ d) m.
Proof.
  induction m as [|m IH]; intros d vs Hwf Hm HD; [reflexivity|].
  destruct (Decodes_repeated d vs Hwf ltac:(lia) HD) as (vs1 & -> & HD1).
  set (d1 := RleDecoder.set_repeat_count _ d) in HD1.
  assert (Hwf1 : decoder_wf d1).
  { destruct Hwf as (Hok & Hr & Hl & Hex).
    subst d1. unfold decoder_wf. dec_fields.
    conj_split; try assumption; lia. }
  simpl. f_equal.
  apply (IH d1 vs1 Hwf1); [subst d1; dec_fields; lia | exact HD1].
Qed.

(** The bit loop of [Skip] adds the true bits it passes to the count. *)
Lemma Skip_bits_count (m : nat) :
  forall (d : RleDecoder.t) (vs : list bool) (c c' L : Z) (d' : RleDecoder.t),
    decoder_wf d ->
    RleDecoder.repeat_count_ d = 0 ->
    Z.of_nat m <= RleDecoder.literal_count_ d ->
    Decodes d vs ->
    0 <= c ->
    c + Z.of_nat m < 2 ^ 64 ->
    RleDecoder.Skip_bits m c (RleDecoder.set_literal_count L d) = Some (c', d') ->
    c' = c + true_bits (take m vs).
Proof.
  induction m as [|m IH]; intros d vs c c' L d' Hwf Hrc Hm HD Hc Hfit HS.
  - simpl in HS. injection HS as <- _. simpl. lia.
  - destruct (Decodes_literal d vs Hwf Hrc ltac:(lia) HD)
      as (b & r & vs1 & HGB & -> & HD1).
    set (d1 := RleDecoder.set_literal_count _ _) in HD1.
    destruct Hwf as (Hok & Hr & Hl & Hex).
    destruct (GetBool_cursor _ _ _ Hok HGB) as (Hok' & _ & _ & _).
    assert (Hwf1 : decoder_wf d1).
    { subst d1. unfold decoder_wf. dec_fields.
      conj_split; try assumption; lia. }
    cbn [RleDecoder.Skip_bits] in HS. dec_fields. rewrite HGB in HS.
    assert (Hb : 0 <= bool_to_Z b <= 1) by (destruct b; simpl; lia).
    rewrite wrap_size_t_small in HS by lia.
    assert (Heq : RleDecoder.set_reader r (RleDecoder.set_literal_count L d)
                  = RleDecoder.set_literal_count L d1) by reflexivity.
    rewrite Heq in HS.
    apply (IH d1 vs1 (c + bool_to_Z b) c' L d' Hwf1) in HS;
      [| subst d1; dec_fields; lia | subst d1; dec_fields; lia | exact HD1
       | lia | lia].
    rewrite HS. cbn [take].
    change (true_bits (b :: take m vs1))
      with (bool_to_Z b + true_bits (take m vs1)). lia.
Qed.






Lemma Skip_loop_done (fuel : nat) (c : Z) (d : RleDecoder.t) :
  RleDecoder.Skip_loop fuel 0 c d = Some (c, d).
Proof. destruct fuel; reflexivity. Qed.

(** X7.  [Skip(k)] inside the current run (with at least [k] of its values
    still to come) returns exactly the number of true values among the [k]
    values skipped. *)
Theorem Skip_within_run_exact (d : RleDecoder.t) (k : Z) (vs : list bool) :
  decoder_wf d ->
  Decodes d vs ->
  0 < k <= RleDecoder.repeat_count_ d + RleDecoder.literal_count_ d ->
  exists d' : RleDecoder.t,
    RleDecoder.Skip k d = Some (true_bits (take (Z.to_nat k) vs), d')
    /\ Decodes d' (drop (Z.to_nat k) vs).
Proof.
  intros Hwf HD Hk. unfold RleDecoder.Skip.
  destruct (Z.to_nat k) as [|fuel] eqn:Hfuel; [lia|].
  cbn [RleDecoder.Skip_loop].
  replace (k >? 0) with true by (symmetry; apply Z.gtb_lt; lia).
  assert (Hp : pending d = true).
  { unfold pending. destruct Hwf as (_ & Hr & Hl & Hex).
    destruct (Z.eqb_spec (RleDecoder.literal_count_ d) 0);
      destruct (Z.eqb_spec (RleDecoder.repeat_count_ d) 0);
      try reflexivity; lia. }
  rewrite (ReadHeader_pending d Hp). cbn [DCHECK].
  destruct (Z.gtb_spec (RleDecoder.repeat_count_ d) 0) as [Hrep|Hrep].
  - assert (Hlc : RleDecoder.literal_count_ d = 0)
      by (apply (pending_repeat d Hwf Hrep)).
    replace (RleDecoder.repeat_count_ d <? k) with false
      by (symmetry; apply Z.ltb_ge; lia).
    destruct (Decodes_drop_repeated (Z.to_nat k) d vs Hwf ltac:(lia) HD)
      as (HD2 & Hlen).
    pose proof (Decodes_take_repeated (Z.to_nat k) d vs Hwf ltac:(lia) HD)
      as Htake.
    rewrite Z2Nat.id in HD2 by lia.
    destruct Hwf as (Hok & Hr & Hl & Hex).
    rewrite wrap_uint32_small by lia.
    rewrite Z.sub_diag. change (wrap_size_t 0) with 0.
    rewrite Skip_loop_done. rewrite <- Hfuel.
    eexists. split; [|exact HD2].
    do 2 f_equal. dec_fields.
    rewrite Htake, true_bits_repeat, Z2Nat.id by lia.
    apply wrap_size_t_small.
    destruct (RleDecoder.current_value_ d); simpl bool_to_Z; lia.
  - assert (Hrc : RleDecoder.repeat_count_ d = 0)
      by (destruct Hwf as (_ & ? & _); lia).
    replace (RleDecoder.literal_count_ d >? 0) with true
      by (symmetry; apply Z.gtb_lt; lia).
    cbn [DCHECK].
    replace (RleDecoder.literal_count_ d <? k) with false
      by (symmetry; apply Z.ltb_ge; lia).
    destruct (Skip_bits_spec (Z.to_nat k) d vs 0
                (wrap_uint32 (RleDecoder.literal_count_ d - k))
                Hwf Hrc ltac:(lia) HD)
      as (c1 & r1 & HSB & HD2 & Hlen & Hok1).
    assert (Hc1 : c1 = 0 + true_bits (take (Z.to_nat k) vs)).
    { eapply Skip_bits_count; [exact Hwf | exact Hrc | | exact HD | | | exact HSB];
        destruct Hwf as (Hok & Hr & Hl & Hex); lia. }
    destruct Hwf as (Hok & Hr & Hl & Hex).
    rewrite HSB. rewrite Z2Nat.id in HD2 by lia.
    rewrite wrap_uint32_small by lia.
    rewrite Z.sub_diag. change (wrap_size_t 0) with 0.
    rewrite Skip_loop_done. rewrite <- Hfuel.
    eexists. split; [|exact HD2].
    rewrite Hc1. reflexivity.
Qed.

Lemma Skip_within_run_exact_witness :
  exists d' : RleDecoder.t,
    RleDecoder.Skip 3 (RleDecoder.mk (BitReader.mk [0x10; 0x01] 1 1) true 8 0)
    = Some (true_bits (take (Z.to_nat 3) (repeat true 8)), d')
    /\ Decodes d' (drop (Z.to_nat 3) (repeat true 8)).
Proof.
  apply (Skip_within_run_exact
           (RleDecoder.mk (BitReader.mk [0x10; 0x01] 1 1) true 8 0) 3
           (repeat true 8)).
  - unfold decoder_wf, reader_ok. simpl. lia.
  - apply (GetAll_Decodes 9 false). vm_compute. reflexivity.
  - simpl. lia.
Defined.

Lemma Skip_loop_past_end (fuel : nat) :
  forall (k c : Z) (d : RleDecoder.t) (vs : list bool),
    decoder_wf d ->
    Decodes d vs ->
    Z.of_nat (length vs) < k ->
    k <= Z.of_nat fuel ->
    k < 2 ^ 64 ->
    RleDecoder.Skip_loop fuel k c d = None.
Proof.
  induction fuel as [|fuel IH]; intros k c d vs Hwf HD Hk Hfuel Hfit; [lia|].
  cbn [RleDecoder.Skip_loop].
  replace (k >? 0) with true by (symmetry; apply Z.gtb_lt; lia).
  destruct (RleDecoder.ReadHeader d) as [[[] d1]|] eqn:HR;
    [| reflexivity | reflexivity].
  pose proof (ReadHeader_true d d1 Hwf HR) as (Hwf1 & Hp1 & _).
  pose proof (Decodes_header d d1 vs Hwf HR HD) as HD1.
  clear HR HD Hwf. cbn [DCHECK].
  destruct (Z.gtb_spec (RleDecoder.repeat_count_ d1) 0) as [Hrep|Hrep].
  - set (nskip := if RleDecoder.repeat_count_ d1 <? k
                  then RleDecoder.repeat_count_ d1 else k).
    assert (Hn : 0 < nskip <= RleDecoder.repeat_count_ d1 /\ nskip <= k).
    { subst nskip.
      destruct (Z.ltb_spec (RleDecoder.repeat_count_ d1) k); lia. }
    destruct (Decodes_drop_repeated (Z.to_nat nskip) d1 vs Hwf1 ltac:(lia) HD1)
      as (HD2 & Hlen).
    rewrite Z2Nat.id in HD2 by lia.
    destruct Hwf1 as (Hok & Hr & Hl & Hex).
    rewrite wrap_uint32_small by lia.
    rewrite (wrap_size_t_small (k - nskip)) by lia.
    set (d2 := RleDecoder.set_repeat_count _ d1) in *.
    assert (Hwf2 : decoder_wf d2).
    { subst d2. unfold decoder_wf. dec_fields.
      conj_split; try assumption; lia. }
    apply (IH _ _ d2 (drop (Z.to_nat nskip) vs) Hwf2 HD2); try lia.
    rewrite length_drop. lia.
  - assert (Hrc1 : RleDecoder.repeat_count_ d1 = 0)
      by (destruct Hwf1 as (_ & ? & _); lia).
    pose proof (pending_literal d1 Hwf1 Hp1 Hrc1) as Hlit.
    replace (RleDecoder.literal_count_ d1 >? 0) with true
      by (symmetry; apply Z.gtb_lt; lia).
    cbn [DCHECK].
    set (nskip := if RleDecoder.literal_count_ d1 <? k
                  then RleDecoder.literal_count_ d1 else k).
    assert (Hn : 0 < nskip <= RleDecoder.literal_count_ d1 /\ nskip <= k).
    { subst nskip.
      destruct (Z.ltb_spec (RleDecoder.literal_count_ d1) k); lia. }
    destruct (Skip_bits_spec (Z.to_nat nskip) d1 vs c
                (wrap_uint32 (RleDecoder.literal_count_ d1 - nskip))
                Hwf1 Hrc1 ltac:(lia) HD1)
      as (c1 & r1 & HSB & HD2 & Hlen & Hok1).
    rewrite HSB. rewrite Z2Nat.id in HD2 by lia.
    destruct Hwf1 as (Hok & Hr & Hl & Hex).
    rewrite wrap_uint32_small by lia.
    rewrite (wrap_size_t_small (k - nskip)) by lia.
    set (d2 := RleDecoder.set_reader r1 _).
    assert (Hd2 : d2 = RleDecoder.set_literal_count
                         (RleDecoder.literal_count_ d1 - nskip)
                         (RleDecoder.set_reader r1 d1))
      by reflexivity.
    rewrite <- Hd2 in HD2.
    assert (Hwf2 : decoder_wf d2).
    { rewrite Hd2. unfold decoder_wf. dec_fields.
      conj_split; try assumption; lia. }
    apply (IH _ _ d2 (drop (Z.to_nat nskip) vs) Hwf2 HD2); try lia.
    rewrite length_drop. lia.
Qed.

(** X14.  [Skip] past the end fails an assertion: with fewer than [k] values
    left, [Skip(k)] runs into [DCHECK(result)] on the [ReadHeader] that finds
    no further run. *)
Theorem Skip_past_the_end_aborts
    (d : RleDecoder.t) (k : Z) (vs : list bool) :
  decoder_wf d ->
  Decodes d vs ->
  Z.of_nat (length vs) < k < 2 ^ 64 ->
  RleDecoder.Skip k d = None.
Proof.
  intros Hwf HD Hk. unfold RleDecoder.Skip.
  apply (Skip_loop_past_end (Z.to_nat k) k 0 d vs Hwf HD); lia.
Qed.

Lemma Skip_past_the_end_aborts_witness :
  RleDecoder.Skip 9 (RleDecoder.new [0x10; 0x01]) = None.
Proof.
  apply (Skip_past_the_end_aborts (RleDecoder.new [0x10; 0x01]) 9
           (repeat true 8)).
  - apply new_wf.
  - apply (GetAll_Decodes 9 false). vm_compute. reflexivity.
  - simpl. lia.
Defined.

(** ** The out parameter [val] *)

(** X8.  [Get] and [GetNextRun] never read what [*val] holds on entry: their
    result, [*run_length] and the decoder afterwards do not depend on it, and
    neither does [*val] when the call returns true.  A [Get] that returns
    false leaves [*val] as it was. *)
Theorem val_is_write_only (d : RleDecoder.t) (v1 v2 : bool) :
  match RleDecoder.Get v1 d, RleDecoder.Get v2 d with
  | None, None => True
  | Some (b1, x1, d1), Some (b2, x2, d2) =>
      b1 = b2 /\ d1 = d2 /\ (if b1 then x1 = x2 else x1 = v1 /\ x2 = v2)
  | _, _ => False
  end
  /\ match RleDecoder.GetNextRun v1 d, RleDecoder.GetNextRun v2 d with
     | None, None => True
     | Some (b1, x1, n1, d1), Some (b2, x2, n2, d2) =>
         b1 = b2 /\ n1 = n2 /\ d1 = d2 /\ (b1 = true -> x1 = x2)
     | _, _ => False
     end.
Proof.
  split.
  - unfold RleDecoder.Get.
    destruct (RleDecoder.ReadHeader d) as [[[] d1]|]; [| auto | exact I].
    destruct (RleDecoder.repeat_count_ d1 >? 0); [auto|].
    destruct (DCHECK (RleDecoder.literal_count_ d1 >? 0)); [|exact I].
    destruct (BitReader.GetBool (RleDecoder.bit_reader_ d1)) as [[b r]|];
      [auto | exact I].
  - unfold RleDecoder.GetNextRun.
    cbn [RleDecoder.GetNextRun_loop].
    destruct (RleDecoder.ReadHeader d) as [[[] d1]|]; [| | exact I].
    2:{ repeat split; discriminate. }
    change (0 >? 0) with false. change (0 =? 0) with true.
    cbn [andb].
    destruct (RleDecoder.repeat_count_ d1 >? 0).
    + match goal with
      | |- match ?x with _ => _ end => destruct x as [[[[b1 x1] n1] d1']|]
      end; [auto | exact I].
    + destruct (DCHECK (RleDecoder.literal_count_ d1 >? 0)); [|exact I].
      match goal with
      | |- match ?x with _ => _ end => destruct x as [[[[b1 x1] n1] d1']|]
      end; [auto | exact I].
Qed.


(** ** The assertions of the encoder *)

(** What the invariant says about the fields the assertions read. *)
Lemma encoder_inv_fields (e : RleEncoder.t) (vs : list bool) :
  encoder_inv e vs ->
  Z.of_nat (length vs) < 2 ^ 30 ->
  0 <= RleEncoder.num_buffered_values_ e < 8
  /\ 0 <= RleEncoder.repeat_count_ e < 2 ^ 30
  /\ (RleEncoder.repeat_count_ e < 8 ->
      RleEncoder.repeat_count_ e <= RleEncoder.num_buffered_values_ e)
  /\ (8 <= RleEncoder.repeat_count_ e ->
      RleEncoder.num_buffered_values_ e = 0
      /\ RleEncoder.literal_count_ e = 0)
  /\ 0 <= RleEncoder.literal_count_ e <= 496
  /\ Z.rem (RleEncoder.literal_count_ e) 8 = 0
  /\ (RleEncoder.literal_indicator_byte_ e < 0 ->
      RleEncoder.literal_count_ e = 0)
  /\ Z.of_nat (length (BitWriter.buffer (RleEncoder.bit_writer_ e)))
     < 2 ^ 30 + 64.
Proof.
  intros (closed & closed_vs & lits & Hout & Hnb & Hrc0 & Hrun & Hla & Hvs) Hfit.
  destruct Hout as (HS & Hbytes & Hw & Hbv & Hind & Hidx & Hlc & Hlits).
  assert (Hlen : Z.of_nat (length closed_vs)
                 + Z.of_nat (length (pending_values e))
                 <= Z.of_nat (length vs)).
  { rewrite Hvs, !length_app. lia. }
  conj_split; try lia.
  - destruct (Z.lt_ge_cases (RleEncoder.repeat_count_ e) 8) as [|Hge]; [lia|].
    rewrite pending_values_length in Hlen by exact Hge. lia.
  - intros Hlt. destruct (Hla Hlt) as (pre & Hpre).
    pose proof (lookahead_length e) as Hl.
    rewrite Hpre, length_app, repeat_length in Hl. lia.
  - intros Hge. destruct (Hrun Hge) as [Hz ->]. simpl in Hlc. lia.
  - intros Hneg. apply Hind in Hneg. subst lits. simpl in Hlc. lia.
  - rewrite Hw. cbn [BitWriter.buffer]. rewrite length_app. unfold open_run.
    destruct (RleEncoder.literal_indicator_byte_ e <? 0); cbn [length]; lia.
Qed.

Lemma FlushRepeatedRun_asserted (e : RleEncoder.t) :
  0 < RleEncoder.repeat_count_ e ->
  Asserted.FlushRepeatedRun e = Some (RleEncoder.FlushRepeatedRun e).
Proof.
  intros Hrc. unfold Asserted.FlushRepeatedRun.
  replace (RleEncoder.repeat_count_ e >? 0) with true
    by (symmetry; apply Z.gtb_lt; exact Hrc).
  reflexivity.
Qed.

Lemma FlushLiteralRun_asserted (u : bool) (e : RleEncoder.t) :
  Z.of_nat (length (BitWriter.buffer (RleEncoder.bit_writer_ e))) < 2 ^ 31 ->
  0 <= RleEncoder.literal_count_ e <= 504 ->
  Asserted.FlushLiteralRun u e = Some (RleEncoder.FlushLiteralRun u e).
Proof.
  intros Hlen Hlc.
  unfold Asserted.FlushLiteralRun, RleEncoder.FlushLiteralRun,
    BitWriter.GetByteIndexAndAdvance.
  assert (Hg : 0 <= BitmapSize (RleEncoder.literal_count_ e) <= 63)
    by (unfold BitmapSize; lia).
  assert (Hchecks :
    (wrap_int32 (BitmapSize (RleEncoder.literal_count_ e)) <? 128) = true
    /\ (Z.land
          (wrap_uint32
             (Z.lor
                (Z.shiftl
                   (wrap_int32 (BitmapSize (RleEncoder.literal_count_ e))) 1)
                1))
          0xFFFFFF80 =? 0) = true).
  { rewrite wrap_int32_small by lia. split; [apply Z.ltb_lt; lia|].
    rewrite indicator_value_odd, wrap_uint32_small by lia.
    rewrite land_high_mask by lia. apply Z.eqb_eq. lia. }
  destruct Hchecks as (Hc1 & Hc2).
  destruct (RleEncoder.literal_indicator_byte_ e <? 0).
  - enc_fields.
    replace (wrap_int32
               (Z.of_nat
                  (length (BitWriter.buffer (RleEncoder.bit_writer_ e))))
             >=? 0) with true.
    2:{ symmetry. rewrite wrap_int32_small by lia.
        rewrite Z.geb_leb. apply Z.leb_le. lia. }
    cbn [DCHECK]. cbv zeta. enc_fields.
    destruct u; [|reflexivity].
    rewrite Hc1, Hc2. reflexivity.
  - cbv zeta. enc_fields.
    destruct u; [|reflexivity].
    rewrite Hc1, Hc2. reflexivity.
Qed.

Lemma FlushBufferedValues_asserted (e : RleEncoder.t) :
  Z.of_nat (length (BitWriter.buffer (RleEncoder.bit_writer_ e))) < 2 ^ 31 ->
  RleEncoder.num_buffered_values_ e = 8 ->
  0 <= RleEncoder.repeat_count_ e <= 8 ->
  0 <= RleEncoder.literal_count_ e <= 496 ->
  Z.rem (RleEncoder.literal_count_ e) 8 = 0 ->
  (RleEncoder.literal_indicator_byte_ e < 0 ->
   RleEncoder.literal_count_ e = 0) ->
  Asserted.FlushBufferedValues false e
  = Some (RleEncoder.FlushBufferedValues false e).
Proof.
  intros Hlen Hnb Hrc Hlc Hrem Hind.
  unfold Asserted.FlushBufferedValues, RleEncoder.FlushBufferedValues.
  destruct (Z.geb_spec (RleEncoder.repeat_count_ e) 8) as [Hge|Hlt].
  - cbv zeta. enc_fields.
    destruct (Z.eqb_spec (RleEncoder.literal_count_ e) 0) as [Hz|Hnz];
      cbn [negb].
    + enc_fields. rewrite Hz. reflexivity.
    + rewrite Hrem. cbn [Z.eqb DCHECK].
      replace (RleEncoder.repeat_count_ e =? 8) with true
        by (symmetry; apply Z.eqb_eq; lia).
      cbn [DCHECK].
      rewrite FlushLiteralRun_asserted by (enc_fields; lia).
      match goal with
      | |- context [RleEncoder.FlushLiteralRun true ?x] =>
          destruct (FlushLiteralRun_fields true x) as (_ & _ & _ & F4 & _)
      end.
      rewrite F4. reflexivity.
  - cbv zeta. enc_fields. rewrite Hnb.
    rewrite (wrap_int32_small (RleEncoder.literal_count_ e + 8)) by lia.
    assert (Hg : 1 <= BitmapSize (RleEncoder.literal_count_ e + 8) <= 63)
      by (unfold BitmapSize; lia).
    rewrite (wrap_int32_small (BitmapSize _)) by lia.
    destruct (Z.geb_spec (BitmapSize (RleEncoder.literal_count_ e + 8) + 1) 64)
      as [Hfull|Hroom].
    + replace (RleEncoder.literal_indicator_byte_ e >=? 0) with true.
      2:{ symmetry. rewrite Z.geb_leb. apply Z.leb_le.
          destruct (Z.lt_ge_cases (RleEncoder.literal_indicator_byte_ e) 0)
            as [Hneg|]; [|lia].
          specialize (Hind Hneg). unfold BitmapSize in Hfull. lia. }
      cbn [DCHECK].
      rewrite FlushLiteralRun_asserted by (enc_fields; lia). reflexivity.
    + rewrite FlushLiteralRun_asserted by (enc_fields; lia). reflexivity.
Qed.

Lemma Put_buffer_asserted (v : bool) (e : RleEncoder.t) :
  Z.of_nat (length (BitWriter.buffer (RleEncoder.bit_writer_ e))) < 2 ^ 31 ->
  0 <= RleEncoder.num_buffered_values_ e < 8 ->
  0 <= RleEncoder.repeat_count_ e <= 8 ->
  0 <= RleEncoder.literal_count_ e <= 496 ->
  Z.rem (RleEncoder.literal_count_ e) 8 = 0 ->
  (RleEncoder.literal_indicator_byte_ e < 0 ->
   RleEncoder.literal_count_ e = 0) ->
  Asserted.Put_buffer v e = Some (RleEncoder.Put_buffer v e).
Proof.
  intros Hlen Hnb Hrc Hlc Hrem Hind.
  unfold Asserted.Put_buffer, RleEncoder.Put_buffer. cbv zeta. enc_fields.
  rewrite (wrap_int32_small (RleEncoder.num_buffered_values_ e + 1)) by lia.
  destruct (Z.eqb_spec (RleEncoder.num_buffered_values_ e + 1) 8) as [H8|];
    [|reflexivity].
  rewrite Hrem. cbn [Z.eqb DCHECK].
  apply FlushBufferedValues_asserted; enc_fields; try assumption; lia.
Qed.

Lemma Put_value_asserted (v : bool) (e : RleEncoder.t) (vs : list bool) :
  encoder_inv e vs ->
  Z.of_nat (length vs) < 2 ^ 30 ->
  Asserted.Put_value v e = Some (RleEncoder.Put_value v e).
Proof.
  intros Hinv Hfit.
  destruct (encoder_inv_fields e vs Hinv Hfit)
    as (Hnb & Hrc & Hshort & Hlong & Hlc & Hrem & Hind & Hlen).
  unfold Asserted.Put_value, RleEncoder.Put_value.
  destruct (Bool.eqb (RleEncoder.current_value_ e) v).
  - cbv zeta. enc_fields.
    rewrite (wrap_int32_small (RleEncoder.repeat_count_ e + 1)) by lia.
    destruct (Z.gtb_spec (RleEncoder.repeat_count_ e + 1) 8) as [|Hle];
      [reflexivity|].
    apply Put_buffer_asserted; enc_fields; try assumption; lia.
  - destruct (Z.geb_spec (RleEncoder.repeat_count_ e) 8) as [Hge|Hlt].
    + destruct (Hlong Hge) as [Hnb0 Hlc0].
      rewrite Hlc0. cbn [Z.eqb DCHECK].
      rewrite FlushRepeatedRun_asserted by lia.
      rewrite (FlushRepeatedRun_spec e) by lia.
      cbv zeta.
      apply Put_buffer_asserted; enc_fields; cbn [BitWriter.buffer];
        try assumption; try lia.
      pose proof (vlq_bytes_length (2 * RleEncoder.repeat_count_ e)
                    ltac:(lia)) as [_ Hv].
      rewrite !length_app. cbn [length]. lia.
    + cbv zeta.
      apply Put_buffer_asserted; enc_fields; try assumption; lia.
Qed.

Lemma Put_loop_inv (n : nat) (v : bool) (e : RleEncoder.t) (vs : list bool) :
  encoder_inv e vs ->
  Z.of_nat (length vs) + Z.of_nat n < 2 ^ 30 ->
  encoder_inv (RleEncoder.Put_loop n v e) (vs ++ repeat v n).
Proof.
  intros Hinv Hfit. rewrite <- Put_values_repeat.
  apply Put_values_inv; [exact Hinv | rewrite repeat_length; exact Hfit].
Qed.

Lemma Put_loop_asserted (n : nat) :
  forall (v : bool) (e : RleEncoder.t) (vs : list bool),
    encoder_inv e vs ->
    Z.of_nat (length vs) + Z.of_nat n < 2 ^ 30 ->
    Asserted.Put_loop n v e = Some (RleEncoder.Put_loop n v e).
Proof.
  induction n as [|n IH]; intros v e vs Hinv Hfit; [reflexivity|].
  cbn [Asserted.Put_loop RleEncoder.Put_loop].
  rewrite (Put_value_asserted v e vs Hinv) by lia.
  apply (IH v _ (vs ++ [v])).
  - apply Put_value_inv; [exact Hinv | lia].
  - rewrite length_app. cbn [length]. lia.
Qed.

Lemma PutAll_asserted (s : schedule) :
  forall (e : RleEncoder.t) (vs : list bool),
    encoder_inv e vs ->
    Z.of_nat (length vs) + Z.of_nat (length (flatten s)) < 2 ^ 30 ->
    Asserted.PutAll s e = Some (PutAll s e)
    /\ encoder_inv (PutAll s e) (vs ++ flatten s).
Proof.
  induction s as [|[v n] s IH]; intros e vs Hinv Hfit.
  - simpl. rewrite app_nil_r. auto.
  - change (flatten ((v, n) :: s)) with (repeat v (Z.to_nat n) ++ flatten s)
      in *.
    rewrite length_app, repeat_length in Hfit.
    cbn [Asserted.PutAll]. unfold Asserted.Put.
    replace (bool_to_Z v <? Z.shiftl 1 1) with true by (destruct v; reflexivity).
    cbn [DCHECK].
    rewrite (Put_loop_asserted (Z.to_nat n) v e vs Hinv) by lia.
    change (PutAll ((v, n) :: s) e)
      with (PutAll s (RleEncoder.Put_loop (Z.to_nat n) v e)).
    rewrite app_assoc.
    apply IH.
    + apply Put_loop_inv; [exact Hinv | lia].
    + rewrite length_app, repeat_length. lia.
Qed.

Lemma Flush_asserted (e : RleEncoder.t) (vs : list bool) :
  encoder_inv e vs ->
  Z.of_nat (length vs) < 2 ^ 30 ->
  Asserted.Flush e = Some (RleEncoder.Flush e).
Proof.
  intros Hinv Hfit.
  destruct (encoder_inv_fields e vs Hinv Hfit)
    as (Hnb & Hrc & Hshort & Hlong & Hlc & Hrem & Hind & Hlen).
  unfold Asserted.Flush, RleEncoder.Flush. cbv zeta.
  destruct ((RleEncoder.literal_count_ e >? 0)
            || (RleEncoder.repeat_count_ e >? 0)
            || (RleEncoder.num_buffered_values_ e >? 0)) eqn:Hp.
  - destruct ((RleEncoder.repeat_count_ e >? 0)
              && ((RleEncoder.literal_count_ e =? 0)
                  && ((RleEncoder.repeat_count_ e
                       =? RleEncoder.num_buffered_values_ e)
                      || (RleEncoder.num_buffered_values_ e =? 0))))
      eqn:Hall.
    + apply andb_prop in Hall. destruct Hall as [Hpos Hall].
      apply andb_prop in Hall. destruct Hall as [Hz _].
      apply Z.gtb_lt in Hpos. apply Z.eqb_eq in Hz.
      rewrite FlushRepeatedRun_asserted by lia.
      destruct (FlushRepeatedRun_fields e) as (F1 & F2 & _ & F4 & _).
      rewrite F1, F2, F4, Hz. reflexivity.
    + rewrite (wrap_int32_small
                 (RleEncoder.literal_count_ e
                  + RleEncoder.num_buffered_values_ e)) by lia.
      rewrite FlushLiteralRun_asserted by (enc_fields; lia).
      enc_fields.
      match goal with
      | |- context [RleEncoder.FlushLiteralRun true ?x] =>
          destruct (FlushLiteralRun_fields true x) as (F1 & _ & _ & F4 & _)
      end.
      rewrite F1, F4. reflexivity.
  - apply orb_false_iff in Hp. destruct Hp as [Hp Hp3].
    apply orb_false_iff in Hp. destruct Hp as [Hp1 Hp2].
    Z_bools.
    replace (RleEncoder.num_buffered_values_ e) with 0 by lia.
    replace (RleEncoder.literal_count_ e) with 0 by lia.
    replace (RleEncoder.repeat_count_ e) with 0 by lia.
    reflexivity.
Qed.

(** X9.  No assertion of the encoder can fail on fewer than 2^30 values:
    run with every [DCHECK] in place, the [Put] calls of a schedule and the
    [Flush] after them return, with the results of the encoder that has its
    assertions compiled out. *)
Theorem encoder_assertions_hold (s : schedule) :
  Z.of_nat (length (flatten s)) < 2 ^ 30 ->
  Asserted.PutAll s (RleEncoder.new []) = Some (PutAll s (RleEncoder.new []))
  /\ Asserted.Flush (PutAll s (RleEncoder.new []))
     = Some (RleEncoder.Flush (PutAll s (RleEncoder.new []))).
Proof.
  intros Hfit.
  destruct (PutAll_asserted s (RleEncoder.new []) [] new_encoder_inv)
    as (Hput & Hinv); [simpl; lia|].
  split; [exact Hput|].
  apply (Flush_asserted _ _ Hinv). simpl. exact Hfit.
Qed.

Lemma encoder_assertions_hold_witness :
  Asserted.PutAll [(false, 4); (true, 12)] (RleEncoder.new [])
  = Some (PutAll [(false, 4); (true, 12)] (RleEncoder.new []))
  /\ Asserted.Flush (PutAll [(false, 4); (true, 12)] (RleEncoder.new []))
     = Some (RleEncoder.Flush
               (PutAll [(false, 4); (true, 12)] (RleEncoder.new []))).
Proof.
  apply (encoder_assertions_hold [(false, 4); (true, 12)]).
  vm_compute. reflexivity.
Defined.

(** ** [Flush] and [Clear] *)

(** X10.  After [Flush] nothing is pending: the three counts its closing
    assertions check are 0, and a second [Flush] writes nothing and returns
    the same length. *)
Theorem Flush_leaves_nothing_pending (e : RleEncoder.t) :
  0 <= RleEncoder.num_buffered_values_ e ->
  0 <= RleEncoder.repeat_count_ e ->
  0 <= RleEncoder.literal_count_ e ->
  let e' := snd (RleEncoder.Flush e) in
  RleEncoder.num_buffered_values_ e' = 0
  /\ RleEncoder.literal_count_ e' = 0
  /\ RleEncoder.repeat_count_ e' = 0
  /\ RleEncoder.Flush e' = RleEncoder.Flush e.
Proof.
  intros Hnb Hrc Hlc. cbv zeta.
  assert (Hzero :
    RleEncoder.num_buffered_values_ (snd (RleEncoder.Flush e)) = 0
    /\ RleEncoder.literal_count_ (snd (RleEncoder.Flush e)) = 0
    /\ RleEncoder.repeat_count_ (snd (RleEncoder.Flush e)) = 0
    /\ BitWriter.bit_offset
         (RleEncoder.bit_writer_ (snd (RleEncoder.Flush e))) = 0%nat
    /\ fst (RleEncoder.Flush e)
       = wrap_int32
           (Z.of_nat (length (RleEncoder.buffer (snd (RleEncoder.Flush e)))))).
  { unfold RleEncoder.Flush, BitWriter.Finish, RleEncoder.buffer. cbv zeta.
    destruct ((RleEncoder.literal_count_ e >? 0)
              || (RleEncoder.repeat_count_ e >? 0)
              || (RleEncoder.num_buffered_values_ e >? 0)) eqn:Hp.
    - destruct ((RleEncoder.repeat_count_ e >? 0)
                && ((RleEncoder.literal_count_ e =? 0)
                    && ((RleEncoder.repeat_count_ e
                         =? RleEncoder.num_buffered_values_ e)
                        || (RleEncoder.num_buffered_values_ e =? 0))))
        eqn:Hall.
      + destruct (FlushRepeatedRun_fields e) as (F1 & F2 & _ & F4 & _).
        enc_fields. rewrite F1, F2, F4.
        apply andb_prop in Hall. destruct Hall as [_ Hall].
        apply andb_prop in Hall. destruct Hall as [Hall _].
        apply Z.eqb_eq in Hall. auto.
      + enc_fields.
        match goal with
        | |- context [RleEncoder.FlushLiteralRun true ?x] =>
            destruct (FlushLiteralRun_fields true x) as (F1 & _ & _ & F4 & _)
        end.
        rewrite F1, F4. auto.
    - enc_fields.
      apply orb_false_iff in Hp. destruct Hp as [Hp Hp3].
      apply orb_false_iff in Hp. destruct Hp as [Hp1 Hp2].
      Z_bools. repeat split; try lia. }
  destruct Hzero as (Z1 & Z2 & Z3 & Z4 & Z5).
  repeat split; try assumption.
  destruct (RleEncoder.Flush e) as [n e'] eqn:HF. cbn [fst snd] in *.
  unfold RleEncoder.Flush, BitWriter.Finish. cbv zeta.
  rewrite Z1, Z2, Z3. cbn [Z.gtb Z.compare orb].
  f_equal.
  - symmetry. exact Z5.
  - destruct e' as [[buf off] bv nb cv rc lc li ig].
    cbn in Z4. subst off. reflexivity.
Qed.

Lemma Flush_leaves_nothing_pending_witness :
  let e' :=
    snd (RleEncoder.Flush (PutAll [(true, 3); (false, 2)] (RleEncoder.new [])))
  in
  RleEncoder.num_buffered_values_ e' = 0
  /\ RleEncoder.literal_count_ e' = 0
  /\ RleEncoder.repeat_count_ e' = 0
  /\ RleEncoder.Flush e'
     = RleEncoder.Flush (PutAll [(true, 3); (false, 2)] (RleEncoder.new [])).
Proof.
  apply (Flush_leaves_nothing_pending
           (PutAll [(true, 3); (false, 2)] (RleEncoder.new [])));
    vm_compute; discriminate.
Defined.

Lemma fold_left_ext_seq {A : Type} (f g : A -> nat -> A) (n : nat) :
  (forall (a : A) (i : nat), (i < n)%nat -> f a i = g a i) ->
  forall a : A, fold_left f (seq 0 n) a = fold_left g (seq 0 n) a.
Proof.
  intros Hfg. induction n as [|n IH]; intros a; [reflexivity|].
  rewrite seq_S, !fold_left_app. cbn [fold_left Nat.add].
  rewrite IH by (intros; apply Hfg; lia).
  apply Hfg. lia.
Qed.

Ltac same_cells_start H :=
  match type of H with
  | same_but_cells ?e1 ?e2 =>
      destruct e1 as [w1 c1 nb1 cv1 rc1 lc1 li1 g1];
      destruct e2 as [w2 c2 nb2 cv2 rc2 lc2 li2 g2];
      unfold same_but_cells in H; enc_fields;
      destruct H as (<- & <- & <- & <- & <- & <- & <- & ? & ? & ?)
  end.

Lemma same_but_cells_FlushLiteralRun (u : bool) (e1 e2 : RleEncoder.t) :
  same_but_cells e1 e2 ->
  same_but_cells (RleEncoder.FlushLiteralRun u e1)
                 (RleEncoder.FlushLiteralRun u e2).
Proof.
  intros H. same_cells_start H.
  unfold RleEncoder.FlushLiteralRun, BitWriter.GetByteIndexAndAdvance.
  enc_fields.
  assert (Hfold : forall (w : BitWriter.t),
    fold_left
      (fun w i => BitWriter.PutBool (Z_to_bool (default 0 (c1 !! i))) w)
      (seq 0 (Z.to_nat nb1)) w
    = fold_left
        (fun w i => BitWriter.PutBool (Z_to_bool (default 0 (c2 !! i))) w)
        (seq 0 (Z.to_nat nb1)) w).
  { apply fold_left_ext_seq. intros a i Hi.
    match goal with Hag : forall i : nat, _ -> _ = _ |- _ => rewrite (Hag i Hi) end.
    reflexivity. }
  destruct (li1 <? 0); cbv zeta; enc_fields; rewrite Hfold;
    destruct u; unfold same_but_cells; enc_fields;
    conj_split; try assumption; try lia; intros i Hi; cbn in Hi; lia.
Qed.

Lemma same_but_cells_FlushRepeatedRun (e1 e2 : RleEncoder.t) :
  same_but_cells e1 e2 ->
  same_but_cells (RleEncoder.FlushRepeatedRun e1)
                 (RleEncoder.FlushRepeatedRun e2).
Proof.
  intros H. same_cells_start H.
  unfold RleEncoder.FlushRepeatedRun, same_but_cells. cbv zeta. enc_fields.
  conj_split; try assumption; try lia; intros i Hi; cbn in Hi; lia.
Qed.

Lemma same_but_cells_counts (e1 e2 : RleEncoder.t) :
  same_but_cells e1 e2 ->
  RleEncoder.num_buffered_values_ e1 = RleEncoder.num_buffered_values_ e2
  /\ RleEncoder.current_value_ e1 = RleEncoder.current_value_ e2
  /\ RleEncoder.repeat_count_ e1 = RleEncoder.repeat_count_ e2
  /\ RleEncoder.literal_count_ e1 = RleEncoder.literal_count_ e2.
Proof. intros (_ & H1 & H2 & H3 & H4 & _). auto. Qed.

Lemma same_but_cells_FlushBufferedValues (done : bool) (e1 e2 : RleEncoder.t) :
  same_but_cells e1 e2 ->
  same_but_cells (RleEncoder.FlushBufferedValues done e1)
                 (RleEncoder.FlushBufferedValues done e2).
Proof.
  intros H. destruct (same_but_cells_counts e1 e2 H) as (Hnb & Hcv & Hrc & Hlc).
  unfold RleEncoder.FlushBufferedValues. cbv zeta. enc_fields.
  rewrite <- Hrc, <- Hlc, <- Hnb.
  destruct (RleEncoder.repeat_count_ e1 >=? 8).
  - assert (H0 : same_but_cells (RleEncoder.set_num_buffered_values 0 e1)
                                (RleEncoder.set_num_buffered_values 0 e2)).
    { same_cells_start H. unfold same_but_cells. enc_fields.
      conj_split; try assumption; try lia; intros i Hi; cbn in Hi; lia. }
    destruct (negb (RleEncoder.literal_count_ e1 =? 0)); [|exact H0].
    apply same_but_cells_FlushLiteralRun. exact H0.
  - set (lc' := wrap_int32 (RleEncoder.literal_count_ e1
                             + RleEncoder.num_buffered_values_ e1)).
    assert (H1 : same_but_cells (RleEncoder.set_literal_count lc' e1)
                                (RleEncoder.set_literal_count lc' e2)).
    { same_cells_start H. unfold same_but_cells. enc_fields.
      conj_split; try assumption; lia. }
    assert (H2 : forall u,
               same_but_cells
                 (RleEncoder.set_repeat_count 0
                    (RleEncoder.FlushLiteralRun u
                       (RleEncoder.set_literal_count lc' e1)))
                 (RleEncoder.set_repeat_count 0
                    (RleEncoder.FlushLiteralRun u
                       (RleEncoder.set_literal_count lc' e2)))).
    { intros u. pose proof (same_but_cells_FlushLiteralRun u _ _ H1) as H3.
      revert H3. generalize (RleEncoder.FlushLiteralRun u
                               (RleEncoder.set_literal_count lc' e1)).
      generalize (RleEncoder.FlushLiteralRun u
                    (RleEncoder.set_literal_count lc' e2)).
      intros e2' e1' H3. clear -H3. same_cells_start H3.
      unfold same_but_cells. enc_fields. conj_split; try assumption; lia. }
    destruct (_ >=? 64); apply H2.
Qed.

Lemma same_but_cells_Put_buffer (v : bool) (e1 e2 : RleEncoder.t) :
  same_but_cells e1 e2 ->
  same_but_cells (RleEncoder.Put_buffer v e1) (RleEncoder.Put_buffer v e2).
Proof.
  intros H.
  assert (Hstore :
    same_but_cells
      (RleEncoder.set_num_buffered_values
         (wrap_int32 (RleEncoder.num_buffered_values_ e1 + 1))
         (RleEncoder.set_buffered_values
            (<[Z.to_nat (RleEncoder.num_buffered_values_ e1) := bool_to_Z v]>
               (RleEncoder.buffered_values_ e1)) e1))
      (RleEncoder.set_num_buffered_values
         (wrap_int32 (RleEncoder.num_buffered_values_ e2 + 1))
         (RleEncoder.set_buffered_values
            (<[Z.to_nat (RleEncoder.num_buffered_values_ e2) := bool_to_Z v]>
               (RleEncoder.buffered_values_ e2)) e2))).
  { same_cells_start H. unfold same_but_cells. enc_fields.
    rewrite !length_insert. conj_split; try assumption;
      try (unfold wrap_int32; lia).
    intros i Hi.
    destruct (Nat.eq_dec (Z.to_nat nb1) i) as [<-|Hne].
    - destruct (Nat.lt_ge_cases (Z.to_nat nb1) (length c1)) as [Hin|Hout].
      + rewrite !list_lookup_insert_eq by lia. reflexivity.
      + rewrite !list_insert_ge by lia.
        rewrite !lookup_ge_None_2 by lia. reflexivity.
    - rewrite !list_lookup_insert_ne by exact Hne.
      match goal with Hag : forall i : nat, _ -> _ = _ |- _ => apply Hag end.
      unfold wrap_int32 in Hi. lia. }
  unfold RleEncoder.Put_buffer. cbv zeta. enc_fields.
  destruct (same_but_cells_counts _ _ H) as (Hnb & _).
  rewrite <- Hnb in *.
  destruct (_ =? 8); [|exact Hstore].
  apply same_but_cells_FlushBufferedValues. exact Hstore.
Qed.

Lemma same_but_cells_run (cv : bool) (rc : Z) (e1 e2 : RleEncoder.t) :
  same_but_cells e1 e2 ->
  same_but_cells
    (RleEncoder.set_current_value cv (RleEncoder.set_repeat_count rc e1))
    (RleEncoder.set_current_value cv (RleEncoder.set_repeat_count rc e2)).
Proof.
  intros H. same_cells_start H. unfold same_but_cells. enc_fields.
  conj_split; try assumption; lia.
Qed.

Lemma same_but_cells_Put_value (v : bool) (e1 e2 : RleEncoder.t) :
  same_but_cells e1 e2 ->
  same_but_cells (RleEncoder.Put_value v e1) (RleEncoder.Put_value v e2).
Proof.
  intros H. destruct (same_but_cells_counts e1 e2 H) as (Hnb & Hcv & Hrc & Hlc).
  unfold RleEncoder.Put_value. cbv zeta. enc_fields.
  rewrite <- Hcv, <- Hrc.
  destruct (Bool.eqb (RleEncoder.current_value_ e1) v).
  - assert (H1 : forall rc,
               same_but_cells (RleEncoder.set_repeat_count rc e1)
                              (RleEncoder.set_repeat_count rc e2)).
    { intros rc. same_cells_start H. unfold same_but_cells. enc_fields.
      conj_split; try assumption; lia. }
    destruct (_ >? 8); [apply H1|].
    apply same_but_cells_Put_buffer, H1.
  - apply same_but_cells_Put_buffer, same_but_cells_run.
    destruct (_ >=? 8); [|exact H].
    apply same_but_cells_FlushRepeatedRun. exact H.
Qed.

Lemma same_but_cells_Put_loop (n : nat) :
  forall (v : bool) (e1 e2 : RleEncoder.t),
    same_but_cells e1 e2 ->
    same_but_cells (RleEncoder.Put_loop n v e1) (RleEncoder.Put_loop n v e2).
Proof.
  induction n as [|n IH]; intros v e1 e2 H; [exact H|].
  apply IH, same_but_cells_Put_value, H.
Qed.

Lemma same_but_cells_PutAll (s : schedule) :
  forall e1 e2 : RleEncoder.t,
    same_but_cells e1 e2 ->
    same_but_cells (PutAll s e1) (PutAll s e2).
Proof.
  induction s as [|[v n] s IH]; intros e1 e2 H; [exact H|].
  apply IH. apply same_but_cells_Put_loop, H.
Qed.

Lemma same_but_cells_Flush (e1 e2 : RleEncoder.t) :
  same_but_cells e1 e2 ->
  fst (RleEncoder.Flush e1) = fst (RleEncoder.Flush e2)
  /\ same_but_cells (snd (RleEncoder.Flush e1)) (snd (RleEncoder.Flush e2)).
Proof.
  intros H. destruct (same_but_cells_counts e1 e2 H) as (Hnb & Hcv & Hrc & Hlc).
  unfold RleEncoder.Flush, BitWriter.Finish. cbv zeta.
  rewrite <- Hnb, <- Hrc, <- Hlc.
  assert (Hfinish : forall e1' e2' : RleEncoder.t,
             same_but_cells e1' e2' ->
             wrap_int32
               (Z.of_nat (length (BitWriter.buffer (RleEncoder.bit_writer_ e1'))))
             = wrap_int32
                 (Z.of_nat
                    (length (BitWriter.buffer (RleEncoder.bit_writer_ e2'))))
             /\ same_but_cells
                  (RleEncoder.set_bit_writer
                     (BitWriter.mk
                        (BitWriter.buffer (RleEncoder.bit_writer_ e1')) 0) e1')
                  (RleEncoder.set_bit_writer
                     (BitWriter.mk
                        (BitWriter.buffer (RleEncoder.bit_writer_ e2')) 0) e2')).
  { intros e1' e2' H'. same_cells_start H'. unfold same_but_cells. enc_fields.
    conj_split; try assumption; lia. }
  cbn [fst snd].
  destruct (_ || _); [|apply Hfinish; exact H].
  destruct (_ && _).
  - apply Hfinish, same_but_cells_FlushRepeatedRun, H.
  - apply Hfinish.
    set (lc' := wrap_int32 _).
    assert (H1 : same_but_cells (RleEncoder.set_literal_count lc' e1)
                                (RleEncoder.set_literal_count lc' e2)).
    { same_cells_start H. unfold same_but_cells. enc_fields.
      conj_split; try assumption; lia. }
    pose proof (same_but_cells_FlushLiteralRun true _ _ H1) as H3.
    revert H3. generalize (RleEncoder.FlushLiteralRun true
                             (RleEncoder.set_literal_count lc' e1)).
    generalize (RleEncoder.FlushLiteralRun true
                  (RleEncoder.set_literal_count lc' e2)).
    intros e2' e1' H3. clear -H3. same_cells_start H3.
    unfold same_but_cells. enc_fields. conj_split; try assumption; lia.
Qed.

(** X11.  [Clear] makes an encoder as new: whatever it held, the bytes and
    the length a later sequence of [Put] calls and a [Flush] produce are those
    of a new encoder.  The lookahead cells [Clear] leaves as they are never
    reach the output. *)
Theorem Clear_makes_the_encoder_new (e0 : RleEncoder.t) (s : schedule) :
  length (RleEncoder.buffered_values_ e0) = 8%nat ->
  RleEncoder.buffer (snd (RleEncoder.Flush (PutAll s (RleEncoder.Clear e0))))
  = encode s
  /\ fst (RleEncoder.Flush (PutAll s (RleEncoder.Clear e0)))
     = fst (RleEncoder.Flush (PutAll s (RleEncoder.new []))).
Proof.
  intros Hcells.
  assert (H : same_but_cells (RleEncoder.Clear e0) (RleEncoder.new [])).
  { unfold same_but_cells. simpl. rewrite Hcells.
    conj_split; try lia; intros i Hi; lia. }
  apply (same_but_cells_PutAll s) in H.
  apply same_but_cells_Flush in H. destruct H as (Hlen & Hsame).
  split; [|exact Hlen].
  unfold encode, RleEncoder.buffer. destruct Hsame as (-> & _). reflexivity.
Qed.

Lemma Clear_makes_the_encoder_new_witness :
  RleEncoder.buffer
    (snd (RleEncoder.Flush
            (PutAll [(true, 3); (false, 2)]
               (RleEncoder.Clear
                  (PutAll [(true, 5); (false, 1)] (RleEncoder.new []))))))
  = encode [(true, 3); (false, 2)].
Proof.
  apply (Clear_makes_the_encoder_new
           (PutAll [(true, 5); (false, 1)] (RleEncoder.new []))
           [(true, 3); (false, 2)]).
  reflexivity.
Defined.

(** ** Exact output: repeated runs *)

Lemma eight_cells {A : Type} (l : list A) :
  length l = 8%nat ->
  exists a b c d e f g h, l = [a; b; c; d; e; f; g; h].
Proof.
  intros H.
  do 8 (destruct l as [|? l]; [discriminate H|]).
  destruct l; [|discriminate H]. eauto 10.
Qed.

(** Eight copies of a value put into an idle encoder start a repeated run. *)
Lemma Put_loop_eight_idle
    (w cells : list Z) (cv v : bool) (groups : list Z) :
  length cells = 8%nat ->
  RleEncoder.Put_loop 8 v (idle_encoder w cells cv groups)
  = RleEncoder.mk (BitWriter.mk w 0) (replicate 8 (bool_to_Z v)) 0 v 8 0 (-1)
      groups.
Proof.
  intros Hlen.
  destruct (eight_cells cells Hlen) as (a & b & c & d & e & f & g & h & ->).
  destruct cv, v; vm_compute; reflexivity.
Qed.

(** Fewer than eight copies stay in the lookahead. *)
Lemma Put_loop_short_idle
    (n : nat) (w cells : list Z) (cv v : bool) (groups : list Z) :
  length cells = 8%nat ->
  (1 <= n < 8)%nat ->
  let e := RleEncoder.Put_loop n v (idle_encoder w cells cv groups) in
  RleEncoder.bit_writer_ e = BitWriter.mk w 0
  /\ RleEncoder.num_buffered_values_ e = Z.of_nat n
  /\ RleEncoder.current_value_ e = v
  /\ RleEncoder.repeat_count_ e = Z.of_nat n
  /\ RleEncoder.literal_count_ e = 0.
Proof.
  intros Hlen Hn.
  destruct (eight_cells cells Hlen) as (a & b & c & d & e & f & g & h & ->).
  do 8 (destruct n as [|n]; [try lia; destruct cv, v; vm_compute; auto|]).
  lia.
Qed.

(** [Flush] with only a run of one value pending writes a repeated run. *)
Lemma Flush_repeated (e : RleEncoder.t) :
  0 < RleEncoder.repeat_count_ e < 2 ^ 30 ->
  RleEncoder.literal_count_ e = 0 ->
  RleEncoder.repeat_count_ e = RleEncoder.num_buffered_values_ e
  \/ RleEncoder.num_buffered_values_ e = 0 ->
  RleEncoder.buffer (snd (RleEncoder.Flush e))
  = RleEncoder.buffer e
    ++ repeated_run_bytes
         (RleEncoder.current_value_ e, RleEncoder.repeat_count_ e).
Proof.
  intros Hrc Hlc Hnb.
  unfold RleEncoder.Flush, BitWriter.Finish, RleEncoder.buffer. cbv zeta.
  replace (RleEncoder.repeat_count_ e >? 0) with true
    by (symmetry; apply Z.gtb_lt; lia).
  rewrite Hlc. cbn [Z.gtb Z.compare Z.eqb orb andb].
  replace ((RleEncoder.repeat_count_ e =? RleEncoder.num_buffered_values_ e)
           || (RleEncoder.num_buffered_values_ e =? 0)) with true.
  2:{ symmetry. apply orb_true_iff.
      destruct Hnb as [H|H]; [left|right]; apply Z.eqb_eq; exact H. }
  rewrite (FlushRepeatedRun_spec e Hrc). enc_fields.
  cbn [BitWriter.buffer]. reflexivity.
Qed.

(** A value that differs from the one of a pending repeated run: the run is
    written out first. *)
Lemma Put_value_ends_run (v : bool) (e : RleEncoder.t) :
  RleEncoder.current_value_ e <> v ->
  RleEncoder.Put_value v e
  = RleEncoder.Put_value v
      (if RleEncoder.repeat_count_ e >=? 8 then RleEncoder.FlushRepeatedRun e
       else e).
Proof.
  intros Hv.
  destruct (RleEncoder.repeat_count_ e >=? 8) eqn:Hrc; [|reflexivity].
  unfold RleEncoder.Put_value. rewrite Hrc.
  destruct (FlushRepeatedRun_fields e) as (_ & F2 & F3 & _).
  rewrite F3, F2.
  replace (Bool.eqb (RleEncoder.current_value_ e) v) with false
    by (symmetry; apply eqb_false_iff; exact Hv).
  reflexivity.
Qed.

Lemma expand_cons (v : bool) (n : Z) (rest : list (bool * Z)) :
  expand ((v, n) :: rest) = repeat v (Z.to_nat n) ++ expand rest.
Proof. reflexivity. Qed.

Lemma long_runs_encoded (runs : list (bool * Z)) :
  forall (w cells : list Z) (cv : bool) (groups : list Z),
    length cells = 8%nat ->
    long_runs runs ->
    RleEncoder.buffer
      (snd (RleEncoder.Flush
              (Put_values (expand runs) (idle_encoder w cells cv groups))))
    = w ++ concat (map repeated_run_bytes runs).
Proof.
  induction runs as [|[v n] rest IH]; intros w cells cv groups Hlen Hruns.
  - simpl. rewrite app_nil_r. reflexivity.
  - rewrite expand_cons, Put_values_app, Put_values_repeat.
    cbn [long_runs] in Hruns. cbn [map concat].
    destruct (Z.lt_ge_cases n 8) as [Hshort|Hlong].
    + (* the last run, fewer than 8 values *)
      destruct rest as [|[v' n'] rest]; [|lia].
      cbn [expand map concat Put_values fold_left]. rewrite app_nil_r.
      destruct (Put_loop_short_idle (Z.to_nat n) w cells cv v groups Hlen
                  ltac:(lia)) as (Hw & Hnb & Hcv & Hrc & Hlc).
      rewrite Z2Nat.id in Hnb, Hrc by lia.
      rewrite Flush_repeated; [| lia | exact Hlc | left; lia].
      unfold RleEncoder.buffer. rewrite Hw, Hcv, Hrc. reflexivity.
    + (* 8 values or more: a repeated run is being counted *)
      assert (Hn : 8 <= n < 2 ^ 30) by (destruct rest as [|[]]; lia).
      replace (Z.to_nat n) with (8 + Z.to_nat (n - 8))%nat by lia.
      rewrite Put_loop_app, (Put_loop_eight_idle w cells cv v groups Hlen).
      rewrite Put_loop_fast; enc_fields; [| reflexivity | lia | lia].
      replace (8 + Z.of_nat (Z.to_nat (n - 8))) with n by lia.
      unfold RleEncoder.set_repeat_count. enc_fields.
      destruct rest as [|[v' n'] rest'].
      * cbn [expand map concat Put_values fold_left]. rewrite app_nil_r.
        rewrite Flush_repeated; enc_fields; [reflexivity | lia | reflexivity
                                            | right; reflexivity].
      * destruct Hruns as (_ & Hvv & Hrest).
        assert (Hn' : 1 <= n').
        { cbn [long_runs] in Hrest. destruct rest' as [|[]]; lia. }
        rewrite expand_cons.
        replace (Z.to_nat n') with (S (Z.to_nat (n' - 1))) by lia.
        cbn [repeat app]. unfold Put_values at 1. cbn [fold_left].
        rewrite Put_one, Put_value_ends_run by (enc_fields; exact Hvv).
        enc_fields. replace (n >=? 8) with true
          by (symmetry; rewrite Z.geb_leb; apply Z.leb_le; lia).
        rewrite FlushRepeatedRun_spec by (enc_fields; lia). enc_fields.
        cbn [BitWriter.buffer].
        change (fold_left (fun e0 v0 => RleEncoder.Put v0 1 e0)
                  (repeat v' (Z.to_nat (n' - 1)) ++ expand rest')
                  (RleEncoder.Put_value v'
                     (RleEncoder.mk
                        (BitWriter.mk
                           (w ++ vlq_bytes (2 * n) ++ [bool_to_Z v]) 0)
                        (replicate 8 (bool_to_Z v)) 0 v 0 0 (-1) groups)))
          with (Put_values
                  (v' :: repeat v' (Z.to_nat (n' - 1)) ++ expand rest')
                  (idle_encoder (w ++ vlq_bytes (2 * n) ++ [bool_to_Z v])
                     (replicate 8 (bool_to_Z v)) v groups)).
        change (v' :: repeat v' (Z.to_nat (n' - 1)) ++ expand rest')
          with (repeat v' (S (Z.to_nat (n' - 1))) ++ expand rest').
        replace (S (Z.to_nat (n' - 1))) with (Z.to_nat n') by lia.
        rewrite <- expand_cons.
        rewrite IH; [| reflexivity | exact Hrest].
        unfold repeated_run_bytes at 2. cbn [fst snd map concat].
        rewrite <- !app_assoc. reflexivity.
Qed.

(** X12.  Values that come in runs of alternating values, each of 8 values
    or more (the last one of 1 or more), are encoded as one repeated run per
    run, the indicator [count << 1] as a VLQ and one byte for the value:
    100 ones then 100 zeros give [C8 01 01 C8 01 00]. *)
Theorem long_runs_encode_as_repeated_runs
    (s : schedule) (runs : list (bool * Z)) :
  long_runs runs ->
  flatten s = expand runs ->
  encode s = concat (map repeated_run_bytes runs).
Proof.
  intros Hruns Hs. rewrite encode_flatten, Hs.
  exact (long_runs_encoded runs [] (replicate 8 0) false [] eq_refl Hruns).
Qed.

Lemma long_runs_encode_as_repeated_runs_witness :
  encode [(true, 100); (false, 100)]
  = concat (map repeated_run_bytes [(true, 100); (false, 100)]).
Proof.
  apply (long_runs_encode_as_repeated_runs
           [(true, 100); (false, 100)] [(true, 100); (false, 100)]).
  - simpl. repeat split; try lia; discriminate.
  - reflexivity.
Defined.

(** ** Exact output: one literal run *)

Lemma constant_not_mixed (v : bool) (n : nat) : ~ mixed (repeat v n).
Proof.
  intros [Ht Hf]. apply repeat_spec in Ht. apply repeat_spec in Hf. congruence.
Qed.

Lemma new_collecting : collecting (RleEncoder.new []) [] [].
Proof.
  unfold collecting, literal_open. simpl. conj_split; try lia.
  split; [reflexivity | lia].
Qed.

(** Lines 310-311 of [Put] on an open literal run: the value joins the
    lookahead. *)
Lemma store_literal_open
    (v : bool) (e : RleEncoder.t) (lits : list Z) (bs : list bool) :
  literal_open e lits bs ->
  (length bs < 8)%nat ->
  let e1 :=
    RleEncoder.set_num_buffered_values (RleEncoder.num_buffered_values_ e + 1)
      (RleEncoder.set_buffered_values
         (<[Z.to_nat (RleEncoder.num_buffered_values_ e) := bool_to_Z v]>
            (RleEncoder.buffered_values_ e)) e) in
  RleEncoder.Put_buffer v e
  = (if RleEncoder.num_buffered_values_ e + 1 =? 8
     then RleEncoder.FlushBufferedValues false e1 else e1)
  /\ literal_open e1 lits (bs ++ [v]).
Proof.
  intros (Hw & Hcells & Hind & Hidx & Hlc & Hlits & Hnb & Hla & Hbs) Hshort.
  cbv zeta. split.
  - unfold RleEncoder.Put_buffer. cbv zeta. enc_fields.
    rewrite (wrap_int32_small (RleEncoder.num_buffered_values_ e + 1)) by lia.
    reflexivity.
  - unfold literal_open. rewrite lookahead_store, Hla by lia. enc_fields.
    rewrite length_insert, length_app. cbn [length].
    conj_split; try assumption; lia.
Qed.

Lemma literal_open_counts
    (e : RleEncoder.t) (lits : list Z) (bs : list bool) (cv : bool) (rc : Z) :
  literal_open e lits bs ->
  literal_open
    (RleEncoder.set_current_value cv (RleEncoder.set_repeat_count rc e))
    lits bs.
Proof. intros H. exact H. Qed.

(** One turn of the loop of [Put] up to the store: the count of equal
    values. *)
Lemma Put_value_counts
    (v : bool) (e : RleEncoder.t) (lits : list Z) (bs : list bool) :
  collecting e lits bs ->
  exists rc : Z,
    RleEncoder.Put_value v e
    = RleEncoder.Put_buffer v
        (RleEncoder.set_current_value v (RleEncoder.set_repeat_count rc e))
    /\ 1 <= rc <= Z.of_nat (length bs) + 1
    /\ (rc = Z.of_nat (length bs) + 1 ->
        bs ++ [v] = repeat v (length (bs ++ [v]))).
Proof.
  intros (Hopen & Hshort & Hrc & Hall).
  unfold RleEncoder.Put_value.
  destruct (Bool.eqb (RleEncoder.current_value_ e) v) eqn:Hcv.
  - apply eqb_prop in Hcv. cbv zeta. enc_fields.
    rewrite (wrap_int32_small (RleEncoder.repeat_count_ e + 1)) by lia.
    replace (RleEncoder.repeat_count_ e + 1 >? 8) with false
      by (symmetry; rewrite Z.gtb_ltb; apply Z.ltb_ge; lia).
    exists (RleEncoder.repeat_count_ e + 1). split; [|split; [lia|]].
    + f_equal. destruct e. cbn in *. subst. reflexivity.
    + intros Heq. rewrite Hall by lia.
      rewrite length_app, repeat_length, Hcv. cbn [length].
      rewrite Nat.add_1_r. apply repeat_snoc.
  - cbv zeta.
    replace (RleEncoder.repeat_count_ e >=? 8) with false
      by (symmetry; rewrite Z.geb_leb; apply Z.leb_gt; lia).
    exists 1. split; [reflexivity|]. split; [lia|].
    intros Heq. destruct bs; [reflexivity | cbn [length] in Heq; lia].
Qed.

(** A value put while fewer than 7 wait goes to the lookahead. *)
Lemma Put_value_collecting
    (v : bool) (e : RleEncoder.t) (lits : list Z) (bs : list bool) :
  collecting e lits bs ->
  (length bs < 7)%nat ->
  collecting (RleEncoder.Put_value v e) lits (bs ++ [v]).
Proof.
  intros Hc Hshort.
  destruct (Put_value_counts v e lits bs Hc) as (rc & -> & Hrc & Hall).
  destruct Hc as (Hopen & _ & _ & _).
  pose proof Hopen as (_ & _ & _ & _ & _ & _ & Hnb & _).
  destruct (store_literal_open v _ lits bs
              (literal_open_counts e lits bs v rc Hopen) ltac:(lia))
    as (-> & Hopen1).
  enc_fields.
  replace (RleEncoder.num_buffered_values_ e + 1 =? 8) with false
    by (symmetry; apply Z.eqb_neq; lia).
  unfold collecting. enc_fields. rewrite length_app. cbn [length].
  conj_split; try assumption; try lia.
  intros Heq. rewrite Hall at 1 by lia.
  rewrite length_app. reflexivity.
Qed.

Lemma Put_values_collecting (ws : list bool) :
  forall (e : RleEncoder.t) (lits : list Z) (bs : list bool),
    collecting e lits bs ->
    (length bs + length ws < 8)%nat ->
    collecting (Put_values ws e) lits (bs ++ ws).
Proof.
  induction ws as [|v ws IH]; intros e lits bs Hc Hlen.
  - rewrite app_nil_r. exact Hc.
  - unfold Put_values. cbn [fold_left]. rewrite Put_one.
    cbn [length] in Hlen.
    replace (bs ++ v :: ws) with ((bs ++ [v]) ++ ws)
      by (rewrite <- app_assoc; reflexivity).
    apply IH.
    + apply Put_value_collecting; [exact Hc | lia].
    + rewrite length_app. cbn [length]. lia.
Qed.

(** The eighth value of a group that holds both values: the group goes out
    as one more literal group, and closes the run when it is the 63rd. *)
Lemma Put_value_group
    (v : bool) (e : RleEncoder.t) (lits : list Z) (bs : list bool) :
  collecting e lits bs ->
  length bs = 7%nat ->
  mixed (bs ++ [v]) ->
  let e' := RleEncoder.Put_value v e in
  let lits' := lits ++ [pack (bs ++ [v])] in
  ((length lits < 62)%nat -> collecting e' lits' [])
  /\ (length lits = 62%nat ->
      RleEncoder.bit_writer_ e' = BitWriter.mk (127 :: lits') 0
      /\ RleEncoder.num_buffered_values_ e' = 0
      /\ RleEncoder.repeat_count_ e' = 0
      /\ RleEncoder.literal_count_ e' = 0).
Proof.
  intros Hc H7 Hmixed. cbv zeta.
  destruct (Put_value_counts v e lits bs Hc) as (rc & -> & Hrc & Hall).
  destruct Hc as (Hopen & _ & _ & _).
  pose proof Hopen as (_ & _ & _ & _ & _ & _ & Hnb & _).
  destruct (store_literal_open v _ lits bs
              (literal_open_counts e lits bs v rc Hopen) ltac:(lia))
    as (-> & Hopen1).
  enc_fields.
  replace (RleEncoder.num_buffered_values_ e + 1 =? 8) with true
    by (symmetry; apply Z.eqb_eq; lia).
  set (e1 := RleEncoder.set_num_buffered_values _ _) in *.
  assert (Hrc8 : rc < 8).
  { destruct (Z.eq_dec rc 8) as [->|]; [|lia].
    exfalso. rewrite Hall in Hmixed by lia.
    exact (constant_not_mixed _ _ Hmixed). }
  destruct Hopen1 as (Hw & Hcells & Hind & Hidx & Hlc & Hlits & Hnb1 & Hla & Hbs).
  rewrite length_app in Hnb1. cbn [length] in Hnb1.
  assert (Hnb8 : RleEncoder.num_buffered_values_ e1 = 8) by lia.
  unfold RleEncoder.FlushBufferedValues.
  replace (RleEncoder.repeat_count_ e1 >=? 8) with false
    by (symmetry; rewrite Z.geb_leb; apply Z.leb_gt; subst e1; enc_fields; lia).
  cbv zeta. enc_fields. rewrite Hnb8.
  rewrite (wrap_int32_small (RleEncoder.literal_count_ e1 + 8)) by lia.
  replace (RleEncoder.literal_count_ e1 + 8)
    with (8 * (Z.of_nat (length lits) + 1)) by lia.
  rewrite BitmapSize_groups, wrap_int32_small by lia.
  set (e2 := RleEncoder.set_literal_count _ e1).
  assert (Hspec := fun u =>
    FlushLiteralRun_spec u e2 [] lits Hw
      (fun H => proj1 Hind H) Hidx ltac:(simpl; lia)
      ltac:(subst e2; enc_fields; lia)).
  cbv zeta in Hspec.
  assert (Hla2 : lookahead e2 = bs ++ [v]) by exact Hla.
  assert (Hnb2 : RleEncoder.num_buffered_values_ e2 = 8) by exact Hnb8.
  assert (Hlc2 : RleEncoder.literal_count_ e2
                 = 8 * (Z.of_nat (length lits) + 1)) by reflexivity.
  rewrite Hla2, Hnb2, Hlc2 in Hspec.
  change (8 =? 0) with false in Hspec.
  change (Z.to_nat 8 mod 8)%nat with 0%nat in Hspec.
  rewrite BitmapSize_groups in Hspec. cbn [app length] in Hspec.
  destruct (Z.geb_spec (Z.of_nat (length lits) + 1 + 1) 64) as [Hfull|Hroom].
  - rewrite (Hspec true). rewrite literal_indicator_byte by lia.
    enc_fields. split; [lia|]. intros H62.
    replace (2 * (Z.of_nat (length lits) + 1) + 1) with 127 by lia.
    auto.
  - rewrite (Hspec false). split; [|lia]. intros _.
    unfold collecting, literal_open. enc_fields.
    rewrite length_app. cbn [length app]. rewrite open_run_some.
    conj_split; try assumption; try lia; try (intros _; reflexivity).
    split; [lia|]. intros Habs. destruct lits; discriminate Habs.
Qed.

(** [Flush] inside a literal run closes it. *)
Lemma Flush_collecting (e : RleEncoder.t) (lits : list Z) (bs : list bool) :
  collecting e lits bs ->
  lits <> [] \/ mixed bs ->
  RleEncoder.buffer (snd (RleEncoder.Flush e))
  = match bs with
    | [] => (2 * Z.of_nat (length lits) + 1) :: lits
    | _ :: _ => (2 * (Z.of_nat (length lits) + 1) + 1) :: lits ++ [pack bs]
    end.
Proof.
  intros (Hopen & Hshort & Hrc & Hall) Hsome.
  destruct Hopen as (Hw & Hcells & Hind & Hidx & Hlc & Hlits & Hnb & Hla & Hbs).
  unfold RleEncoder.Flush, BitWriter.Finish, RleEncoder.buffer. cbv zeta.
  assert (Hpending :
    (RleEncoder.literal_count_ e >? 0) || (RleEncoder.repeat_count_ e >? 0)
    || (RleEncoder.num_buffered_values_ e >? 0) = true).
  { destruct Hsome as [Hl|[Ht _]].
    - replace (RleEncoder.literal_count_ e >? 0) with true; [reflexivity|].
      symmetry. apply Z.gtb_lt. destruct lits; [congruence | simpl in *; lia].
    - replace (RleEncoder.num_buffered_values_ e >? 0) with true;
        [apply orb_true_r|].
      symmetry. apply Z.gtb_lt. destruct bs; [destruct Ht | simpl in *; lia]. }
  rewrite Hpending.
  assert (Hliteral :
    (RleEncoder.repeat_count_ e >? 0)
    && ((RleEncoder.literal_count_ e =? 0)
        && ((RleEncoder.repeat_count_ e =? RleEncoder.num_buffered_values_ e)
            || (RleEncoder.num_buffered_values_ e =? 0))) = false).
  { destruct Hsome as [Hl|Hm].
    - replace (RleEncoder.literal_count_ e =? 0) with false;
        [apply andb_false_r|].
      symmetry. apply Z.eqb_neq. destruct lits; [congruence | simpl in *; lia].
    - destruct (Z.eqb_spec (RleEncoder.repeat_count_ e)
                  (RleEncoder.num_buffered_values_ e)) as [Heq|Hne].
      + exfalso. rewrite Hall in Hm by lia.
        exact (constant_not_mixed _ _ Hm).
      + replace (RleEncoder.num_buffered_values_ e =? 0) with false.
        * cbn [orb]. rewrite andb_false_r, andb_false_r. reflexivity.
        * symmetry. apply Z.eqb_neq. destruct Hm as [Ht _].
          destruct bs; [destruct Ht | simpl in *; lia]. }
  rewrite Hliteral. enc_fields.
  rewrite (wrap_int32_small
             (RleEncoder.literal_count_ e + RleEncoder.num_buffered_values_ e))
    by lia.
  set (e2 := RleEncoder.set_literal_count _ e).
  assert (Hspec :=
    FlushLiteralRun_spec true e2 [] lits Hw
      (fun H => proj1 Hind H) Hidx ltac:(simpl; lia)
      ltac:(subst e2; enc_fields; lia)).
  cbv zeta in Hspec. rewrite Hspec. enc_fields.
  cbn [BitWriter.buffer app].
  assert (Hla2 : lookahead e2 = bs) by exact Hla.
  assert (Hnb2 : RleEncoder.num_buffered_values_ e2 = Z.of_nat (length bs))
    by exact Hnb.
  assert (Hlc2 : RleEncoder.literal_count_ e2
                 = 8 * Z.of_nat (length lits) + Z.of_nat (length bs)).
  { subst e2. enc_fields. lia. }
  rewrite Hla2, Hnb2, Hlc2.
  destruct bs as [|b bs].
  - cbn [length Z.of_nat Z.eqb]. rewrite Z.add_0_r, app_nil_r.
    rewrite BitmapSize_groups.
    assert (Hl : (1 <= length lits)%nat).
    { destruct Hsome as [Hl|[[] _]]. destruct lits; [congruence|simpl; lia]. }
    rewrite literal_indicator_byte by lia. reflexivity.
  - replace (Z.of_nat (length (b :: bs)) =? 0) with false
      by (symmetry; apply Z.eqb_neq; cbn [length]; lia).
    rewrite BitmapSize_partial_group by (cbn [length] in *; lia).
    rewrite literal_indicator_byte by lia. reflexivity.
Qed.

Lemma Flush_nothing_pending (e : RleEncoder.t) :
  RleEncoder.num_buffered_values_ e = 0 ->
  RleEncoder.repeat_count_ e = 0 ->
  RleEncoder.literal_count_ e = 0 ->
  RleEncoder.buffer (snd (RleEncoder.Flush e)) = RleEncoder.buffer e.
Proof.
  intros Hnb Hrc Hlc. unfold RleEncoder.Flush, BitWriter.Finish. cbv zeta.
  rewrite Hnb, Hrc, Hlc. reflexivity.
Qed.

Lemma Put_values_snoc (ws : list bool) (v : bool) (e : RleEncoder.t) :
  Put_values (ws ++ [v]) e = RleEncoder.Put_value v (Put_values ws e).
Proof. rewrite Put_values_app. reflexivity. Qed.

Lemma literal_groups_encoded (groups : list (list bool)) :
  forall (e : RleEncoder.t) (lits : list Z),
    collecting e lits [] ->
    literal_groups groups ->
    (length lits + length groups <= 63)%nat ->
    lits <> [] \/ groups <> [] ->
    RleEncoder.buffer
      (snd (RleEncoder.Flush (Put_values (concat groups) e)))
    = (2 * Z.of_nat (length lits + length groups) + 1)
      :: lits ++ map pack groups.
Proof.
  induction groups as [|g rest IH]; intros e lits Hc Hgroups Hlen Hsome.
  - cbn [concat Put_values fold_left map length].
    rewrite (Flush_collecting e lits [] Hc) by (destruct Hsome; [left|]; auto).
    rewrite Nat.add_0_r, app_nil_r. reflexivity.
  - destruct Hgroups as (Hmixed & Hg & Hrest).
    cbn [concat map length] in *. rewrite Put_values_app.
    assert (Hg8 : (length g <= 8)%nat) by (destruct rest; lia).
    destruct (Nat.eq_dec (length g) 8%nat) as [H8|Hshort].
    + (* a full group *)
      destruct (exists_last (l := g)) as (bs & v & ->).
      { intros ->. discriminate H8. }
      rewrite length_app in H8. cbn [length] in H8.
      rewrite Put_values_snoc.
      pose proof (Put_values_collecting bs e lits [] Hc ltac:(simpl; lia))
        as Hc1.
      cbn [app] in Hc1.
      destruct (Put_value_group v _ lits bs Hc1 ltac:(lia) Hmixed)
        as (Hroom & Hfull).
      destruct (Nat.eq_dec (length lits) 62%nat) as [H62|Hn62].
      * destruct rest as [|g' rest]; [|cbn [length] in Hlen; lia].
        destruct (Hfull H62) as (Hw & Hnb & Hrc & Hlc).
        cbn [concat Put_values fold_left map].
        rewrite Flush_nothing_pending by assumption.
        unfold RleEncoder.buffer. rewrite Hw. cbn [BitWriter.buffer length].
        rewrite H62. reflexivity.
      * destruct Hc1 as ((_ & _ & _ & _ & _ & Hl & _) & _).
        rewrite (IH _ (lits ++ [pack (bs ++ [v])]));
          [| apply Hroom; lia | exact Hrest
           | rewrite length_app; cbn [length]; lia
           | left; intros Habs; destruct lits; discriminate Habs].
        rewrite length_app, <- app_assoc. cbn [length app].
        do 3 f_equal. lia.
    + (* the last group, not full *)
      destruct rest as [|g' rest]; [|lia].
      cbn [concat Put_values fold_left map length].
      pose proof (Put_values_collecting g e lits [] Hc ltac:(simpl; lia))
        as Hc1.
      cbn [app] in Hc1.
      rewrite (Flush_collecting _ lits g Hc1) by (right; exact Hmixed).
      destruct g as [|b g]; [destruct Hmixed as [[] _]|].
      do 2 f_equal. lia.
Qed.

(** X13.  Values that come in at most 63 groups of 8 (the last one may be
    shorter), each group holding both values, are encoded as one literal
    run: the indicator byte [(groups << 1) | 1], then one byte for each
    group, its first value in bit 0. *)
Theorem mixed_groups_encode_as_one_literal_run
    (s : schedule) (groups : list (list bool)) :
  literal_groups groups ->
  (1 <= length groups <= 63)%nat ->
  flatten s = concat groups ->
  encode s = (2 * Z.of_nat (length groups) + 1) :: map pack groups.
Proof.
  intros Hgroups Hlen Hs. rewrite encode_flatten, Hs.
  rewrite (literal_groups_encoded groups (RleEncoder.new []) []
             new_collecting Hgroups);
    [reflexivity | simpl; lia |].
  right. intros ->. simpl in Hlen. lia.
Qed.

Lemma mixed_groups_encode_as_one_literal_run_witness :
  encode [(false, 4); (true, 5); (false, 2)]
  = (2 * Z.of_nat
           (length [[false; false; false; false; true; true; true; true];
                    [true; false; false]]) + 1)
    :: map pack [[false; false; false; false; true; true; true; true];
                 [true; false; false]].
Proof.
  apply (mixed_groups_encode_as_one_literal_run
           [(false, 4); (true, 5); (false, 2)]
           [[false; false; false; false; true; true; true; true];
            [true; false; false]]).
  - simpl. unfold mixed. simpl. intuition lia.
  - simpl. lia.
  - reflexivity.
Defined.

(** ** The size of the output *)

(** X15.  The output is never larger than a quarter of the values plus two
    bytes: for [n] values (fewer than 2^30) the encoder writes at most
    [(n + 7) / 4] bytes, and that number of bytes is what [Flush] returns. *)
Theorem encoded_size_bound (s : schedule) :
  Z.of_nat (length (flatten s)) < 2 ^ 30 ->
  4 * Z.of_nat (length (encode s)) <= Z.of_nat (length (flatten s)) + 7
  /\ fst (RleEncoder.Flush (PutAll s (RleEncoder.new [])))
     = Z.of_nat (length (encode s)).
Proof.
  intros Hfit.
  assert (Hsize : 4 * Z.of_nat (length (encode s))
                  <= Z.of_nat (length (flatten s)) + 7).
  { unfold encode. rewrite PutAll_flatten.
    destruct (Flush_Stream (Put_values (flatten s) (RleEncoder.new []))
                (flatten s)) as (pad & _ & _ & Hsize); [|exact Hfit|exact Hsize].
    apply (Put_values_inv (flatten s) (RleEncoder.new []) []);
      [exact new_encoder_inv | simpl; lia]. }
  split; [exact Hsize|].
  unfold encode, RleEncoder.Flush, BitWriter.Finish, RleEncoder.buffer in *.
  cbv zeta in *. cbn [fst snd] in *. enc_fields. cbn [BitWriter.buffer] in *.
  apply wrap_int32_small. lia.
Qed.

Lemma encoded_size_bound_witness :
  4 * Z.of_nat (length (encode [(true, 1)]))
  <= Z.of_nat (length (flatten [(true, 1)])) + 7.
Proof.
  apply (encoded_size_bound [(true, 1)]). vm_compute. reflexivity.
Defined.

(** ** Outputs one after the other *)

(** X16.  Outputs can be put one after the other: the decoder reads the bytes
    of one encoder followed by the bytes of another as the values of the
    first, its padding, the values of the second and its padding. *)
Theorem concatenated_outputs_decode (s1 s2 : schedule) (val : bool) :
  Z.of_nat (length (flatten s1)) < 2 ^ 30 ->
  Z.of_nat (length (flatten s2)) < 2 ^ 30 ->
  exists pad1 pad2 : nat,
    (pad1 < 8)%nat /\ (pad2 < 8)%nat
    /\ GetAll (S (length (flatten s1) + pad1 + length (flatten s2) + pad2))
         val (RleDecoder.new (encode s1 ++ encode s2))
       = Some (flatten s1 ++ repeat false pad1
               ++ flatten s2 ++ repeat false pad2).
Proof.
  intros Hfit1 Hfit2.
  destruct (encode_Stream s1 Hfit1) as (pad1 & Hpad1 & HS1).
  destruct (encode_Stream s2 Hfit2) as (pad2 & Hpad2 & HS2).
  exists pad1, pad2. conj_split; try assumption.
  pose proof (Stream_app _ _ HS1 _ _ HS2) as HS.
  rewrite <- !app_assoc in HS.
  apply Decodes_GetAll; [apply Stream_new_Decodes; exact HS|].
  rewrite !length_app, !repeat_length. lia.
Qed.

Lemma concatenated_outputs_decode_witness :
  exists pad1 pad2 : nat,
    (pad1 < 8)%nat /\ (pad2 < 8)%nat
    /\ GetAll
         (S (length (flatten [(true, 9)]) + pad1
             + length (flatten [(false, 1); (true, 2)]) + pad2))
         false
         (RleDecoder.new (encode [(true, 9)] ++ encode [(false, 1); (true, 2)]))
       = Some (flatten [(true, 9)] ++ repeat false pad1
               ++ flatten [(false, 1); (true, 2)] ++ repeat false pad2).
Proof.
  apply (concatenated_outputs_decode [(true, 9)] [(false, 1); (true, 2)] false);
    vm_compute; reflexivity.
Defined.

(** ** [Put] after [Flush] *)

Lemma writer_after_PutBool (p : list Z) (b : bool) (w1 w2 : BitWriter.t) :
  writer_after p w1 w2 ->
  writer_after p (BitWriter.PutBool b w1) (BitWriter.PutBool b w2).
Proof.
  destruct w1 as [b1 o1], w2 as [b2 o2]. unfold writer_after. cbn.
  intros (-> & -> & Hne). unfold BitWriter.PutBool. cbn.
  destruct o1 as [|o1]; cbn.
  - rewrite app_assoc. conj_split. right. destruct b1; discriminate.
  - destruct Hne as [Hne|Hne]; [discriminate Hne|].
    assert (Hlen : (1 <= length b1)%nat)
      by (destruct b1; [congruence | simpl; lia]).
    rewrite length_app.
    replace (length p + length b1 - 1)%nat
      with (length p + (length b1 - 1))%nat by lia.
    rewrite lookup_app_r by lia.
    replace (length p + (length b1 - 1) - length p)%nat
      with (length b1 - 1)%nat by lia.
    rewrite insert_app_r. conj_split. right.
    intros Habs. apply (f_equal length) in Habs.
    rewrite length_insert in Habs. simpl in Habs. lia.
Qed.

Lemma writer_after_PutBools
    (p : list Z) (f1 f2 : nat -> bool) (l : list nat) :
  (forall i, In i l -> f2 i = f1 i) ->
  forall w1 w2 : BitWriter.t,
    writer_after p w1 w2 ->
    writer_after p
      (fold_left (fun w i => BitWriter.PutBool (f1 i) w) l w1)
      (fold_left (fun w i => BitWriter.PutBool (f2 i) w) l w2).
Proof.
  induction l as [|i l IH]; intros Hf w1 w2 H; [exact H|].
  cbn [fold_left]. apply IH; [intros j Hj; apply Hf; right; exact Hj|].
  rewrite (Hf i (or_introl eq_refl)). apply writer_after_PutBool, H.
Qed.

Lemma writer_after_append (p : list Z) (w1 w2 : BitWriter.t) (bytes : list Z) :
  writer_after p w1 w2 ->
  writer_after p (BitWriter.mk (BitWriter.buffer w1 ++ bytes) 0)
                 (BitWriter.mk (BitWriter.buffer w2 ++ bytes) 0).
Proof.
  intros (Hb & _ & _). unfold writer_after. cbn.
  rewrite Hb, app_assoc. auto.
Qed.

Lemma writer_after_store_byte
    (p : list Z) (w1 w2 : BitWriter.t) (i v : Z) :
  writer_after p w1 w2 ->
  0 <= i ->
  writer_after p (RleEncoder.store_byte i v w1)
                 (RleEncoder.store_byte (i + Z.of_nat (length p)) v w2).
Proof.
  destruct w1 as [b1 o1], w2 as [b2 o2]. unfold writer_after. cbn.
  intros (-> & -> & Hne) Hi. unfold RleEncoder.store_byte. cbn.
  rewrite length_app.
  replace (0 <=? i + Z.of_nat (length p)) with true
    by (symmetry; apply Z.leb_le; lia).
  replace (0 <=? i) with true by (symmetry; apply Z.leb_le; lia).
  cbn [andb].
  destruct (Z.ltb_spec i (Z.of_nat (length b1))) as [Hin|Hout].
  - replace (i + Z.of_nat (length p)
             <? Z.of_nat (length p + length b1)) with true
      by (symmetry; apply Z.ltb_lt; lia).
    cbn.
    replace (Z.to_nat (i + Z.of_nat (length p)))
      with (length p + Z.to_nat i)%nat by lia.
    rewrite insert_app_r. conj_split.
    destruct Hne as [Hne|Hne]; [left; exact Hne|right].
    intros Habs. apply (f_equal length) in Habs.
    rewrite length_insert in Habs. destruct b1; [congruence|discriminate Habs].
  - replace (i + Z.of_nat (length p)
             <? Z.of_nat (length p + length b1)) with false
      by (symmetry; apply Z.ltb_ge; lia).
    cbn. auto.
Qed.

Ltac after_start H :=
  match type of H with
  | encoder_after ?p ?e1 ?e2 =>
      destruct e1 as [w1 c1 nb1 cv1 rc1 lc1 li1 g1];
      destruct e2 as [w2 c2 nb2 cv2 rc2 lc2 li2 g2];
      unfold encoder_after in H; enc_fields;
      destruct H as (Hw & -> & -> & -> & Hcv & Hli & Hcells & Hnb & Hag)
  end.

Lemma encoder_after_FlushLiteralRun
    (u : bool) (p : list Z) (e1 e2 : RleEncoder.t) :
  encoder_after p e1 e2 ->
  Z.of_nat (length p)
  + Z.of_nat (length (BitWriter.buffer (RleEncoder.bit_writer_ e1))) < 2 ^ 31 ->
  encoder_after p (RleEncoder.FlushLiteralRun u e1)
                  (RleEncoder.FlushLiteralRun u e2).
Proof.
  intros H Hfit. after_start H.
  unfold RleEncoder.FlushLiteralRun, BitWriter.GetByteIndexAndAdvance.
  enc_fields.
  (* the indicator is reserved on both sides or on neither *)
  assert (Hres :
    exists (w1' w2' : BitWriter.t) (li1' : Z),
      (if li1 <? 0
       then RleEncoder.set_literal_indicator_byte
              (wrap_int32 (Z.of_nat (length (BitWriter.buffer w1))))
              (RleEncoder.set_bit_writer
                 (BitWriter.mk (BitWriter.buffer w1 ++ [0]) 0)
                 (RleEncoder.mk w1 c1 nb1 cv1 rc1 lc1 li1 g1))
       else RleEncoder.mk w1 c1 nb1 cv1 rc1 lc1 li1 g1)
      = RleEncoder.mk w1' c1 nb1 cv1 rc1 lc1 li1' g1
      /\ (if li2 <? 0
          then RleEncoder.set_literal_indicator_byte
                 (wrap_int32 (Z.of_nat (length (BitWriter.buffer w2))))
                 (RleEncoder.set_bit_writer
                    (BitWriter.mk (BitWriter.buffer w2 ++ [0]) 0)
                    (RleEncoder.mk w2 c2 nb1 cv2 rc1 lc1 li2 g2))
          else RleEncoder.mk w2 c2 nb1 cv2 rc1 lc1 li2 g2)
         = RleEncoder.mk w2' c2 nb1 cv2 rc1 lc1
             (li1' + Z.of_nat (length p)) g2
      /\ writer_after p w1' w2'
      /\ 0 <= li1').
  { destruct (Z.ltb_spec li1 0) as [Hneg|Hpos].
    - replace (li2 <? 0) with true by (symmetry; apply Z.ltb_lt; exact Hli).
      exists (BitWriter.mk (BitWriter.buffer w1 ++ [0]) 0),
        (BitWriter.mk (BitWriter.buffer w2 ++ [0]) 0),
        (Z.of_nat (length (BitWriter.buffer w1))).
      destruct Hw as (Hb & Ho & Hne).
      rewrite Hb, length_app.
      rewrite !wrap_int32_small by lia.
      unfold RleEncoder.set_literal_indicator_byte, RleEncoder.set_bit_writer.
      enc_fields. conj_split; try lia.
      + f_equal. lia.
      + rewrite <- Hb. apply writer_after_append.
        unfold writer_after. auto.
    - replace (li2 <? 0) with false by (symmetry; apply Z.ltb_ge; lia).
      exists w1, w2, li1. subst li2. conj_split; try assumption. }
  destruct Hres as (w1' & w2' & li1' & -> & -> & Hw' & Hli').
  enc_fields.
  pose proof (writer_after_PutBools p
                (fun i => Z_to_bool (default 0 (c1 !! i)))
                (fun i => Z_to_bool (default 0 (c2 !! i)))
                (seq 0 (Z.to_nat nb1))) as Hfold.
  specialize (Hfold ltac:(intros i Hi; apply in_seq in Hi; cbv beta;
                           rewrite (Hag i) by lia; reflexivity) w1' w2' Hw').
  cbv beta in Hfold.
  destruct u.
  - unfold encoder_after. enc_fields.
    split; [apply writer_after_store_byte; assumption|].
    change (-1 <? 0) with true. cbv iota.
    conj_split; try assumption; try lia; intros i Hi; cbn in Hi; lia.
  - unfold encoder_after. enc_fields.
    split; [exact Hfold|].
    replace (li1' <? 0) with false by (symmetry; apply Z.ltb_ge; lia).
    conj_split; try assumption; try lia; intros i Hi; cbn in Hi; lia.
Qed.

Lemma encoder_after_FlushRepeatedRun (p : list Z) (e1 e2 : RleEncoder.t) :
  encoder_after p e1 e2 ->
  RleEncoder.repeat_count_ e1 <> 0 ->
  encoder_after p (RleEncoder.FlushRepeatedRun e1)
                  (RleEncoder.FlushRepeatedRun e2).
Proof.
  intros H Hrc. after_start H. enc_fields.
  destruct Hcv as [->|]; [|contradiction].
  unfold RleEncoder.FlushRepeatedRun. cbv zeta. enc_fields.
  rewrite !PutVlqInt_buffer. unfold BitWriter.PutAligned.
  cbn [BitWriter.buffer]. unfold encoder_after. enc_fields.
  split.
  - apply (writer_after_append p
             (BitWriter.mk (BitWriter.buffer w1 ++ _) 0)
             (BitWriter.mk (BitWriter.buffer w2 ++ _) 0)).
    apply writer_after_append. exact Hw.
  - conj_split; try assumption; try lia; try (right; reflexivity);
      intros i Hi; cbn in Hi; lia.
Qed.

Lemma encoder_after_counts (p : list Z) (e1 e2 : RleEncoder.t) :
  encoder_after p e1 e2 ->
  RleEncoder.num_buffered_values_ e2 = RleEncoder.num_buffered_values_ e1
  /\ RleEncoder.repeat_count_ e2 = RleEncoder.repeat_count_ e1
  /\ RleEncoder.literal_count_ e2 = RleEncoder.literal_count_ e1
  /\ BitWriter.buffer (RleEncoder.bit_writer_ e2)
     = p ++ BitWriter.buffer (RleEncoder.bit_writer_ e1).
Proof. intros ((Hb & _) & H1 & H2 & H3 & _). auto. Qed.

(** Changes of the counts that keep the lookahead or empty it. *)
Lemma encoder_after_set_counts
    (p : list Z) (e1 e2 : RleEncoder.t) (nb rc lc : Z) :
  encoder_after p e1 e2 ->
  nb = RleEncoder.num_buffered_values_ e1 \/ nb = 0 ->
  rc = 0 \/ RleEncoder.current_value_ e2 = RleEncoder.current_value_ e1 ->
  encoder_after p
    (RleEncoder.set_num_buffered_values nb
       (RleEncoder.set_repeat_count rc (RleEncoder.set_literal_count lc e1)))
    (RleEncoder.set_num_buffered_values nb
       (RleEncoder.set_repeat_count rc (RleEncoder.set_literal_count lc e2))).
Proof.
  intros H Hnb' Hrc'. after_start H. unfold encoder_after. enc_fields.
  split; [exact Hw|].
  conj_split; try assumption; try lia.
  - destruct Hrc' as [Hz|Heq]; [right; exact Hz | left; exact Heq].
  - intros i Hi. apply Hag. destruct Hnb' as [->| ->]; [exact Hi|cbn in Hi; lia].
Qed.

Lemma set_counts_same (e : RleEncoder.t) :
  RleEncoder.set_num_buffered_values (RleEncoder.num_buffered_values_ e)
    (RleEncoder.set_repeat_count (RleEncoder.repeat_count_ e)
       (RleEncoder.set_literal_count (RleEncoder.literal_count_ e) e))
  = e.
Proof. destruct e; reflexivity. Qed.

Lemma encoder_after_FlushBufferedValues
    (done : bool) (p : list Z) (e1 e2 : RleEncoder.t) :
  encoder_after p e1 e2 ->
  Z.of_nat (length p)
  + Z.of_nat (length (BitWriter.buffer (RleEncoder.bit_writer_ e1))) < 2 ^ 31 ->
  encoder_after p (RleEncoder.FlushBufferedValues done e1)
                  (RleEncoder.FlushBufferedValues done e2).
Proof.
  intros H Hfit.
  destruct (encoder_after_counts p e1 e2 H) as (Kn & Kr & Kl & _).
  unfold RleEncoder.FlushBufferedValues. cbv zeta. enc_fields.
  rewrite Kn, Kr, Kl. clear Kn Kr Kl.
  destruct (RleEncoder.repeat_count_ e1 >=? 8) eqn:Hge.
  - assert (H0 : encoder_after p (RleEncoder.set_num_buffered_values 0 e1)
                                 (RleEncoder.set_num_buffered_values 0 e2)).
    { clear Hfit Hge. after_start H. unfold encoder_after. enc_fields.
      split; [exact Hw|].
      conj_split; try assumption; try lia; intros i Hi; cbn in Hi; lia. }
    destruct (negb (RleEncoder.literal_count_ e1 =? 0)); [|exact H0].
    apply encoder_after_FlushLiteralRun; [exact H0|].
    destruct e1; exact Hfit.
  - set (lc' := wrap_int32 (RleEncoder.literal_count_ e1
                             + RleEncoder.num_buffered_values_ e1)).
    assert (H1 : encoder_after p (RleEncoder.set_literal_count lc' e1)
                                 (RleEncoder.set_literal_count lc' e2)).
    { after_start H. unfold encoder_after. enc_fields.
      split; [exact Hw|]. conj_split; try assumption; lia. }
    assert (H2 : forall u,
               encoder_after p
                 (RleEncoder.set_repeat_count 0
                    (RleEncoder.FlushLiteralRun u
                       (RleEncoder.set_literal_count lc' e1)))
                 (RleEncoder.set_repeat_count 0
                    (RleEncoder.FlushLiteralRun u
                       (RleEncoder.set_literal_count lc' e2)))).
    { intros u.
      pose proof (encoder_after_FlushLiteralRun u p _ _ H1
                    ltac:(destruct e1; exact Hfit)) as H3.
      revert H3. generalize (RleEncoder.FlushLiteralRun u
                               (RleEncoder.set_literal_count lc' e1)).
      generalize (RleEncoder.FlushLiteralRun u
                    (RleEncoder.set_literal_count lc' e2)).
      intros e2' e1' H3. clear -H3. after_start H3.
      unfold encoder_after. enc_fields.
      split; [exact Hw|].
      conj_split; try assumption; try lia; right; reflexivity. }
    destruct (_ >=? 64); apply H2.
Qed.

Lemma encoder_after_run
    (p : list Z) (e1 e2 : RleEncoder.t) (cv : bool) (rc : Z) :
  encoder_after p e1 e2 ->
  encoder_after p
    (RleEncoder.set_current_value cv (RleEncoder.set_repeat_count rc e1))
    (RleEncoder.set_current_value cv (RleEncoder.set_repeat_count rc e2)).
Proof.
  intros H. after_start H. unfold encoder_after. enc_fields.
  split; [exact Hw|]. conj_split; try assumption; try lia. left. reflexivity.
Qed.

Lemma set_repeat_count_run (e : RleEncoder.t) (rc : Z) :
  RleEncoder.set_repeat_count rc e
  = RleEncoder.set_current_value (RleEncoder.current_value_ e)
      (RleEncoder.set_repeat_count rc e).
Proof. destruct e; reflexivity. Qed.

Lemma encoder_after_Put_buffer (v : bool) (p : list Z) (e1 e2 : RleEncoder.t) :
  encoder_after p e1 e2 ->
  (RleEncoder.num_buffered_values_ e1 = 7 ->
   Z.of_nat (length p)
   + Z.of_nat (length (BitWriter.buffer (RleEncoder.bit_writer_ e1)))
   < 2 ^ 31) ->
  encoder_after p (RleEncoder.Put_buffer v e1) (RleEncoder.Put_buffer v e2).
Proof.
  intros H Hfit.
  assert (Hstore :
    encoder_after p
      (RleEncoder.set_num_buffered_values
         (wrap_int32 (RleEncoder.num_buffered_values_ e1 + 1))
         (RleEncoder.set_buffered_values
            (<[Z.to_nat (RleEncoder.num_buffered_values_ e1) := bool_to_Z v]>
               (RleEncoder.buffered_values_ e1)) e1))
      (RleEncoder.set_num_buffered_values
         (wrap_int32 (RleEncoder.num_buffered_values_ e2 + 1))
         (RleEncoder.set_buffered_values
            (<[Z.to_nat (RleEncoder.num_buffered_values_ e2) := bool_to_Z v]>
               (RleEncoder.buffered_values_ e2)) e2))).
  { clear Hfit. after_start H. unfold encoder_after. enc_fields.
    rewrite !length_insert. split; [exact Hw|].
    conj_split; try assumption; try (unfold wrap_int32; lia).
    intros i Hi.
    destruct (Nat.eq_dec (Z.to_nat nb1) i) as [<-|Hne].
    - destruct (Nat.lt_ge_cases (Z.to_nat nb1) (length c1)) as [Hin|Hout].
      + rewrite !list_lookup_insert_eq by lia. reflexivity.
      + rewrite !list_insert_ge by lia.
        rewrite !lookup_ge_None_2 by lia. reflexivity.
    - rewrite !list_lookup_insert_ne by exact Hne.
      apply Hag. unfold wrap_int32 in Hi. lia. }
  unfold RleEncoder.Put_buffer. cbv zeta. enc_fields.
  destruct (encoder_after_counts _ _ _ H) as (Kn & _).
  pose proof H as (_ & _ & _ & _ & _ & _ & _ & Hrange & _).
  rewrite Kn in *.
  destruct (Z.eqb_spec (wrap_int32 (RleEncoder.num_buffered_values_ e1 + 1)) 8)
    as [H8|]; [|exact Hstore].
  apply encoder_after_FlushBufferedValues; [exact Hstore|].
  enc_fields. apply Hfit. unfold wrap_int32 in H8. lia.
Qed.

Lemma encoder_after_Put_value (v : bool) (p : list Z) (e1 e2 : RleEncoder.t) :
  encoder_after p e1 e2 ->
  Z.of_nat (length p)
  + Z.of_nat (length (BitWriter.buffer (RleEncoder.bit_writer_ e1))) < 2 ^ 31 ->
  encoder_after p (RleEncoder.Put_value v e1) (RleEncoder.Put_value v e2).
Proof.
  intros H Hfit.
  destruct (encoder_after_counts _ _ _ H) as (Kn & Kr & _).
  pose proof H as (_ & _ & _ & _ & Hcv & _).
  unfold RleEncoder.Put_value. cbv zeta. enc_fields. rewrite Kr.
  destruct (Bool.eqb (RleEncoder.current_value_ e1) v) eqn:E1;
    destruct (Bool.eqb (RleEncoder.current_value_ e2) v) eqn:E2.
  - (* the value of the run on both sides *)
    apply eqb_prop in E1. apply eqb_prop in E2.
    assert (Hrun : forall rc,
               encoder_after p (RleEncoder.set_repeat_count rc e1)
                               (RleEncoder.set_repeat_count rc e2)).
    { intros rc. rewrite (set_repeat_count_run e1), (set_repeat_count_run e2).
      rewrite E1, E2. apply encoder_after_run, H. }
    destruct (_ >? 8); [apply Hrun|].
    apply encoder_after_Put_buffer; [apply Hrun|].
    intros _. exact Hfit.
  - (* no run is counted, and only the first encoder remembers [v] *)
    apply eqb_prop in E1. apply eqb_false_iff in E2.
    destruct Hcv as [Heq|Hz]; [congruence|].
    rewrite Hz. change (wrap_int32 (0 + 1)) with 1.
    change (1 >? 8) with false. change (0 >=? 8) with false. cbv iota.
    rewrite (set_repeat_count_run e1), E1.
    apply encoder_after_Put_buffer; [apply encoder_after_run, H|].
    intros _. exact Hfit.
  - apply eqb_false_iff in E1. apply eqb_prop in E2.
    destruct Hcv as [Heq|Hz]; [congruence|].
    rewrite Hz. change (wrap_int32 (0 + 1)) with 1.
    change (1 >? 8) with false. change (0 >=? 8) with false. cbv iota.
    rewrite (set_repeat_count_run e2), E2.
    apply encoder_after_Put_buffer; [apply encoder_after_run, H|].
    intros _. exact Hfit.
  - (* another value on both sides *)
    apply encoder_after_Put_buffer.
    + apply encoder_after_run.
      destruct (Z.geb_spec (RleEncoder.repeat_count_ e1) 8); [|exact H].
      apply encoder_after_FlushRepeatedRun; [exact H | lia].
    + enc_fields.
      destruct (Z.geb_spec (RleEncoder.repeat_count_ e1) 8) as [Hge|];
        [|intros _; exact Hfit].
      destruct (FlushRepeatedRun_fields e1) as (F1 & _).
      rewrite F1. lia.
Qed.

Lemma encoder_after_Put_loop (n : nat) :
  forall (v : bool) (p : list Z) (e1 e2 : RleEncoder.t) (vs : list bool),
    encoder_after p e1 e2 ->
    encoder_inv e1 vs ->
    Z.of_nat (length vs) + Z.of_nat n < 2 ^ 30 ->
    Z.of_nat (length p) < 2 ^ 29 ->
    encoder_after p (RleEncoder.Put_loop n v e1) (RleEncoder.Put_loop n v e2).
Proof.
  induction n as [|n IH]; intros v p e1 e2 vs H Hinv Hfit Hp; [exact H|].
  cbn [RleEncoder.Put_loop].
  apply (IH v p _ _ (vs ++ [v])).
  - apply encoder_after_Put_value; [exact H|].
    destruct (encoder_inv_fields e1 vs Hinv ltac:(lia))
      as (_ & _ & _ & _ & _ & _ & _ & Hlen).
    lia.
  - apply Put_value_inv; [exact Hinv | lia].
  - rewrite length_app. cbn [length]. lia.
  - exact Hp.
Qed.

Lemma encoder_after_PutAll (s : schedule) :
  forall (p : list Z) (e1 e2 : RleEncoder.t) (vs : list bool),
    encoder_after p e1 e2 ->
    encoder_inv e1 vs ->
    Z.of_nat (length vs) + Z.of_nat (length (flatten s)) < 2 ^ 30 ->
    Z.of_nat (length p) < 2 ^ 29 ->
    encoder_after p (PutAll s e1) (PutAll s e2)
    /\ encoder_inv (PutAll s e1) (vs ++ flatten s).
Proof.
  induction s as [|[v n] s IH]; intros p e1 e2 vs H Hinv Hfit Hp.
  - simpl. rewrite app_nil_r. auto.
  - change (flatten ((v, n) :: s)) with (repeat v (Z.to_nat n) ++ flatten s)
      in *.
    rewrite length_app, repeat_length in Hfit.
    change (PutAll ((v, n) :: s) e1)
      with (PutAll s (RleEncoder.Put_loop (Z.to_nat n) v e1)).
    change (PutAll ((v, n) :: s) e2)
      with (PutAll s (RleEncoder.Put_loop (Z.to_nat n) v e2)).
    rewrite app_assoc.
    apply IH.
    + apply (encoder_after_Put_loop _ v p e1 e2 vs); try assumption. lia.
    + apply Put_loop_inv; [exact Hinv | lia].
    + rewrite length_app, repeat_length. lia.
    + exact Hp.
Qed.

Lemma encoder_after_Flush (p : list Z) (e1 e2 : RleEncoder.t) :
  encoder_after p e1 e2 ->
  Z.of_nat (length p)
  + Z.of_nat (length (BitWriter.buffer (RleEncoder.bit_writer_ e1))) < 2 ^ 31 ->
  RleEncoder.buffer (snd (RleEncoder.Flush e2))
  = p ++ RleEncoder.buffer (snd (RleEncoder.Flush e1)).
Proof.
  intros H Hfit.
  destruct (encoder_after_counts _ _ _ H) as (Kn & Kr & Kl & _).
  unfold RleEncoder.Flush, BitWriter.Finish, RleEncoder.buffer. cbv zeta.
  rewrite Kn, Kr, Kl. cbn [snd]. enc_fields. cbn [BitWriter.buffer].
  assert (Hbuf : forall e1' e2' : RleEncoder.t,
             encoder_after p e1' e2' ->
             BitWriter.buffer (RleEncoder.bit_writer_ e2')
             = p ++ BitWriter.buffer (RleEncoder.bit_writer_ e1')).
  { intros e1' e2' H'. apply (encoder_after_counts _ _ _ H'). }
  destruct (_ || _); [|apply Hbuf, H].
  destruct (_ && _) eqn:Hall.
  - apply Hbuf, encoder_after_FlushRepeatedRun; [exact H|].
    apply andb_prop in Hall. destruct Hall as [Hpos _].
    apply Z.gtb_lt in Hpos. lia.
  - enc_fields.
    set (lc' := wrap_int32 _).
    assert (H1 : encoder_after p (RleEncoder.set_literal_count lc' e1)
                                 (RleEncoder.set_literal_count lc' e2)).
    { clear Hfit Hall. after_start H. unfold encoder_after. enc_fields.
      split; [exact Hw|]. conj_split; try assumption; lia. }
    apply Hbuf, encoder_after_FlushLiteralRun; [exact H1|].
    destruct e1; exact Hfit.
Qed.

(** What [Flush] leaves: nothing pending and no literal run open. *)
Lemma Flush_idle (e : RleEncoder.t) (vs : list bool) :
  encoder_inv e vs ->
  Z.of_nat (length vs) < 2 ^ 30 ->
  let e' := snd (RleEncoder.Flush e) in
  RleEncoder.num_buffered_values_ e' = 0
  /\ RleEncoder.repeat_count_ e' = 0
  /\ RleEncoder.literal_count_ e' = 0
  /\ RleEncoder.literal_indicator_byte_ e' < 0
  /\ BitWriter.bit_offset (RleEncoder.bit_writer_ e') = 0%nat
  /\ length (RleEncoder.buffered_values_ e') = 8%nat.
Proof.
  intros Hinv Hfit. cbv zeta.
  destruct (encoder_inv_fields e vs Hinv Hfit)
    as (Hnb & Hrc & _ & _ & Hlc & _ & _ & _).
  destruct Hinv as (closed & closed_vs & lits & Hout & _).
  destruct Hout as (_ & _ & _ & Hcells & Hind & _ & Hlits & _).
  assert (Hopen : RleEncoder.literal_count_ e = 0 ->
                  RleEncoder.literal_indicator_byte_ e < 0).
  { intros Hz. apply Hind. destruct lits; [reflexivity|simpl in *; lia]. }
  unfold RleEncoder.Flush, BitWriter.Finish. cbv zeta.
  destruct ((RleEncoder.literal_count_ e >? 0)
            || (RleEncoder.repeat_count_ e >? 0)
            || (RleEncoder.num_buffered_values_ e >? 0)) eqn:Hp.
  - destruct ((RleEncoder.repeat_count_ e >? 0)
              && ((RleEncoder.literal_count_ e =? 0)
                  && ((RleEncoder.repeat_count_ e
                       =? RleEncoder.num_buffered_values_ e)
                      || (RleEncoder.num_buffered_values_ e =? 0))))
      eqn:Hall.
    + apply andb_prop in Hall. destruct Hall as [_ Hall].
      apply andb_prop in Hall. destruct Hall as [Hz _].
      apply Z.eqb_eq in Hz.
      unfold RleEncoder.FlushRepeatedRun. cbv zeta. enc_fields.
      cbn [BitWriter.bit_offset]. conj_split; auto.
    + enc_fields.
      unfold RleEncoder.FlushLiteralRun. cbv zeta. enc_fields.
      destruct (RleEncoder.literal_indicator_byte_ e <? 0);
        unfold BitWriter.GetByteIndexAndAdvance; enc_fields;
        cbn [BitWriter.bit_offset]; conj_split; try assumption; lia.
  - apply orb_false_iff in Hp. destruct Hp as [Hp Hp3].
    apply orb_false_iff in Hp. destruct Hp as [Hp1 Hp2].
    Z_bools. enc_fields. cbn [BitWriter.bit_offset].
    conj_split; try assumption; try lia; apply Hopen; lia.
Qed.

Lemma encoder_after_idle (p : list Z) (e : RleEncoder.t) :
  RleEncoder.buffer e = p ->
  RleEncoder.num_buffered_values_ e = 0 ->
  RleEncoder.repeat_count_ e = 0 ->
  RleEncoder.literal_count_ e = 0 ->
  RleEncoder.literal_indicator_byte_ e < 0 ->
  BitWriter.bit_offset (RleEncoder.bit_writer_ e) = 0%nat ->
  length (RleEncoder.buffered_values_ e) = 8%nat ->
  encoder_after p (RleEncoder.new []) e.
Proof.
  intros Hb Z1 Z2 Z3 Z4 Z5 Z6. unfold RleEncoder.buffer in Hb.
  unfold encoder_after, writer_after. simpl.
  rewrite Hb, Z1, Z2, Z3, Z5, Z6, app_nil_r.
  conj_split; try lia; auto; intros i Hi; lia.
Qed.

(** X17.  [Flush] ends one stream and [Put] after it starts another: the
    bytes after a second sequence of [Put] calls and a second [Flush] are the
    output for the first values followed by the output the second values
    have on their own. *)
Theorem Flush_starts_a_new_stream (s1 s2 : schedule) :
  Z.of_nat (length (flatten s1)) < 2 ^ 30 ->
  Z.of_nat (length (flatten s2)) < 2 ^ 30 ->
  RleEncoder.buffer
    (snd (RleEncoder.Flush
            (PutAll s2
               (snd (RleEncoder.Flush (PutAll s1 (RleEncoder.new [])))))))
  = encode s1 ++ encode s2.
Proof.
  intros Hfit1 Hfit2.
  destruct (PutAll_asserted s1 (RleEncoder.new []) [] new_encoder_inv)
    as (_ & Hinv1); [simpl; lia|].
  cbn [app] in Hinv1.
  destruct (Flush_idle _ _ Hinv1 Hfit1) as (Z1 & Z2 & Z3 & Z4 & Z5 & Z6).
  destruct (Flush_Stream _ _ Hinv1 Hfit1) as (_ & _ & _ & Hsize).
  fold (RleEncoder.buffer (snd (RleEncoder.Flush
                                 (PutAll s1 (RleEncoder.new []))))) in *.
  fold (encode s1) in Hsize.
  set (mid := snd (RleEncoder.Flush (PutAll s1 (RleEncoder.new [])))) in *.
  assert (H0 : encoder_after (encode s1) (RleEncoder.new []) mid)
    by (apply encoder_after_idle; try assumption; reflexivity).
  destruct (encoder_after_PutAll s2 (encode s1) (RleEncoder.new []) mid []
              H0 new_encoder_inv) as (H1 & Hinv2); [simpl; lia | lia |].
  cbn [app] in Hinv2.
  rewrite (encoder_after_Flush _ _ _ H1); [reflexivity|].
  destruct (encoder_inv_fields _ _ Hinv2 Hfit2)
    as (_ & _ & _ & _ & _ & _ & _ & Hlen).
  lia.
Qed.

Lemma Flush_starts_a_new_stream_witness :
  RleEncoder.buffer
    (snd (RleEncoder.Flush
            (PutAll [(false, 2); (true, 1)]
               (snd (RleEncoder.Flush
                       (PutAll [(true, 9)] (RleEncoder.new [])))))))
  = encode [(true, 9)] ++ encode [(false, 2); (true, 1)].
Proof.
  apply (Flush_starts_a_new_stream [(true, 9)] [(false, 2); (true, 1)]);
    vm_compute; reflexivity.
Defined.

(** ** The loops of the decoder end *)


(** The count of the run bounds the turns of the inner loop. *)
Lemma GetNextRun_literals_fuel (n : nat) :
  forall (m : nat) (val : bool) (rl : Z) (d : RleDecoder.t),
    0 <= RleDecoder.literal_count_ d < 2 ^ 32 ->
    RleDecoder.literal_count_ d <= Z.of_nat n ->
    RleDecoder.literal_count_ d <= Z.of_nat m ->
    RleDecoder.GetNextRun_literals n val rl d
    = RleDecoder.GetNextRun_literals m val rl d.
Proof.
  induction n as [|n IH]; intros m val rl d Hlc Hn Hm.
  - destruct m; cbn [RleDecoder.GetNextRun_literals];
      replace (RleDecoder.literal_count_ d >? 0) with false
        by (symmetry; rewrite Z.gtb_ltb; apply Z.ltb_ge; lia);
      reflexivity.
  - cbn [RleDecoder.GetNextRun_literals].
    destruct (Z.gtb_spec (RleDecoder.literal_count_ d) 0) as [Hpos|Hz].
    + destruct m as [|m]; [lia|]. cbn [RleDecoder.GetNextRun_literals].
      replace (RleDecoder.literal_count_ d >? 0) with true
        by (symmetry; apply Z.gtb_lt; lia).
      destruct (BitReader.GetBool (RleDecoder.bit_reader_ d)) as [[x r]|];
        [|reflexivity].
      dec_fields. destruct (negb (Bool.eqb x val)); [reflexivity|].
      apply IH; dec_fields; rewrite wrap_uint32_small by lia; lia.
    + destruct m; cbn [RleDecoder.GetNextRun_literals];
        replace (RleDecoder.literal_count_ d >? 0) with false
          by (symmetry; rewrite Z.gtb_ltb; apply Z.ltb_ge; lia);
        reflexivity.
Qed.





